(** * MedicaidLens: the front-end request layer, chat page and trends page,
      together with the analytics back-end contract they talk to.

    The development embeds the JavaScript of [frontend/src/api.js],
    [frontend/src/pages/Chat.jsx] (its current form and the two earlier
    ones) and [frontend/src/pages/Trends.jsx] as Rocq functions over a
    small model of JavaScript values, and states the properties of the
    specification over those functions.  It goes on to the anomalies
    page, the code explorer and the dashboard, and to the properties the
    code of these pages has on its own.

    JavaScript numbers are IEEE doubles; they are modelled by rationals
    extended with NaN and the two infinities, so every comparison and
    every division by zero behaves as in the source.  The division of
    [formatCurrency] is rounded to the nearest double as the machine
    does it; the sums and ratios of the trends and anomalies pages are
    the exact ones.  Strings are sequences of code units below 256. *)

From Stdlib Require Import ZArith QArith Qround Qabs Qpower Lia Bool Ascii String List.
From Stdlib Require Import Decimal DecimalString DecimalN DecimalPos.
From Stdlib Require Import Orders Mergesort Permutation Sorted.
From Stdlib Require Import Lra Lqa.
From stdpp Require Import base option list strings gmap.

Import ListNotations.
Local Open Scope string_scope.
Local Open Scope list_scope.

#[local] Set Warnings "-register-all".

(* ================================================================== *)
(** * Part I: the program *)
(* ================================================================== *)

(** ** Numbers *)

Module Num.

(** A double: a finite rational, NaN or a signed infinity.  The
    operations [sub], [mul] and [div] below are the exact ones; [round]
    takes an exact result to the nearest double and [fdiv] is the
    division of the machine.  Zero is unsigned: the sums and quotients
    below never produce a negative zero unless an operand already is
    one. *)
Inductive num : Type :=
| Fin (q : Q)
| NaN
| PosInf
| NegInf.

Definition is_zero (q : Q) : bool := Qeq_bool q 0.
Definition is_neg (q : Q) : bool := negb (Qle_bool 0 q).

Definition of_nat (n : nat) : num := Fin (inject_Z (Z.of_nat n)).

(** [a - b] *)
Definition sub (a b : num) : num :=
  match a, b with
  | NaN, _ | _, NaN => NaN
  | Fin x, Fin y => Fin (x - y)
  | Fin _, PosInf => NegInf
  | Fin _, NegInf => PosInf
  | PosInf, PosInf => NaN
  | PosInf, _ => PosInf
  | NegInf, NegInf => NaN
  | NegInf, _ => NegInf
  end.

(** The infinity with the sign of [q] turned over when [flip] holds;
    a zero [q] counts as positive. *)
Definition inf_signed (flip : bool) (q : Q) : num :=
  if xorb flip (is_neg q) then NegInf else PosInf.

(** [a * b] *)
Definition mul (a b : num) : num :=
  match a, b with
  | NaN, _ | _, NaN => NaN
  | Fin x, Fin y => Fin (x * y)
  | Fin x, PosInf | PosInf, Fin x => if is_zero x then NaN else inf_signed false x
  | Fin x, NegInf | NegInf, Fin x => if is_zero x then NaN else inf_signed true x
  | PosInf, PosInf | NegInf, NegInf => PosInf
  | PosInf, NegInf | NegInf, PosInf => NegInf
  end.

(** [a / b]: a finite non-zero value over zero is an infinity, zero over
    zero is NaN. *)
Definition div (a b : num) : num :=
  match a, b with
  | NaN, _ | _, NaN => NaN
  | Fin x, Fin y =>
      if is_zero y then (if is_zero x then NaN else inf_signed false x)
      else Fin (x / y)
  | Fin _, _ => Fin 0
  | PosInf, Fin y => inf_signed false y
  | NegInf, Fin y => inf_signed true y
  | _, _ => NaN
  end.

(** [2^z] *)
Definition pow2 (z : Z) : Q := (2 ^ z)%Q.

(** The exponent of a positive rational: the [e] with
    [2^e <= a < 2^(e+1)]. *)
Definition binade (a : Q) : Z :=
  let k := (Z.log2 (Qnum a) - Z.log2 (Zpos (Qden a)))%Z in
  if Qle_bool (pow2 k) a then k else (k - 1)%Z.

(** The integer nearest to [y], the even one of two. *)
Definition nearest_even (y : Q) : Z :=
  let f := Qfloor y in
  match ((y - inject_Z f) ?= (1 # 2))%Q with
  | Lt => f
  | Gt => (f + 1)%Z
  | Eq => if Z.even f then f else (f + 1)%Z
  end.

(** The double nearest to [q], as IEEE 754 rounds to binary64: 53
    significant bits from exponent -1022 on, the grid of 2^-1074 below,
    ties to the even significand, and an infinity from 2^1024 on.
    [grid] is the exponent of the last bit kept and [on_grid] the
    rounded magnitude. *)
Definition grid (a : Q) : Z := (Z.max (binade a) (-1022) - 52)%Z.

Definition on_grid (a : Q) : Q :=
  (inject_Z (nearest_even (a / pow2 (grid a))) * pow2 (grid a))%Q.

Definition round (q : Q) : num :=
  let a := Qabs q in
  if is_zero a then Fin 0
  else
    let r := on_grid a in
    if Qle_bool (pow2 1024) r then (if is_neg q then NegInf else PosInf)
    else Fin (if is_neg q then - r else r)%Q.

(** [a / b] as the machine computes it: the exact quotient, rounded. *)
Definition fdiv (a b : num) : num :=
  match div a b with
  | Fin q => round q
  | r => r
  end.

(** [a >= b]; every comparison with NaN is false. *)
Definition ge (a b : num) : bool :=
  match a, b with
  | NaN, _ | _, NaN => false
  | Fin x, Fin y => Qle_bool y x
  | PosInf, _ => true
  | _, NegInf => true
  | _, _ => false
  end.

End Num.

(** ** JavaScript values *)

Module JS.

(** The values that cross the API boundary or sit in component state. *)
Inductive value : Type :=
| Undefined
| Null
| Bool (b : bool)
| Num (n : Num.num)
| Str (s : string)
| Arr (items : list value)
| Obj (fields : list (string * value)).

(** An object held in component state, read by property name. *)
Abbreviation object := (gmap string value).

(** [ToBoolean]: the falsy values are [undefined], [null], [false],
    zero, [NaN] and the empty string. *)
Definition truthy (v : value) : bool :=
  match v with
  | Undefined | Null => false
  | Bool b => b
  | Num (Num.Fin q) => negb (Num.is_zero q)
  | Num Num.NaN => false
  | Num _ => true
  | Str s => negb (String.eqb s "")
  | Arr _ | Obj _ => true
  end.

(** [a || b] *)
Definition or_else (a b : value) : value := if truthy a then a else b.

(** [v === 'literal'] *)
Definition is_str (v : value) (lit : string) : bool :=
  match v with
  | Str s => String.eqb s lit
  | _ => false
  end.

(** [o.k] on an object of component state: a missing property reads as
    [undefined]. *)
Definition prop (o : object) (k : string) : value :=
  default Undefined (o !! k).

(** Decimal text of an array index. *)
Definition index_key (i : nat) : string :=
  NilZero.string_of_uint (Nat.to_uint i).

(** The own enumerable properties of a value, as the spread [{...v}]
    copies them: the fields of an object, the indexed items of an array,
    the indexed characters of a string, nothing for the other values. *)
Definition own_props (v : value) : list (string * value) :=
  match v with
  | Obj fields => fields
  | Arr items => imap (fun i x => (index_key i, x)) items
  | Str s =>
      imap (fun i c => (index_key i, Str (String c EmptyString)))
           (list_ascii_of_string s)
  | _ => []
  end.

(** [v.k] for a property name [k] that is neither an index nor
    [length]: [None] is the TypeError raised on [null] and [undefined]. *)
Definition member (v : value) (k : string) : option value :=
  match v with
  | Undefined | Null => None
  | Obj fields => Some (default Undefined ((list_to_map fields : object) !! k))
  | _ => Some Undefined
  end.

(** [v.length] on a value that is not nullish. *)
Definition length_of (v : value) : value :=
  match v with
  | Arr items => Num (Num.of_nat (length items))
  | Str s => Num (Num.of_nat (String.length s))
  | Obj fields => default Undefined ((list_to_map fields : object) !! "length")
  | _ => Undefined
  end.

(** [v === 0] *)
Definition is_zero_num (v : value) : bool :=
  match v with
  | Num (Num.Fin q) => Num.is_zero q
  | _ => false
  end.

(** [v?.[0]] *)
Definition first_item (v : value) : value :=
  match v with
  | Arr items => default Undefined (head items)
  | Str (String c _) => Str (String c EmptyString)
  | Obj fields => default Undefined ((list_to_map fields : object) !! "0")
  | _ => Undefined
  end.

(** White space and line terminators among the code units below 256:
    TAB, LF, VT, FF, CR, SPACE and NBSP. *)
Definition is_white_space (c : ascii) : bool :=
  let n := nat_of_ascii c in
  (((9 <=? n) && (n <=? 13)) || (n =? 32) || (n =? 160))%nat.

Fixpoint trim_start (s : string) : string :=
  match s with
  | EmptyString => EmptyString
  | String c rest => if is_white_space c then trim_start rest else s
  end.

Definition trim_end (s : string) : string :=
  String.rev (trim_start (String.rev s)).

(** [s.trim()] *)
Definition trim (s : string) : string := trim_end (trim_start s).

(** *** Ordinary objects and the order of their keys

    An object literal filled by assignment keeps its own keys in a fixed
    order: the keys that are array indices first, by ascending value,
    then the other strings in the order they were created.
    [Object.values] follows that order.  An object is kept as the list
    of its properties in that order. *)

Definition digit_of (c : ascii) : option N :=
  let n := N_of_ascii c in
  if ((48 <=? n) && (n <=? 57))%N then Some (n - 48)%N else None.

Fixpoint parse_digits (acc : N) (s : string) : option N :=
  match s with
  | EmptyString => Some acc
  | String c rest =>
      match digit_of c with
      | Some d => parse_digits (10 * acc + d)%N rest
      | None => None
      end
  end.

(** A key is an array index when it is the decimal text, without leading
    zeros, of an integer below 2^32 - 1. *)
Definition array_index (k : string) : option N :=
  match k with
  | EmptyString => None
  | String c rest =>
      if Ascii.eqb c "0"
      then (if String.eqb rest "" then Some 0%N else None)
      else
        match parse_digits 0 k with
        | Some n => if (n <? 2 ^ 32 - 1)%N then Some n else None
        | None => None
        end
  end.

Definition obj_get {V : Type} (o : list (string * V)) (k : string) : option V :=
  snd <$> List.find (fun p => String.eqb (fst p) k) o.

(** Assignment to a property of the object stored under [k], as
    [o[k].f += x] does it. *)
Fixpoint obj_update {V : Type} (k : string) (f : V -> V) (o : list (string * V))
  : list (string * V) :=
  match o with
  | [] => []
  | (k', v) :: rest =>
      if String.eqb k' k then (k', f v) :: rest
      else (k', v) :: obj_update k f rest
  end.

(** A new index key goes before the first key that is a larger index or
    no index at all. *)
Fixpoint insert_index {V : Type} (n : N) (k : string) (v : V)
    (o : list (string * V)) : list (string * V) :=
  match o with
  | [] => [(k, v)]
  | (k', v') :: rest =>
      match array_index k' with
      | Some n' =>
          if (n' <? n)%N then (k', v') :: insert_index n k v rest
          else (k, v) :: o
      | None => (k, v) :: o
      end
  end.

(** [o[k] = v] for a key the object does not have yet. *)
Definition obj_define {V : Type} (k : string) (v : V) (o : list (string * V))
  : list (string * V) :=
  match array_index k with
  | Some n => insert_index n k v o
  | None => o ++ [(k, v)]
  end.

(** [o[k] = v] *)
Definition obj_set {V : Type} (k : string) (v : V) (o : list (string * V))
  : list (string * V) :=
  match obj_get o k with
  | Some _ => obj_update k (fun _ => v) o
  | None => obj_define k v o
  end.

Definition obj_keys {V : Type} (o : list (string * V)) : list string := map fst o.
Definition obj_values {V : Type} (o : list (string * V)) : list V := map snd o.

(** Keys that are array indices, in ascending order of their value. *)
Definition key_le (a b : string) : Prop :=
  exists x y, array_index a = Some x /\ array_index b = Some y /\ (x <= y)%N.

Definition indexed (ks : list string) : Prop :=
  Forall (fun k => is_Some (array_index k)) ks.

Definition ascending (ks : list string) : Prop :=
  indexed ks /\ StronglySorted key_le ks.

End JS.

(** ** The request layer: [frontend/src/api.js] *)

Module Api.

Definition API_BASE : string := "/api".

(** What [fetch] settles to: the promise rejects when the service cannot
    be reached or the request is cut off; otherwise there is a response
    with its [ok] flag and a body that parses as JSON or does not. *)
Inductive response : Type :=
| Unreachable
| Reply (ok : bool) (body : option JS.value).

Inductive error : Type :=
| NetworkError
| SyntaxError
| Error (message : string).

Inductive outcome (A : Type) : Type :=
| Returned (a : A)
| Thrown (e : error).
Arguments Returned {A} a.
Arguments Thrown {A} e.

(** The body of a chat request: [JSON.stringify({ message, history })]. *)
Record chat_body : Type := {
  message : string;
  history : list JS.object;
}.

(** A request as the server receives it: the query string is kept as the
    list of name/value pairs that [URLSearchParams] serialises. *)
Record request : Type := {
  method : string;
  path : string;
  query : list (string * string);
  body : option chat_body;
}.

(** [const res = await fetch(...); if (!res.ok) throw new Error(msg);
     return res.json()] *)
Definition json_or_throw (msg : string) (r : response) : outcome JS.value :=
  match r with
  | Unreachable => Thrown NetworkError
  | Reply false _ => Thrown (Error msg)
  | Reply true None => Thrown SyntaxError
  | Reply true (Some v) => Returned v
  end.

(** [URLSearchParams.prototype.set]: the first pair of that name takes the
    value and the later ones go; without such a pair one is appended. *)
Fixpoint params_replace (name val : string) (ps : list (string * string))
  : list (string * string) :=
  match ps with
  | [] => []
  | (n, v) :: rest =>
      if String.eqb n name
      then (n, val) :: List.filter (fun p => negb (String.eqb (fst p) name)) rest
      else (n, v) :: params_replace name val rest
  end.

Definition params_set (name val : string) (ps : list (string * string))
  : list (string * string) :=
  if existsb (fun p => String.eqb (fst p) name) ps
  then params_replace name val ps
  else ps ++ [(name, val)].

Definition e10 (k : nat) : Q := inject_Z (10 ^ Z.of_nat k).

Definition digits (n : Z) : string := NilZero.string_of_uint (N.to_uint (Z.to_N n)).

Fixpoint zeros (k : nat) : string :=
  match k with
  | O => ""
  | S k' => String "0" (zeros k')
  end.

(** The digits of [n] with a point before the last [f] of them, padded
    with zeros to [f + 1] places: the last steps of [toFixed]. *)
Definition fixed_text (n : Z) (f : nat) : string :=
  let m := digits n in
  if (f =? 0)%nat then m
  else
    let k := String.length m in
    let m := if (k <=? f)%nat then zeros (f + 1 - k) +:+ m else m in
    let k := String.length m in
    substring 0 (k - f) m +:+ "." +:+ substring (k - f) f m.

Section Builtins.

(** [Number::toString] on a finite number is the shortest decimal text
    that reads back as the same double; it is a builtin of the language
    and stays a parameter. *)
Variable Number_toString : Q -> string.

(** [n.toString()] *)
Definition num_toString (n : Num.num) : string :=
  match n with
  | Num.Fin q => Number_toString q
  | Num.NaN => "NaN"
  | Num.PosInf => "Infinity"
  | Num.NegInf => "-Infinity"
  end.

(** [x.toFixed(f)], step by step as the language defines it: the sign is
    split off, values from 10^21 on fall back to [toString], and below
    that the integer [n] nearest to [x * 10^f] (the larger of two) is
    printed with a point before its last [f] digits. *)
Definition toFixed (x : Num.num) (f : nat) : string :=
  match x with
  | Num.Fin q =>
      let s := if Num.is_neg q then "-" else "" in
      let a := Qabs q in
      if Qle_bool (e10 21) a then s +:+ Number_toString a
      else
        let n := Qfloor (a * e10 f + (1 # 2)) in
        s +:+ fixed_text n f
  | _ => num_toString x
  end.

(** *** Reading a printed amount back

    What it is for a text to be a number [with f decimals], said without
    [toFixed]: an optional minus sign, a whole part in digits without a
    needless leading zero, and, when [f] is not zero, a point and exactly
    [f] digits.  The text is read back to its sign and to the integer
    its digits spell. *)
Definition canonical (w : string) : bool :=
  match w with
  | EmptyString => false
  | String c rest => negb (Ascii.eqb c "0") || String.eqb rest ""
  end.

Fixpoint split_point (s : string) : string * option string :=
  match s with
  | EmptyString => (EmptyString, None)
  | String c rest =>
      if Ascii.eqb c "."
      then (EmptyString, Some rest)
      else let (w, d) := split_point rest in (String c w, d)
  end.

Definition unsigned_text (f : nat) (s : string) : option N :=
  let (w, d) := split_point s in
  if canonical w then
    match JS.parse_digits 0 w, d with
    | Some a, None => if (f =? 0)%nat then Some a else None
    | Some a, Some d =>
        if (0 <? f)%nat && (String.length d =? f)%nat then
          match JS.parse_digits 0 d with
          | Some b => Some (a * 10 ^ N.of_nat f + b)%N
          | None => None
          end
        else None
    | None, _ => None
    end
  else None.

Definition decimal_text (f : nat) (s : string) : option (bool * N) :=
  match s with
  | EmptyString => None
  | String c rest =>
      if Ascii.eqb c "-"
      then pair true <$> unsigned_text f rest
      else pair false <$> unsigned_text f s
  end.

(** [body] is the number [x] with [f] decimals: it carries the sign of
    [x], and its digits spell the integer nearest to the magnitude of
    [x] times [10^f], the larger of two. *)
Definition with_decimals (f : nat) (x : Q) (body : string) : Prop :=
  exists n : N,
    decimal_text f body = Some (Num.is_neg x, n) /\
    (inject_Z (Z.of_N n) - (1 # 2) <= Qabs x * e10 f)%Q /\
    (Qabs x * e10 f < inject_Z (Z.of_N n) + (1 # 2))%Q.

(** The argument of [formatCurrency]: [null], [undefined] or a number. *)
Inductive nullable_number : Type :=
| IsNull
| IsUndefined
| IsNumber (n : Num.num).

Definition formatCurrency (value : nullable_number) : string :=
  match value with
  | IsNull | IsUndefined => "$0"
  | IsNumber v =>
      if Num.ge v (Num.Fin (e10 9))
      then "$" +:+ toFixed (Num.fdiv v (Num.Fin (e10 9))) 2 +:+ "B"
      else if Num.ge v (Num.Fin (e10 6))
      then "$" +:+ toFixed (Num.fdiv v (Num.Fin (e10 6))) 1 +:+ "M"
      else if Num.ge v (Num.Fin (e10 3))
      then "$" +:+ toFixed (Num.fdiv v (Num.Fin (e10 3))) 0 +:+ "K"
      else "$" +:+ toFixed v 2
  end.

(** [fetchAnomalies(limit = 50, minZScore = 5.0, hcpcsCode)]: an omitted
    argument is [None]. *)
Definition fetchAnomalies_request
    (limit minZScore : option Num.num) (hcpcsCode : option string) : request :=
  let limit := default (Num.Fin 50) limit in
  let minZScore := default (Num.Fin 5) minZScore in
  let params :=
    [("limit", num_toString limit); ("min_z_score", num_toString minZScore)] in
  let params :=
    match hcpcsCode with
    | Some code =>
        if JS.truthy (JS.Str code) then params_set "hcpcs_code" code params
        else params
    | None => params
    end in
  {| method := "GET"; path := API_BASE +:+ "/anomalies";
     query := params; body := None |}.

End Builtins.

Definition fetchAnomalies_result (r : response) : outcome JS.value :=
  json_or_throw "Failed to fetch anomalies" r.

(** [sendChatMessage(message, history = [])] *)
Definition sendChatMessage_request (msg : string) (hist : list JS.object)
  : request :=
  {| method := "POST"; path := API_BASE +:+ "/chat"; query := [];
     body := Some {| message := msg; history := hist |} |}.

Definition sendChatMessage_result (r : response) : outcome JS.value :=
  json_or_throw "Chat request failed" r.

Fixpoint drop_zeros (s : string) : string :=
  match s with
  | String "0" rest => drop_zeros rest
  | _ => s
  end.

Definition strip_zeros (s : string) : string :=
  String.rev (drop_zeros (String.rev s)).

(** A stand-in for [Number::toString] used to run the definitions:
    exact on integers, truncated to three decimals otherwise. *)
Definition decimal_toString (q : Q) : string :=
  let s := if Num.is_neg q then "-" else "" in
  let a := Qabs q in
  let whole := Qfloor a in
  let frac := Qfloor ((a - inject_Z whole) * e10 3) in
  if (frac =? 0)%Z then s +:+ digits whole
  else
    let d := digits frac in
    s +:+ digits whole +:+ "." +:+
      strip_zeros (zeros (3 - String.length d) +:+ d).

End Api.

(** ** The trends page: [frontend/src/pages/Trends.jsx] *)

Module Trends.

(** One point of the series [/api/trends] returns. *)
Record MonthlyTrend : Type := {
  claim_month : string;
  total_paid : Q;
  total_claims : Q;
  active_providers : Q;
  total_beneficiaries : Q;
}.

(** An entry of [yearlyData]. *)
Record yearly : Type := {
  year : string;
  spending : Q;
  claims : Q;
  months : nat;
}.

(** The body of [trends.forEach(t => ...)], with [key] for the local
    [year].  The test [!yearlyData[year]] asks for an own property: the
    key has at most four characters and no inherited property of an
    object has so short a name; an entry, being an object, is truthy. *)
Definition add_month (yearlyData : list (string * yearly)) (t : MonthlyTrend)
  : list (string * yearly) :=
  let key := substring 0 4 (claim_month t) in
  let yearlyData :=
    match JS.obj_get yearlyData key with
    | Some _ => yearlyData
    | None =>
        JS.obj_set key
          {| year := key; spending := 0; claims := 0; months := 0 |}
          yearlyData
    end in
  JS.obj_update key
    (fun y => {| year := year y;
                 spending := spending y + total_paid t;
                 claims := claims y + total_claims t;
                 months := months y + 1 |})
    yearlyData.

Definition yearlyData (trends : list MonthlyTrend) : list (string * yearly) :=
  fold_left add_month trends [].

(** [Object.values(yearlyData).filter(y => y.months >= 6)] *)
Definition yearlyArr (trends : list MonthlyTrend) : list yearly :=
  List.filter (fun y => (6 <=? months y)%nat) (JS.obj_values (yearlyData trends)).

Record growth : Type := {
  spendGrowth : Num.num;
  lastYear : string;
  prevYear : string;
}.

(** [getGrowth], with [None] for [null]. *)
Definition getGrowth (yearlyArr : list yearly) : option growth :=
  if (length yearlyArr <? 2)%nat then None
  else
    match nth_error yearlyArr (length yearlyArr - 1),
          nth_error yearlyArr (length yearlyArr - 2) with
    | Some last, Some prev =>
        let last_avg := Num.div (Num.Fin (spending last)) (Num.of_nat (months last)) in
        let prev_avg := Num.div (Num.Fin (spending prev)) (Num.of_nat (months prev)) in
        Some {| spendGrowth :=
                  Num.mul (Num.div (Num.sub last_avg prev_avg) prev_avg)
                          (Num.Fin 100);
                lastYear := year last;
                prevYear := year prev |}
    | _, _ => None
    end.

(** The growth figure of the page. *)
Definition page_growth (trends : list MonthlyTrend) : option growth :=
  getGrowth (yearlyArr trends).

(** *** The same figure in the words of the specification *)

Definition year_of (t : MonthlyTrend) : string := substring 0 4 (claim_month t).

Definition in_year (y : string) (trends : list MonthlyTrend) : list MonthlyTrend :=
  List.filter (fun t => String.eqb (year_of t) y) trends.

(** Number of months of trend data in calendar year [y]. *)
Definition months_in (y : string) (trends : list MonthlyTrend) : nat :=
  length (in_year y trends).

(** Spending of calendar year [y]. *)
Definition spending_in (y : string) (trends : list MonthlyTrend) : Q :=
  fold_left Qplus (map total_paid (in_year y trends)) 0%Q.

Definition claims_in (y : string) (trends : list MonthlyTrend) : Q :=
  fold_left Qplus (map total_claims (in_year y trends)) 0%Q.

(** The entry of year [y] as the series defines it. *)
Definition entry_of (trends : list MonthlyTrend) (y : string) : yearly :=
  {| year := y;
     spending := spending_in y trends;
     claims := claims_in y trends;
     months := months_in y trends |}.

(** Average monthly spending of year [y]: yearly spending over the
    year's month count. *)
Definition average_monthly (y : string) (trends : list MonthlyTrend) : Num.num :=
  Num.div (Num.Fin (spending_in y trends)) (Num.of_nat (months_in y trends)).

(** Percentage change from [prev] to [last]. *)
Definition percent_change (prev last : Num.num) : Num.num :=
  Num.mul (Num.div (Num.sub last prev) prev) (Num.Fin 100).

(** The calendar year that a text names: four digits, the first of
    them not zero, read as thousands, hundreds, tens and units.  This is
    the reading of the specification, made without the keys of any
    object. *)
Definition digit_value (c : ascii) : option nat :=
  let n := nat_of_ascii c in
  if ((48 <=? n) && (n <=? 57))%nat then Some (n - 48)%nat else None.

Definition calendar_year (y : string) : option nat :=
  match y with
  | String a (String b (String c (String d EmptyString))) =>
      match digit_value a, digit_value b, digit_value c, digit_value d with
      | Some a, Some b, Some c, Some d =>
          if (1 <=? a)%nat then Some (1000 * a + 100 * b + 10 * c + d)%nat else None
      | _, _, _, _ => None
      end
  | _ => None
  end.

(** Year [a] lies before year [b]. *)
Definition earlier_year (a b : string) : Prop :=
  exists m n, calendar_year a = Some m /\ calendar_year b = Some n /\ (m < n)%nat.

(** The years of the series in the order the page lists them. *)
Definition years (trends : list MonthlyTrend) : list string :=
  JS.obj_keys (yearlyData trends).

(** The years that contain at least six months of data. *)
Definition qualifying (trends : list MonthlyTrend) : list string :=
  List.filter (fun y => (6 <=? months_in y trends)%nat) (years trends).

(** [yd] holds, year by year, the figures of the series [l]: each entry
    is the one the series defines, no year occurs twice, and every year
    of the series has its entry. *)
Definition tabulated (l : list MonthlyTrend) (yd : list (string * yearly)) : Prop :=
  Forall (fun p => snd p = entry_of l (fst p)) yd /\
  NoDup (JS.obj_keys yd) /\
  (forall t, In t l -> In (year_of t) (JS.obj_keys yd)).

(** The first six months of year [y], each with the same amount. *)
Definition half_year (y : string) (amount : Q) : list MonthlyTrend :=
  map (fun m => {| claim_month := y +:+ m; total_paid := amount;
                   total_claims := 1; active_providers := 1;
                   total_beneficiaries := 1 |})
      ["-01-01"; "-02-01"; "-03-01"; "-04-01"; "-05-01"; "-06-01"].

(** Three half-years, out of order, and a single month of a fourth
    year. *)
Definition sample_series : list MonthlyTrend :=
  half_year "2020" 10 ++ half_year "2019" 5 ++ half_year "2021" 7 ++
  [{| claim_month := "2022-01-01"; total_paid := 7; total_claims := 1;
      active_providers := 1; total_beneficiaries := 1 |}].

(** The growth figure of [sample_series]. *)
Definition sample_growth : growth :=
  {| spendGrowth := percent_change (average_monthly "2020" sample_series)
                                   (average_monthly "2021" sample_series);
     lastYear := "2021";
     prevYear := "2020" |}.

End Trends.

(** ** The chat page: [frontend/src/pages/Chat.jsx] *)

Module Chat.

Import JS.

(** The three pieces of component state the handler reads and writes. *)
Record state : Type := {
  messages : list object;
  input : string;
  loading : bool;
}.

Definition initial : state := {| messages := []; input := ""; loading := false |}.

(** [{ role: 'user', content: messageText }] *)
Definition user_message (messageText : string) : object :=
  list_to_map [("role", Str "user"); ("content", Str messageText)].

(** The turn appended by the [catch] branch. *)
Definition error_message : object :=
  list_to_map
    [("role", Str "assistant");
     ("content", Str "");
     ("error", Str "Failed to get response. Please try again.");
     ("narrative", Str "")].

(** [text || input.trim()]; a call without argument has [text = None]. *)
Definition message_text (text : option string) (input : string) : string :=
  match text with
  | Some t => if truthy (Str t) then t else trim input
  | None => trim input
  end.

(** [messages.map(m => ({ role: m.role, content: ... }))] *)
Definition history_entry (m : object) : object :=
  list_to_map
    [("role", prop m "role");
     ("content",
       if is_str (prop m "role") "user" then prop m "content"
       else or_else (or_else (prop m "narrative") (prop m "content")) (Str ""))].

Definition history_of (messages : list object) : list object :=
  map history_entry messages.

(** [{ role: 'assistant', content: result.narrative || '',
       elapsed: `${duration}s`, ...result }]; reading [result.narrative]
    raises a TypeError when the body of the reply is [null].  The
    earlier revisions of the page set no [elapsed] property:
    [duration = None]. *)
Definition assistant_message (duration : option string) (result : value)
  : option object :=
  match member result "narrative" with
  | None => None
  | Some narrative =>
      Some (list_to_map (own_props result) ∪
            list_to_map
              ([("role", Str "assistant");
                ("content", or_else narrative (Str ""))] ++
               match duration with
               | Some d => [("elapsed", Str (d +:+ "s"))]
               | None => []
               end))
  end.

(** [handleSend] up to its [await]: the guard, the three state updates
    and the request that goes out.  The history is built from the
    messages of the render the handler belongs to, before the user turn
    is appended. *)
Definition handleSend_begin (st : state) (text : option string)
  : state * option Api.request :=
  let messageText := message_text text (input st) in
  if negb (truthy (Str messageText)) || loading st then (st, None)
  else
    let userMsg := user_message messageText in
    ({| messages := messages st ++ [userMsg]; input := ""; loading := true |},
     Some (Api.sendChatMessage_request messageText (history_of (messages st)))).

(** The turn appended once the request has settled: the assistant turn
    of the [try] branch or the error turn of the [catch] branch. *)
Definition settled_turn (duration : option string) (r : Api.response) : object :=
  match Api.sendChatMessage_result r with
  | Api.Returned result =>
      match assistant_message duration result with
      | Some aiMsg => aiMsg
      | None => error_message
      end
  | Api.Thrown _ => error_message
  end.

(** [handleSend] from the [await] on. *)
Definition handleSend_settle (st : state) (duration : option string)
    (r : Api.response) : state :=
  {| messages := messages st ++ [settled_turn duration r];
     input := input st;
     loading := false |}.

(** One whole call of [handleSend] against a service that answers
    [server req]. *)
Definition handleSend (st : state) (text : option string)
    (duration : option string) (server : Api.request -> Api.response) : state :=
  match handleSend_begin st text with
  | (st', Some req) => handleSend_settle st' duration (server req)
  | (st', None) => st'
  end.

(** *** The page as React runs it

    A function component is run once per render, and the handlers a
    render puts on the page close over the state that render saw:
    [messages], [input] and [loading] are constants of the render.  A
    state setter changes the state the next render will see;
    [setMessages(prev => ...)] works on the latest state, not on the
    one the handler closed over.  The page is the state the handlers on
    screen closed over ([shown]), the state as updated since ([ui]), the
    requests this mount of the page has sent that have not settled
    ([in_flight]), and those of earlier mounts ([orphaned]): leaving the
    route unmounts the page without aborting its request, and a setter
    of an unmounted component does nothing. *)
Record page : Type := {
  shown : state;
  ui : state;
  in_flight : list Api.request;
  orphaned : list Api.request;
}.

Definition start : page :=
  {| shown := initial; ui := initial; in_flight := []; orphaned := [] |}.

(** [handleSend] up to its [await], called through the handler of a
    render that saw [closure] while the state is [current]: the guard,
    the text and the history read the closure, the three setters act on
    the current state. *)
Definition handleSend_call (closure current : state) (text : option string)
  : state * option Api.request :=
  let messageText := message_text text (input closure) in
  if negb (truthy (Str messageText)) || loading closure then (current, None)
  else
    let userMsg := user_message messageText in
    ({| messages := messages current ++ [userMsg]; input := ""; loading := true |},
     Some (Api.sendChatMessage_request messageText (history_of (messages closure)))).

Inductive event : Type :=
| Call (text : option string)
| Render
| Settle (n : nat) (duration : option string) (r : Api.response)
| Typing (s : string)
| Remount
| Forget (n : nat).

(** The list without its [n]-th element. *)
Definition without {A : Type} (n : nat) (l : list A) : list A :=
  firstn n l ++ skipn (S n) l.

(** What an event makes of the page.  [Call]: a click or a key press
    reaches [handleSend] of the render on screen.  [Render]: React
    renders the page anew.  [Settle n]: the [n]-th request in flight
    settles and the rest of its [handleSend] runs.  [Typing]: [onChange]
    of the input field, which the render disables while it saw
    [loading].  [Remount]: the route changes away and back.
    [Forget n]: a request of an earlier mount settles. *)
Definition step (p : page) (e : event) : page :=
  match e with
  | Call text =>
      let '(st, req) := handleSend_call (shown p) (ui p) text in
      {| shown := shown p; ui := st;
         in_flight := in_flight p ++ option_list req; orphaned := orphaned p |}
  | Render =>
      {| shown := ui p; ui := ui p;
         in_flight := in_flight p; orphaned := orphaned p |}
  | Settle n duration r =>
      match nth_error (in_flight p) n with
      | Some _ =>
          {| shown := shown p; ui := handleSend_settle (ui p) duration r;
             in_flight := without n (in_flight p); orphaned := orphaned p |}
      | None => p
      end
  | Typing s =>
      if loading (shown p) then p
      else {| shown := shown p;
              ui := {| messages := messages (ui p); input := s;
                       loading := loading (ui p) |};
              in_flight := in_flight p; orphaned := orphaned p |}
  | Remount =>
      {| shown := initial; ui := initial;
         in_flight := []; orphaned := orphaned p ++ in_flight p |}
  | Forget n =>
      {| shown := shown p; ui := ui p;
         in_flight := in_flight p; orphaned := without n (orphaned p) |}
  end.

Definition run (p : page) (events : list event) : page :=
  fold_left step events p.

(** Every chat request that is under way. *)
Definition requests (p : page) : list Api.request := orphaned p ++ in_flight p.

(** The page is rendered between any two calls of [handleSend] and is
    not remounted; [called] says whether [handleSend] has been called
    since the last render. *)
Fixpoint paced (called : bool) (events : list event) : bool :=
  match events with
  | [] => true
  | Call _ :: rest => negb called && paced true rest
  | Render :: rest => paced false rest
  | Remount :: _ => false
  | _ :: rest => paced called rest
  end.

(** The transcript of a page that has gone through [done] exchanges:
    each is the user turn and the turn appended when its request
    settled. *)
Definition exchange : Type := (string * (option string * Api.response))%type.

Definition turns_of (e : exchange) : list object :=
  [user_message (fst e); settled_turn (fst (snd e)) (snd (snd e))].

Definition transcript_of (done : list exchange) : list object :=
  flat_map turns_of done.

(** The invariant of a page that is rendered between two calls and not
    remounted.  It is idle, its transcript a sequence of completed
    exchanges which the handlers on screen have seen unless a call has
    been made since the render; or it waits for the one request under
    way, which carries the completed exchanges as its history. *)
Definition settled (called : bool) (p : page) (done : list exchange) : Prop :=
  in_flight p = [] /\ loading (ui p) = false /\
  messages (ui p) = transcript_of done /\
  (called = false -> loading (shown p) = false -> messages (shown p) = messages (ui p)).

Definition waiting (called : bool) (p : page) (done : list exchange) (t : string)
  : Prop :=
  in_flight p = [Api.sendChatMessage_request t (history_of (transcript_of done))] /\
  loading (ui p) = true /\ t <> "" /\
  messages (ui p) = transcript_of done ++ [user_message t] /\
  (called = true \/ loading (shown p) = true).

Fixpoint called_after (called : bool) (events : list event) : bool :=
  match events with
  | [] => called
  | Call _ :: rest => called_after true rest
  | Render :: rest => called_after false rest
  | _ :: rest => called_after called rest
  end.

(** *** Rendering one turn: [ChatMessage]

    What the component returns is kept as the list of its children; a
    child component that renders something is a node carrying its
    props. *)
Inductive node : Type :=
| Text (v : value)
| Thinking (v : value)
| SqlSection (sql : value) (expanded : bool)
| BigNumber (row : value)
| Table (data : value)
| Chart (type : value) (config : value) (data : value)
| Narrative (text : value)
| ErrorBanner (v : value)
| ElapsedTime (v : value)
| UserContent (v : value).

(** What React puts on the page for the falsy value an [&&] chain stops
    at: a number is printed, everything else renders nothing. *)
Definition leftover (v : value) : list node :=
  match v with
  | Num _ => [Text v]
  | _ => []
  end.

(** [v && children] *)
Definition when (v : value) (children : list node) : list node :=
  if truthy v then children else leftover v.

(** [if (!data || data.length === 0) return null] *)
Definition ResultTable (data : value) : list node :=
  if negb (truthy data) || is_zero_num (length_of data) then []
  else [Table data].

(** [if (!data || data.length === 0 || !config) return null] *)
Definition ResultChart (data config type : value) : list node :=
  if negb (truthy data) || is_zero_num (length_of data) || negb (truthy config)
  then []
  else [Chart type config data].

(** [if (!text) return null] *)
Definition RichText (text : value) : list node :=
  if negb (truthy text) then [] else [Narrative text].

Definition is_chart (visualization : value) : bool :=
  is_str visualization "line_chart" || is_str visualization "bar_chart".

(** [ChatMessage] of the current page. *)
Definition ChatMessage (message : object) (sqlExpanded : bool) : list node :=
  let isUser := is_str (prop message "role") "user" in
  let assistant (children : list node) := if isUser then [] else children in
  assistant (when (prop message "thinking") [Thinking (prop message "thinking")])
  ++ assistant (when (prop message "sql") [SqlSection (prop message "sql") sqlExpanded])
  ++ assistant
       (if is_str (prop message "visualization") "number"
        then when (first_item (prop message "results"))
               [BigNumber (first_item (prop message "results"))]
        else [])
  ++ assistant
       (when (prop message "results")
          (if is_str (prop message "visualization") "table"
           then ResultTable (prop message "results") else []))
  ++ assistant
       (when (prop message "results")
          (if is_chart (prop message "visualization")
           then ResultChart (prop message "results") (prop message "chart_config")
                  (prop message "visualization")
           else []))
  ++ assistant (when (prop message "narrative") (RichText (prop message "narrative")))
  ++ assistant (when (prop message "error") [ErrorBanner (prop message "error")])
  ++ assistant (when (prop message "elapsed") [ElapsedTime (prop message "elapsed")])
  ++ (if isUser then [UserContent (prop message "content")] else []).


(** *** Turns whose render completes

    [ChatMessage] and [ChatMessage_first] give the children of a render
    that runs to its end.  A render can also throw, and then React
    shows nothing of the page: an object handed to React as a child
    ([thinking], [sql], [error], [elapsed], [content], a cell of a
    row), a narrative that is truthy and no string (it has no [split]),
    a first row that is [null] under [Object.keys], or rows that are no
    array under [data.map].  The turns below are out of reach of all of
    these: their texts are strings or missing, their rows are missing or
    an array of objects with plain cells, and their chart configuration
    is missing or an object with plain values.  The chart itself is
    drawn by the chart library from the rows it is handed. *)
Definition missing (v : value) : bool :=
  match v with
  | Undefined | Null => true
  | _ => false
  end.

(** A value React prints or skips: no array and no object. *)
Definition plain (v : value) : bool :=
  match v with
  | Arr _ | Obj _ => false
  | _ => true
  end.

Definition text_or_missing (v : value) : bool :=
  match v with
  | Undefined | Null | Str _ => true
  | _ => false
  end.

Definition plain_fields (v : value) : bool :=
  match v with
  | Obj fields => forallb (fun kv => plain (snd kv)) fields
  | _ => false
  end.

Definition rows_or_missing (v : value) : bool :=
  match v with
  | Undefined | Null => true
  | Arr rows => forallb plain_fields rows
  | _ => false
  end.

Definition well_formed (message : object) : bool :=
  forallb (fun k => text_or_missing (prop message k))
          ["thinking"; "sql"; "narrative"; "error"; "elapsed"; "content"]
  && rows_or_missing (prop message "results")
  && (missing (prop message "chart_config")
      || plain_fields (prop message "chart_config")).

(** The assistant turns of a transcript. *)
Definition assistant_turns (msgs : list object) : list object :=
  List.filter (fun m => is_str (prop m "role") "assistant") msgs.

(** No explicit text: the handler was called without argument or with
    the empty string. *)
Definition no_text (text : option string) : Prop :=
  text = None \/ text = Some "".

Definition all_white_space (s : string) : Prop :=
  List.Forall (fun c => is_white_space c = true) (list_ascii_of_string s).

(** A reply of the service and the transcript after one exchange. *)
Definition answered : Api.response :=
  Api.Reply true
    (Some (Obj [("sql", Str "SELECT COUNT(*) AS n FROM claims LIMIT 1000");
                ("results", Arr [Obj [("n", Num (Num.Fin 7))]]);
                ("visualization", Str "number");
                ("narrative", Str "There are 7 rows.")])).

Definition after_one_exchange : state :=
  handleSend initial (Some "How many rows?") (Some "0.3") (fun _ => answered).

(** A first question and its answer, then a second question still
    under way. *)
Definition second_question : list event :=
  [Call (Some "How many rows?"); Render; Settle 0 (Some "0.3") answered;
   Render; Call (Some "And in 2022?")].

(** Two calls through the handlers of one render. *)
Definition double_call : list event :=
  [Call (Some "How many rows?"); Call (Some "How many rows?")].

(** A question, a change of route and back, and another question. *)
Definition question_after_remount : list event :=
  [Call (Some "How many rows?"); Render; Remount; Call (Some "And in 2022?")].

(** A transcript that already holds a failed exchange, with a new
    question typed in. *)
Definition retry_state : state :=
  {| messages := [user_message "hello"; error_message];
     input := " total spending? ";
     loading := false |}.

(** The turn the page appends for a reply without rows. *)
Definition empty_reply : Api.response :=
  Api.Reply true
    (Some (Obj [("sql", Str "SELECT * FROM claims WHERE paid < 0 LIMIT 1000");
                ("results", Arr []);
                ("visualization", Str "table");
                ("narrative", Str "No claim matches.")])).

Definition empty_turn : object := settled_turn (Some "0.2") empty_reply.

Definition shows_rows (n : node) : bool :=
  match n with
  | BigNumber _ | Table _ | Chart _ _ _ => true
  | _ => false
  end.

Definition shows_error (n : node) : bool :=
  match n with
  | ErrorBanner _ => true
  | _ => false
  end.

End Chat.

(** ** The analytics back end

    The Python service behind [/api] lies outside the front end; the
    three modules below are written from the specification. *)

Module QueryGuard.

(** *** Reading a candidate *)

(** Modelled from the spec: the tokens of a candidate.  Section 9 asks
    for the guard as "a proper parser/validator rather than pattern
    matching", so the rules are stated over tokens: words (names,
    keywords and numbers, as written), quoted texts (a string literal or
    a quoted name, without its quotes), runs of operator characters, the
    parentheses, the comma and the statement terminator. *)
Inductive token : Type :=
| Word (w : string)
| Quoted (q : ascii) (body : string)
| Op (o : string)
| LParen
| RParen
| Comma
| Semi.

Definition code (c : ascii) : nat := nat_of_ascii c.

Definition upper (c : ascii) : ascii :=
  if ((97 <=? code c) && (code c <=? 122))%nat then ascii_of_nat (code c - 32) else c.

Fixpoint upper_case (s : string) : string :=
  match s with
  | EmptyString => EmptyString
  | String c rest => String (upper c) (upper_case rest)
  end.

Fixpoint all_chars (p : ascii -> bool) (s : string) : bool :=
  match s with
  | EmptyString => true
  | String c rest => p c && all_chars p rest
  end.

(** [s] begins with [t] *)
Fixpoint starts (t s : string) : bool :=
  match t, s with
  | EmptyString, _ => true
  | String a t', String b s' => Ascii.eqb a b && starts t' s'
  | String _ _, EmptyString => false
  end.

(** [s] contains [t] *)
Fixpoint contains (t s : string) : bool :=
  starts t s ||
  match s with
  | EmptyString => false
  | String _ rest => contains t rest
  end.

Definition dquote : ascii := ascii_of_nat 34.

Definition is_space (c : ascii) : bool :=
  ((code c =? 32) || (code c =? 9) || (code c =? 10) || (code c =? 13))%nat.

Definition is_newline (c : ascii) : bool := (code c =? 10)%nat.

Definition is_digit (c : ascii) : bool := ((48 <=? code c) && (code c <=? 57))%nat.

Definition is_letter (c : ascii) : bool :=
  (((65 <=? code c) && (code c <=? 90)) || ((97 <=? code c) && (code c <=? 122)))%nat.

Definition is_word_char (c : ascii) : bool :=
  is_digit c || is_letter c || Ascii.eqb c "_" || Ascii.eqb c ".".

Definition is_numeric (c : ascii) : bool := is_digit c || Ascii.eqb c ".".

Definition is_quote (c : ascii) : bool := Ascii.eqb c "'" || Ascii.eqb c dquote.

Definition op_chars : string := "*=<>!|+-/%&^~:?@#[]{}".

Fixpoint char_in (c : ascii) (s : string) : bool :=
  match s with
  | EmptyString => false
  | String d rest => Ascii.eqb c d || char_in c rest
  end.

Definition is_op_char (c : ascii) : bool := char_in c op_chars.

(** A word that begins like a number is a plain decimal numeral. *)
Definition word_ok (w : string) : bool :=
  match w with
  | EmptyString => false
  | String c _ =>
      all_chars is_word_char w && (if is_numeric c then all_chars is_numeric w else true)
  end.

(** A run of operator characters holds no comment opener. *)
Definition op_ok (o : string) : bool :=
  negb (String.eqb o "") && all_chars is_op_char o
  && negb (contains "--" o) && negb (contains "/*" o).

(** A quoted text holds no backslash, which some dialects read as an
    escape and others do not. *)
Definition quoted_ok (body : string) : bool :=
  all_chars (fun c => negb (Ascii.eqb c "\")) body.


Inductive mode : Type :=
| Normal
| InWord (acc : string)
| InOp (acc : string)
| InQuote (q : ascii) (acc : string)
| QuoteSeen (q : ascii) (acc : string)
| LineComment
| BlockComment
| BlockStar.

Definition snoc (s : string) (c : ascii) : string := s +:+ String c EmptyString.

Definition emit_word (acc : string) : option token :=
  if word_ok acc then Some (Word acc) else None.

Definition emit_op (acc : string) : option token :=
  if op_ok acc then Some (Op acc) else None.

Definition emit_quoted (q : ascii) (acc : string) : option token :=
  if quoted_ok acc then Some (Quoted q acc) else None.

Definition normal (c : ascii) : option (mode * list token) :=
  if is_space c then Some (Normal, [])
  else if is_word_char c then Some (InWord (String c EmptyString), [])
  else if is_quote c then Some (InQuote c EmptyString, [])
  else if Ascii.eqb c "(" then Some (Normal, [LParen])
  else if Ascii.eqb c ")" then Some (Normal, [RParen])
  else if Ascii.eqb c "," then Some (Normal, [Comma])
  else if Ascii.eqb c ";" then Some (Normal, [Semi])
  else if is_op_char c then Some (InOp (String c EmptyString), [])
  else None.

(** The token that ends at [c], then [c] itself. *)
Definition after (t : option token) (c : ascii) : option (mode * list token) :=
  match t, normal c with
  | Some t, Some (m, out) => Some (m, t :: out)
  | _, _ => None
  end.

(** Modelled from the spec: one character of the lexical reading.  Two
    dashes open a comment to the end of the line, [/*] one that ends at
    the next [*/]; a quote character inside a quoted text is written
    twice; a character that belongs to no token makes the candidate
    unreadable. *)
Definition step (m : mode) (c : ascii) : option (mode * list token) :=
  match m with
  | Normal => normal c
  | InWord acc =>
      if is_word_char c then Some (InWord (snoc acc c), [])
      else after (emit_word acc) c
  | InOp acc =>
      if is_op_char c then
        if String.eqb acc "-" && Ascii.eqb c "-" then Some (LineComment, [])
        else if String.eqb acc "/" && Ascii.eqb c "*" then Some (BlockComment, [])
        else Some (InOp (snoc acc c), [])
      else after (emit_op acc) c
  | InQuote q acc =>
      if Ascii.eqb c q then Some (QuoteSeen q acc, [])
      else Some (InQuote q (snoc acc c), [])
  | QuoteSeen q acc =>
      if Ascii.eqb c q then Some (InQuote q (snoc acc q), [])
      else after (emit_quoted q acc) c
  | LineComment =>
      if is_newline c then Some (Normal, []) else Some (LineComment, [])
  | BlockComment =>
      if Ascii.eqb c "*" then Some (BlockStar, []) else Some (BlockComment, [])
  | BlockStar =>
      if Ascii.eqb c "/" then Some (Normal, [])
      else if Ascii.eqb c "*" then Some (BlockStar, [])
      else Some (BlockComment, [])
  end.

(** The end of the candidate: an open quoted text or block comment is
    unreadable. *)
Definition finish (m : mode) : option (list token) :=
  match m with
  | Normal | LineComment => Some []
  | InWord acc => (fun t => [t]) <$> emit_word acc
  | InOp acc => (fun t => [t]) <$> emit_op acc
  | QuoteSeen q acc => (fun t => [t]) <$> emit_quoted q acc
  | InQuote _ _ | BlockComment | BlockStar => None
  end.

Fixpoint run (m : mode) (s : string) : option (list token) :=
  match s with
  | EmptyString => finish m
  | String c rest =>
      match step m c with
      | Some (m', out) => app out <$> run m' rest
      | None => None
      end
  end.

Definition lex (candidate : string) : option (list token) := run Normal candidate.

(** *** Writing tokens out *)

Fixpoint escape (q : ascii) (body : string) : string :=
  match body with
  | EmptyString => EmptyString
  | String c rest =>
      if Ascii.eqb c q then String q (String q (escape q rest))
      else String c (escape q rest)
  end.

Definition text (t : token) : string :=
  match t with
  | Word w => w
  | Quoted q body => String q (escape q body +:+ String q EmptyString)
  | Op o => o
  | LParen => "("
  | RParen => ")"
  | Comma => ","
  | Semi => ";"
  end.

(** The tokens with one space between them: the text the guard hands
    on.  It holds no comment and no terminator of its own. *)
Fixpoint print (ts : list token) : string :=
  match ts with
  | [] => EmptyString
  | t :: rest =>
      match rest with
      | [] => text t
      | _ :: _ => text t +:+ " " +:+ print rest
      end
  end.

(** *** Statements *)

Definition is_semi (t : token) : bool :=
  match t with Semi => true | _ => false end.

Definition close (cur : list token) : list (list token) :=
  match cur with [] => [] | _ :: _ => [cur] end.

(** Modelled from the spec: "single statement only (reject multiple
    statements separated by a terminator)".  The statements are the runs
    of tokens between terminators that are not empty. *)
Fixpoint statements_from (cur : list token) (ts : list token) : list (list token) :=
  match ts with
  | [] => close cur
  | t :: rest =>
      if is_semi t then close cur ++ statements_from [] rest
      else statements_from (cur ++ [t]) rest
  end.

Definition statements (ts : list token) : list (list token) := statements_from [] ts.

(** *** Keywords *)

Definition keyword (k : string) (t : token) : bool :=
  match t with
  | Word w => String.eqb (upper_case w) k
  | _ => false
  end.

Definition one_of (ks : list string) (t : token) : bool :=
  existsb (fun k => keyword k t) ks.

(** Modelled from the spec: the "data-definition or data-modification
    verbs" a pure read may not contain; INTO is among them because it
    is what turns a SELECT into a write. *)
Definition write_verbs : list string :=
  ["INSERT"; "UPDATE"; "DELETE"; "MERGE"; "REPLACE"; "UPSERT"; "TRUNCATE"; "COPY";
   "CREATE"; "ALTER"; "DROP"; "RENAME"; "GRANT"; "REVOKE"; "ATTACH"; "DETACH";
   "INTO"].

(** Words that bring in a second query, and with it tables of its own. *)
Definition query_words : list string :=
  ["SELECT"; "UNION"; "INTERSECT"; "EXCEPT"; "TABLE"].

(** A token that may stand inside the one statement. *)
Definition free (t : token) : bool :=
  negb (one_of write_verbs t) && negb (one_of query_words t) && negb (is_semi t).

Definition is_comma (t : token) : bool :=
  match t with Comma => true | _ => false end.

(** What a table name follows in a FROM clause. *)
Definition separator (t : token) : bool :=
  keyword "FROM" t || keyword "JOIN" t || is_comma t.

(** What ends a FROM clause. *)
Definition closer (t : token) : bool :=
  one_of ["WHERE"; "GROUP"; "HAVING"; "WINDOW"; "QUALIFY"; "ORDER"; "LIMIT";
          "OFFSET"; "FETCH"; "FOR"] t.

Definition never (t : token) : bool := false.

(** *** Nesting *)

(** [level p d ts]: read from depth [d], the parentheses of [ts] close
    back to depth 0 without going below it, and no token outside all
    parentheses satisfies [p]. *)
Fixpoint level (p : token -> bool) (d : nat) (ts : list token) : bool :=
  match ts with
  | [] => (d =? 0)%nat
  | t :: rest =>
      if (d =? 0)%nat && p t then false
      else
        match t with
        | LParen => level p (S d) rest
        | RParen => match d with O => false | S d' => level p d' rest end
        | _ => level p d rest
        end
  end.

(** The tokens before the first one outside all parentheses that
    satisfies [p], and the tokens from it on. *)
Fixpoint split0 (p : token -> bool) (d : nat) (ts : list token)
  : option (list token * list token) :=
  match ts with
  | [] => if (d =? 0)%nat then Some ([], []) else None
  | t :: rest =>
      if (d =? 0)%nat && p t then Some ([], ts)
      else
        match t with
        | LParen => (fun '(a, r) => (t :: a, r)) <$> split0 p (S d) rest
        | RParen =>
            match d with
            | O => None
            | S d' => (fun '(a, r) => (t :: a, r)) <$> split0 p d' rest
            end
        | _ => (fun '(a, r) => (t :: a, r)) <$> split0 p d rest
        end
  end.

(** Some token outside all parentheses satisfies [p]. *)
Fixpoint at_depth0 (p : token -> bool) (d : nat) (ts : list token) : bool :=
  match ts with
  | [] => false
  | t :: rest =>
      ((d =? 0)%nat && p t) ||
      match t with
      | LParen => at_depth0 p (S d) rest
      | RParen => at_depth0 p (Nat.pred d) rest
      | _ => at_depth0 p d rest
      end
  end.

(** No parenthesis opens on FROM: a parenthesis that does is a query of
    its own in dialects that let a query begin with its FROM clause. *)
Fixpoint no_paren_from (ts : list token) : bool :=
  match ts with
  | [] => true
  | t :: rest =>
      match t, rest with
      | LParen, u :: _ => negb (keyword "FROM" u) && no_paren_from rest
      | _, _ => no_paren_from rest
      end
  end.

(** *** Queries *)

(** One table of a FROM clause: what it follows (FROM, JOIN or a
    comma), its name as written, and the tokens up to the next table (an
    alias, the words of the next join, an ON condition). *)
Record source : Type := {
  sep : token;
  name : string;
  extra : list token;
}.

(** Modelled from the spec: a read over named tables, the one form of
    statement the guard lets through:
    [SELECT selection FROM name extra { (, | JOIN) name extra } tail]. *)
Record query : Type := {
  head : token;
  selection : list token;
  sources : list source;
  tail : list token;
}.

Definition render_source (s : source) : list token :=
  sep s :: Word (name s) :: extra s.

Definition render (q : query) : list token :=
  head q :: selection q ++ flat_map render_source (sources q) ++ tail q.

(** The tables a query refers to. *)
Definition tables (q : query) : list string := map name (sources q).

Definition not_join (t : token) : bool := negb (keyword "JOIN" t).

Definition inner (ts : list token) : bool := forallb free ts && forallb not_join ts.

Definition source_ok (s : source) : bool :=
  separator (sep s)
  && free (Word (name s)) && negb (closer (Word (name s)))
  && level (fun t => separator t || closer t) 0 (extra s) && inner (extra s).

Definition tail_ok (ts : list token) : bool :=
  match ts with
  | [] => true
  | t :: _ => closer t
  end && level never 0 ts && inner ts.

(** Modelled from the spec: "a well-formed read-only ... query".  It
    begins with SELECT; nothing in it is a write verb, a further SELECT,
    a set operation or a terminator; its parentheses match; the FROM
    clause is the first FROM outside parentheses, and in it every table
    is a plain name after FROM, JOIN or a comma, never a parenthesis;
    JOIN occurs nowhere else. *)
Definition well_formed (q : query) : bool :=
  keyword "SELECT" (head q)
  && level (keyword "FROM") 0 (selection q) && inner (selection q)
  && match sources q with
     | [] => false
     | s :: _ => keyword "FROM" (sep s)
     end
  && forallb source_ok (sources q)
  && tail_ok (tail q)
  && no_paren_from (render q).

(** Reading the tables of a FROM clause, from its FROM on. *)
Fixpoint sources_of (fuel : nat) (ts : list token) : option (list source) :=
  match fuel with
  | O => None
  | S fuel' =>
      match ts with
      | [] => Some []
      | s :: Word w :: rest =>
          if separator s then
            match split0 (fun t => separator t || closer t) 0 rest with
            | Some (e, more) =>
                cons {| sep := s; name := w; extra := e |} <$> sources_of fuel' more
            | None => None
            end
          else None
      | _ => None
      end
  end.

(** Modelled from the spec: the structural check of the guard, a parse
    of the one statement into a query: the selection ends at the first
    FROM outside parentheses, the FROM clause at the first word that
    closes it. *)
Definition parse (st : list token) : option query :=
  match st with
  | [] => None
  | h :: body =>
      '(sel, rest) ← split0 (keyword "FROM") 0 body;
      '(region, tl) ← split0 closer 0 rest;
      srcs ← sources_of (S (length region)) region;
      let q := {| head := h; selection := sel; sources := srcs; tail := tl |} in
      if well_formed q then Some q else None
  end.

(** *** The row limit *)

(** Modelled from the spec: the default cap, "e.g., 1000 rows". *)
Definition DEFAULT_LIMIT : string := "1000".

(** A query names a row limit when LIMIT stands in its tail outside all
    parentheses. *)
Definition has_limit (q : query) : bool := at_depth0 (keyword "LIMIT") 0 (tail q).

(** Modelled from the spec: "if absent, the guard appends a default
    cap". *)
Definition cap (q : query) : query :=
  if has_limit q then q
  else {| head := head q; selection := selection q; sources := sources q;
          tail := tail q ++ [Word "LIMIT"; Word DEFAULT_LIMIT] |}.

Inductive rejection : Type :=
| Unreadable
| NoStatement
| MultipleStatements
| WriteVerb (verb : string)
| NotAQuery
| TableNotAllowed (table : string).

Inductive verdict : Type :=
| Accepted (query : string)
| Rejected (reason : rejection).

Definition verb_of (t : token) : string :=
  match t with Word w => upper_case w | _ => EmptyString end.

Section Whitelist.

(** The exposed schema: the fact table and the lookup tables, in upper
    case.  The specification fixes the list without giving the names. *)
Variable whitelist : list string.

Definition allowed (t : string) : bool :=
  existsb (String.eqb (upper_case t)) whitelist.

(** Modelled from the spec: the Query Guard of section 4.3, the checks
    in the order the section lists them, ending in the limit
    injection.  Running the accepted query under a timeout is the
    executor's part. *)
Definition guard (candidate : string) : verdict :=
  match lex candidate with
  | None => Rejected Unreadable
  | Some ts =>
      match statements ts with
      | [] => Rejected NoStatement
      | [st] =>
          match List.find (one_of write_verbs) st with
          | Some t => Rejected (WriteVerb (verb_of t))
          | None =>
              match parse st with
              | None => Rejected NotAQuery
              | Some q =>
                  match List.find (fun t => negb (allowed t)) (tables q) with
                  | Some t => Rejected (TableNotAllowed (upper_case t))
                  | None => Accepted (print (render (cap q)))
                  end
              end
          end
      | _ :: _ :: _ => Rejected MultipleStatements
      end
  end.

End Whitelist.

(** *** Notions the properties are stated with *)




(** [b] is empty or begins with a token that satisfies [p]. *)
Definition begins (p : token -> bool) (b : list token) : Prop :=
  match b with
  | [] => True
  | t :: _ => p t = true
  end.



(** A schema to run the guard with. *)
Definition schema : list string := ["CLAIMS"; "PROVIDERS"; "HCPCS_CODES"].



End QueryGuard.

Module Anomaly.

(** Modelled from the spec: a member of a code population, the totals
    of one provider for one procedure code. *)
Record ProviderTotal : Type := {
  billing_npi : string;
  total_paid : Q;
  total_claims : Q;
}.

(** Modelled from the spec: the AnomalyRecord of section 3. *)
Record AnomalyRecord : Type := {
  provider : ProviderTotal;
  code_avg_paid : Q;
  code_std_paid : Q;
  code_avg_claims : Q;
  code_std_claims : Q;
  z_score_paid : Num.num;
  z_score_claims : Num.num;
}.

Definition sum (xs : list Q) : Q := fold_right Qplus 0%Q xs.

Definition count (xs : list Q) : Q := inject_Z (Z.of_nat (length xs)).

(** Modelled from the spec: the population mean. *)
Definition mean (xs : list Q) : Q := (sum xs / count xs)%Q.

(** Modelled from the spec: the sample variance behind σ, with [n - 1]
    in the denominator. *)
Definition sample_variance (xs : list Q) : Q :=
  (sum (map (fun x => (x - mean xs) * (x - mean xs)) xs) / (count xs - 1))%Q.

(** All providers identical. *)
Definition all_equal (xs : list Q) : Prop :=
  forall x y, In x xs -> In y xs -> (x == y)%Q.

Section Sqrt.

(** The square root of the numeric library. *)
Variable sqrt : Q -> Q.

(** Modelled from the spec: the sample standard deviation of a code
    population; section 4.2 counts a population of size 1 among the
    cases with "σ = 0". *)
Definition sample_std (xs : list Q) : Q :=
  if (length xs <=? 1)%nat then 0%Q else sqrt (sample_variance xs).

(** [z = (provider_total − μ) / σ] taken as written. *)
Definition raw_z (xs : list Q) (x : Q) : Num.num :=
  Num.div (Num.Fin (x - mean xs)) (Num.Fin (sample_std xs)).

(** Modelled from the spec: the z-score with the policy for σ = 0 of
    section 4.2, "that provider's z-score is defined as 0". *)
Definition z_score (xs : list Q) (x : Q) : Num.num :=
  if Num.is_zero (sample_std xs) then Num.Fin 0 else raw_z xs x.

(** The cases section 4.2 files under "σ = 0": a population of size 1,
    a population whose providers are all identical, and any other
    population whose deviation comes out as zero. *)
Definition zero_sigma (xs : list Q) : Prop :=
  length xs = 1%nat \/ all_equal xs \/ (sample_std xs == 0)%Q.

(** Modelled from the spec: step 2 of [anomalies], the records of one
    code population. *)
Definition score_population (pop : list ProviderTotal) : list AnomalyRecord :=
  let paid := map total_paid pop in
  let claims := map total_claims pop in
  map (fun p =>
         {| provider := p;
            code_avg_paid := mean paid;
            code_std_paid := sample_std paid;
            code_avg_claims := mean claims;
            code_std_claims := sample_std claims;
            z_score_paid := z_score paid (total_paid p);
            z_score_claims := z_score claims (total_claims p) |})
      pop.

End Sqrt.

(** Three providers that billed the same amount for a code. *)
Definition flat_population : list ProviderTotal :=
  [{| billing_npi := "1003000126"; total_paid := 10; total_claims := 2 |};
   {| billing_npi := "1003000134"; total_paid := 10; total_claims := 5 |};
   {| billing_npi := "1003000142"; total_paid := 10; total_claims := 9 |}].

Definition finite (n : Num.num) : bool :=
  match n with
  | Num.Fin _ => true
  | _ => false
  end.

(** A square root to run the definitions with: the integer square root
    of the value scaled by 10^12, six decimals. *)
Definition sqrt6 (q : Q) : Q :=
  (Z.sqrt (Qfloor (q * inject_Z (10 ^ 12))) # 1000000)%Q.

End Anomaly.

Module StringOrder <: TotalLeBool.
Definition t : Type := string.
Definition leb : t -> t -> bool := String.leb.
Definition leb_total : forall x y, leb x y = true \/ leb y x = true :=
  String.leb_total.
End StringOrder.

Module MonthSort := Sort StringOrder.

Module Aggregation.

(** Modelled from the spec: the ClaimRecord of section 3, one row of
    the fact table.  The paid amount is kept in cents, the fixed
    precision section 4.1 asks for. *)
Record ClaimRecord : Type := {
  billing_npi : string;
  servicing_npi : string;
  hcpcs_code : string;
  claim_month : string;
  beneficiaries : Z;
  claims : Z;
  paid : Z;
}.

Module Overview.
(** Modelled from the spec: the result of [overview()]. *)
Record t : Type := {
  total_paid : Z;
  total_claims : Z;
  total_providers : nat;
  total_codes : nat;
  total_rows : nat;
  min_month : option string;
  max_month : option string;
}.
End Overview.

Module MonthlyTrend.
(** Modelled from the spec: the MonthlyTrend of section 3. *)
Record t : Type := {
  claim_month : string;
  total_paid : Z;
  total_claims : Z;
  active_providers : nat;
  total_beneficiaries : Z;
}.
End MonthlyTrend.

Definition total (f : ClaimRecord -> Z) (rows : list ClaimRecord) : Z :=
  fold_right Z.add 0%Z (map f rows).

Definition distinct (xs : list string) : nat := length (remove_dups xs).

(** Modelled from the spec: the span of the dataset, the months that
    occur in the table, each once, ascending. *)
Definition months (db : list ClaimRecord) : list string :=
  MonthSort.sort (remove_dups (map claim_month db)).

(** Modelled from the spec: [overview()] of section 4.1. *)
Definition overview (db : list ClaimRecord) : Overview.t :=
  {| Overview.total_paid := total paid db;
     Overview.total_claims := total claims db;
     Overview.total_providers := distinct (map billing_npi db);
     Overview.total_codes := distinct (map hcpcs_code db);
     Overview.total_rows := length db;
     Overview.min_month := head (months db);
     Overview.max_month := last (months db) |}.

Definition in_month (m : string) (db : list ClaimRecord) : list ClaimRecord :=
  List.filter (fun r => String.eqb (claim_month r) m) db.

Definition trend_point (db : list ClaimRecord) (m : string) : MonthlyTrend.t :=
  let rows := in_month m db in
  {| MonthlyTrend.claim_month := m;
     MonthlyTrend.total_paid := total paid rows;
     MonthlyTrend.total_claims := total claims rows;
     MonthlyTrend.active_providers := distinct (map billing_npi rows);
     MonthlyTrend.total_beneficiaries := total beneficiaries rows |}.

Definition within (start stop : option string) (m : string) : bool :=
  match start with Some s => String.leb s m | None => true end
  && match stop with Some e => String.leb m e | None => true end.

(** Modelled from the spec: [trends(start?, end?)] of section 4.1, one
    point per calendar month within the bounds, ascending; a month
    without a row in the table is left out. *)
Definition trends (start stop : option string) (db : list ClaimRecord)
  : list MonthlyTrend.t :=
  map (trend_point db) (List.filter (within start stop) (months db)).

Definition sum_paid (series : list MonthlyTrend.t) : Z :=
  fold_right Z.add 0%Z (map MonthlyTrend.total_paid series).

End Aggregation.

(** ** More of the language: [Math], comparisons and string methods *)

Module Lib.

(** [Math.abs(a)] *)
Definition abs (a : Num.num) : Num.num :=
  match a with
  | Num.Fin q => Num.Fin (Qabs q)
  | Num.NaN => Num.NaN
  | _ => Num.PosInf
  end.

(** [a > b] *)
Definition gt (a b : Num.num) : bool :=
  match a, b with
  | Num.NaN, _ | _, Num.NaN => false
  | Num.Fin x, Num.Fin y => negb (Qle_bool x y)
  | Num.PosInf, Num.PosInf => false
  | Num.PosInf, _ => true
  | Num.Fin _, Num.NegInf => true
  | _, _ => false
  end.

(** [Math.min(a, b)] *)
Definition min (a b : Num.num) : Num.num :=
  match a, b with
  | Num.NaN, _ | _, Num.NaN => Num.NaN
  | _, _ => if gt a b then b else a
  end.

(** [c.toLowerCase()] and [c.toUpperCase()] on one code unit below 256;
    the second is only ever applied to a letter, digit or underscore. *)
Definition lower (c : ascii) : ascii :=
  let n := nat_of_ascii c in
  if (((65 <=? n) && (n <=? 90)) || ((192 <=? n) && (n <=? 214))
      || ((216 <=? n) && (n <=? 222)))%nat
  then ascii_of_nat (n + 32) else c.

Definition upper (c : ascii) : ascii :=
  let n := nat_of_ascii c in
  if ((97 <=? n) && (n <=? 122))%nat then ascii_of_nat (n - 32) else c.

Fixpoint map_chars (f : ascii -> ascii) (s : string) : string :=
  match s with
  | EmptyString => EmptyString
  | String c rest => String (f c) (map_chars f rest)
  end.

(** [s.toLowerCase()] on a string of code units below 256 (Latin-1),
    where every character is mapped by itself.  Outside that range the
    builtin looks at the neighbours of a character (a capital sigma at
    the end of a word becomes the final sigma) and can change the
    length; such strings are not values of this model. *)
Definition toLowerCase (s : string) : string := map_chars lower s.

(** [s.startsWith(t)] *)
Definition startsWith (s t : string) : bool := String.prefix t s.

(** [s.endsWith(t)] *)
Definition endsWith (s t : string) : bool :=
  String.prefix (String.rev t) (String.rev s).

(** [s.includes(t)] *)
Fixpoint includes (s t : string) : bool :=
  String.prefix t s ||
  match s with
  | EmptyString => false
  | String _ rest => includes rest t
  end.

(** [s.slice(n, -n)] *)
Definition slice_inner (n : nat) (s : string) : string :=
  substring n (String.length s - 2 * n) s.

(** [\w] *)
Definition is_word (c : ascii) : bool :=
  let n := nat_of_ascii c in
  (((48 <=? n) && (n <=? 57)) || ((65 <=? n) && (n <=? 90))
   || ((97 <=? n) && (n <=? 122)) || (n =? 95))%nat.

(** [\d] *)
Definition is_digit (c : ascii) : bool :=
  let n := nat_of_ascii c in ((48 <=? n) && (n <=? 57))%nat.

End Lib.

(** ** More of the request layer: [fetchTrends] *)

Module Requests.

Import Api.

(** [fetchTrends(start, end)]: an omitted bound is [None]. *)
Definition fetchTrends_request (start stop : option string) : request :=
  let params := [] in
  let params :=
    match start with
    | Some s => if JS.truthy (JS.Str s) then params_set "start" s params else params
    | None => params
    end in
  let params :=
    match stop with
    | Some e => if JS.truthy (JS.Str e) then params_set "end" e params else params
    | None => params
    end in
  {| method := "GET"; path := API_BASE +:+ "/trends"; query := params; body := None |}.

Definition fetchOverview_result (r : response) : outcome JS.value :=
  json_or_throw "Failed to fetch overview" r.

Definition fetchTrends_result (r : response) : outcome JS.value :=
  json_or_throw "Failed to fetch trends" r.

Definition fetchTopProviders_result (r : response) : outcome JS.value :=
  json_or_throw "Failed to fetch providers" r.

Definition fetchTopCodes_result (r : response) : outcome JS.value :=
  json_or_throw "Failed to fetch codes" r.

End Requests.

(** ** The anomalies page: [frontend/src/pages/Anomalies.jsx] *)

Module AnomaliesPage.

Import JS.

Inductive threat : Type := Critical | High | Elevated.

(** [ThreatLevel({ score })], by the badge it returns. *)
Definition ThreatLevel (score : Num.num) : threat :=
  let abs := Lib.abs score in
  if Lib.gt abs (Num.Fin 10) then Critical
  else if Lib.gt abs (Num.Fin 7) then High
  else Elevated.

(** [ZScoreBar({ score })]: the width of the fill, in percent, and its
    class. *)
Definition ZScoreBar_width (score : Num.num) : Num.num :=
  Lib.min (Num.mul (Num.div (Lib.abs score) (Num.Fin 15)) (Num.Fin 100))
          (Num.Fin 100).

Definition ZScoreBar_class (score : Num.num) : string :=
  if Lib.gt (Lib.abs score) (Num.Fin 10) then "z-high" else "z-medium".

(** The colour of the printed score: the first of the two branches of
    [Math.abs(a.z_score_paid) > 10 ? ... : ...]. *)
Definition score_is_hot (score : Num.num) : bool :=
  Lib.gt (Lib.abs score) (Num.Fin 10).

(** The cell "vs Avg Paid": the quotient with its multiplication sign,
    or a dash. *)
Inductive ratio : Type :=
| NoRatio
| Times (text : string).

(** The state of the page. *)
Record state : Type := {
  anomalies : value;
  loading : bool;
  minZ : Num.num;
  codeFilter : string;
  limit : Num.num;
}.

Section Builtins.

Variable Number_toString : Q -> string.

Definition vs_avg (total_paid code_avg_paid : Num.num) : ratio :=
  if Lib.gt code_avg_paid (Num.Fin 0)
  then Times (Api.toFixed Number_toString (Num.fdiv total_paid code_avg_paid) 0)
  else NoRatio.

(** [fetchAnomalies(limit, minZ, codeFilter || undefined)] *)
Definition loadData_request (st : state) : Api.request :=
  Api.fetchAnomalies_request Number_toString
    (Some (limit st)) (Some (minZ st))
    (if truthy (Str (codeFilter st)) then Some (codeFilter st) else None).

End Builtins.

Definition initial : state :=
  {| anomalies := Arr []; loading := true; minZ := Num.Fin 5;
     codeFilter := ""; limit := Num.Fin 50 |}.

(** [loadData] up to the request: [setLoading(true)]. *)
Definition loadData_begin (st : state) : state :=
  {| anomalies := anomalies st; loading := true; minZ := minZ st;
     codeFilter := codeFilter st; limit := limit st |}.

(** [.then(data => { setAnomalies(data); setLoading(false) })
     .catch(() => setLoading(false))] *)
Definition loadData_settle (st : state) (r : Api.response) : state :=
  match Api.fetchAnomalies_result r with
  | Api.Returned data =>
      {| anomalies := data; loading := false; minZ := minZ st;
         codeFilter := codeFilter st; limit := limit st |}
  | Api.Thrown _ =>
      {| anomalies := anomalies st; loading := false; minZ := minZ st;
         codeFilter := codeFilter st; limit := limit st |}
  end.

(** The page with a code typed into its filter. *)
Definition filtered_page : state :=
  {| anomalies := Arr []; loading := false; minZ := Num.Fin 5;
     codeFilter := "97153"; limit := Num.Fin 50 |}.

End AnomaliesPage.

(** ** More of the trends page: the summary cards *)

Module TrendsCards.

Import Trends.

(** [growth && (...)]: the three cards are there when [getGrowth] gave
    an object. *)
Definition cards_shown (trends : list MonthlyTrend) : bool :=
  match page_growth trends with
  | Some _ => true
  | None => false
  end.

(** [trends[trends.length - 1]?.total_paid], the argument of the first
    card's [formatCurrency]. *)
Definition latest_paid (trends : list MonthlyTrend) : Api.nullable_number :=
  match last trends with
  | Some t => Api.IsNumber (Num.Fin (total_paid t))
  | None => Api.IsUndefined
  end.

(** [{trends.length} months] *)
Definition coverage (trends : list MonthlyTrend) : nat := length trends.

(** [growth.spendGrowth > 0 ? 'rose' : 'emerald'] *)
Definition growth_class (g : growth) : string :=
  if Lib.gt (spendGrowth g) (Num.Fin 0) then "rose" else "emerald".

(** [yearlyArr.length > 0 && (...)]: the yearly bar chart and its bars. *)
Definition yearly_chart (trends : list MonthlyTrend) : option (list yearly) :=
  if (0 <? length (yearlyArr trends))%nat then Some (yearlyArr trends) else None.

Definition total_months (yd : list (string * yearly)) : nat :=
  fold_right Nat.add 0%nat (map (fun p => months (snd p)) yd).

End TrendsCards.

(** ** More of the chat page: its controls *)

Module ChatControls.

Import JS Chat.

Definition SUGGESTED_QUERIES : list string :=
  ["What is the total Medicaid spending in 2023?";
   "Show me the top 10 providers by total spending";
   "What are the spending trends for autism therapy codes (97153)?";
   "Find providers with unusually high claim volumes";
   "Which HCPCS codes have the highest per-claim cost?";
   "Show spending growth rate by year"].

(** [disabled={!input.trim() || loading}] of the send button. *)
Definition send_disabled (st : state) : bool :=
  negb (truthy (Str (trim (input st)))) || loading st.

(** [disabled={loading}] of the suggestions below the input. *)
Definition suggestion_disabled (st : state) : bool := loading st.

(** [handleKeyDown]: whether the default action was prevented, and what
    [handleSend()] did. *)
Definition handleKeyDown (st : state) (key : string) (shiftKey : bool)
  : bool * (state * option Api.request) :=
  if String.eqb key "Enter" && negb shiftKey
  then (true, handleSend_begin st None)
  else (false, (st, None)).


(** What [handleSend()] makes of [retry_state]. *)
Definition retry_sent : state :=
  {| messages := messages retry_state ++ [user_message "total spending?"];
     input := "";
     loading := true |}.

Definition retry_request : Api.request :=
  Api.sendChatMessage_request "total spending?" (history_of (messages retry_state)).

End ChatControls.

(** ** The inline markdown of the narrative: [RichText] *)

Module Markdown.

(** The longest prefix of [s] without the character [stop], and what
    follows it: [[^stop]*]. *)
Fixpoint run (stop : ascii) (s : string) : string * string :=
  match s with
  | EmptyString => (EmptyString, EmptyString)
  | String c rest =>
      if Ascii.eqb c stop then (EmptyString, s)
      else let (body, tail) := run stop rest in (String c body, tail)
  end.

(** [mark [^stop]+ mark] at the start of [s]: the text matched.  The
    class cannot give a character back to [mark], so the greedy match is
    the only candidate. *)
Definition delimited (mark : string) (stop : ascii) (s : string) : option string :=
  if String.prefix mark s then
    let (body, tail) := run stop (substring (String.length mark)
                                    (String.length s - String.length mark) s) in
    if negb (String.eqb body "") && String.prefix mark tail
    then Some (mark +:+ body +:+ mark)
    else None
  else None.

Definition newline : ascii := "010"%char.

(** A match of [/(\*\*[^*]+\*\*|\*[^*]+\*|`[^`]+`|\n)/] at the start of
    [s], the alternatives in their order. *)
Definition match_at (s : string) : option string :=
  match delimited "**" "*" s with
  | Some m => Some m
  | None =>
      match delimited "*" "*" s with
      | Some m => Some m
      | None =>
          match delimited "`" "`" s with
          | Some m => Some m
          | None =>
              match s with
              | String c _ =>
                  if Ascii.eqb c newline then Some (String newline EmptyString)
                  else None
              | EmptyString => None
              end
          end
      end
  end.

(** [text.split(re)] with the capturing group: the text before each
    match, the match, and at the end the text after the last match.
    [skip] counts the characters of a match still to be passed over. *)
Fixpoint split_go (skip : nat) (pending : string) (s : string) : list string :=
  match s with
  | EmptyString => [pending]
  | String c rest =>
      match skip with
      | S k => split_go k pending rest
      | O =>
          match match_at s with
          | Some m => pending :: m :: split_go (String.length m - 1) "" rest
          | None => split_go 0 (pending +:+ String c EmptyString) rest
          end
      end
  end.

Definition split (text : string) : list string := split_go 0 "" text.

Inductive piece : Type :=
| Br
| Strong (t : string)
| Em (t : string)
| Code (t : string)
| Span (t : string).

(** The body of [parts.map((part, i) => ...)]. *)
Definition render_part (part : string) : list piece :=
  if String.eqb part "" then []
  else if String.eqb part (String newline EmptyString) then [Br]
  else if Lib.startsWith part "**" && Lib.endsWith part "**"
  then [Strong (Lib.slice_inner 2 part)]
  else if Lib.startsWith part "*" && Lib.endsWith part "*"
  then [Em (Lib.slice_inner 1 part)]
  else if Lib.startsWith part "`" && Lib.endsWith part "`"
  then [Code (Lib.slice_inner 1 part)]
  else [Span part].

(** What [RichText] puts inside its span for a text that is not
    empty. *)
Definition render (text : string) : list piece :=
  flat_map render_part (split text).

Definition plain_char (c : ascii) : bool :=
  negb (Ascii.eqb c "*" || Ascii.eqb c "`" || Ascii.eqb c newline).

Fixpoint all_chars (p : ascii -> bool) (s : string) : bool :=
  match s with
  | EmptyString => true
  | String c rest => p c && all_chars p rest
  end.

End Markdown.

(** ** The result table of the chat page: [formatHeader] and [SmartCell] *)

Module Cells.

Import JS.

Definition labels : list (string * string) :=
  [("billing_npi", "NPI");
   ("provider_name", "Provider");
   ("provider_type", "Type");
   ("specialty", "Specialty");
   ("state", "State");
   ("city", "City");
   ("hcpcs_code", "Code");
   ("description", "Description");
   ("total_paid", "Total Paid");
   ("total_claims", "Claims");
   ("total_beneficiaries", "Beneficiaries");
   ("record_count", "Records");
   ("unique_codes", "Codes");
   ("active_months", "Active Mo.");
   ("z_score_paid", "Z-Score ($)");
   ("z_score_claims", "Z-Score (Claims)");
   ("avg_paid_per_claim", "Avg $/Claim");
   ("code_avg_paid", "Peer Avg $");
   ("code_avg_claims", "Peer Avg Claims");
   ("active_providers", "Providers");
   ("provider_count", "Providers");
   ("claim_month", "Month");
   ("first_month", "First Active");
   ("last_month", "Last Active");
   ("servicing_npi", "Servicing NPI")].

(** The names every object literal inherits; [labels[key]] finds a
    function or an object under them, not a label. *)
Definition inherited : list string :=
  ["constructor"; "hasOwnProperty"; "isPrototypeOf"; "propertyIsEnumerable";
   "toLocaleString"; "toString"; "valueOf"; "__proto__";
   "__defineGetter__"; "__defineSetter__"; "__lookupGetter__";
   "__lookupSetter__"].

(** [key.replace(/_/g, ' ')] *)
Definition spaced (key : string) : string :=
  Lib.map_chars (fun c => if Ascii.eqb c "_" then " "%char else c) key.

(** [s.replace(/\b\w/g, l => l.toUpperCase())]: a word character is at
    a word boundary when the character before it is none. *)
Fixpoint capitalized (after_word : bool) (s : string) : string :=
  match s with
  | EmptyString => EmptyString
  | String c rest =>
      String (if Lib.is_word c && negb after_word then Lib.upper c else c)
             (capitalized (Lib.is_word c) rest)
  end.

(** [formatHeader(key)]; [None] when what it returns is no string. *)
Definition formatHeader (key : string) : option string :=
  match obj_get labels key with
  | Some label => Some label
  | None =>
      if existsb (String.eqb key) inherited then None
      else Some (capitalized false (spaced key))
  end.

(** What [SmartCell] returns, by the kind of its span. *)
Inductive cell : Type :=
| MutedDash
| ProviderName (v : value)
| SpecialtyBadge (v : value)
| Place (v : value)
| ProviderType (organization : bool) (v : value)
| Description (v : value)
| Currency (n : Num.num)
| ZScore (colour : string) (n : Num.num)
| Grouped (n : Num.num)
| TwoDecimals (n : Num.num)
| Localized (n : Num.num)
| Month (s : string)
| Plain (v : value)
| PlainDash.

(** [value % 1 !== 0] *)
Definition has_fraction (n : Num.num) : bool :=
  match n with
  | Num.Fin q => negb (Qeq_bool q (inject_Z (Qfloor q)))
  | _ => true
  end.

(** [/^\d{4}-\d{2}-\d{2}/.test(s)] *)
Definition dated (s : string) : bool :=
  match list_ascii_of_string s with
  | y1 :: y2 :: y3 :: y4 :: h1 :: m1 :: m2 :: h2 :: d1 :: d2 :: _ =>
      forallb Lib.is_digit [y1; y2; y3; y4; m1; m2; d1; d2]
      && Ascii.eqb h1 "-" && Ascii.eqb h2 "-"
  | _ => false
  end.

Definition SmartCell (colKey : string) (v : value) : cell :=
  let key := Lib.toLowerCase colKey in
  if String.eqb key "provider_name" then
    if negb (truthy v) || is_str v "Unknown" then MutedDash else ProviderName v
  else if String.eqb key "specialty" then
    if negb (truthy v) then MutedDash else SpecialtyBadge v
  else if String.eqb key "state" || String.eqb key "city" then
    if negb (truthy v) then MutedDash else Place v
  else if String.eqb key "provider_type" then
    if negb (truthy v) then MutedDash else ProviderType (is_str v "Organization") v
  else if String.eqb key "description" then
    if negb (truthy v) then MutedDash else Description v
  else
    match v with
    | Num n =>
        if Lib.includes key "paid" || Lib.includes key "cost"
           || Lib.includes key "avg_paid"
        then Currency n
        else if Lib.includes key "z_score" then
          ZScore (if Lib.gt n (Num.Fin 5) then "var(--accent-rose)"
                  else if Lib.gt n (Num.Fin 3) then "var(--accent-amber)"
                  else "var(--accent-emerald)") n
        else if Lib.gt n (Num.Fin 1000) then Grouped n
        else if has_fraction n then TwoDecimals n
        else Localized n
    | Str s => if dated s then Month s else Plain v
    | Undefined | Null => PlainDash
    | _ => Plain v
    end.

Definition is_dash (c : cell) : bool :=
  match c with
  | MutedDash | PlainDash => true
  | _ => false
  end.

End Cells.

(** ** The code explorer: [frontend/src/pages/CodeExplorer.jsx] *)

Module CodeExplorer.

Import JS.

(** An entry of [/api/top-codes]; the description may be [null]. *)
Record CodeSummary : Type := {
  hcpcs_code : string;
  description : option string;
  provider_count : Num.num;
  total_claims : Num.num;
  total_paid : Num.num;
  avg_paid_per_claim : Num.num;
}.

(** The predicate of [codes.filter(c => ...)]. *)
Definition matches (searchTerm : string) (c : CodeSummary) : bool :=
  Lib.includes (hcpcs_code c) searchTerm ||
  match description c with
  | Some d =>
      truthy (Str d) &&
      Lib.includes (Lib.toLowerCase d) (Lib.toLowerCase searchTerm)
  | None => false
  end.

(** [const filtered = searchTerm ? codes.filter(...) : codes] *)
Definition filtered (searchTerm : string) (codes : list CodeSummary)
  : list CodeSummary :=
  if truthy (Str searchTerm) then List.filter (matches searchTerm) codes
  else codes.

(** [filtered.slice(0, 20)], the bars of the chart. *)
Definition chart (searchTerm : string) (codes : list CodeSummary)
  : list CodeSummary :=
  firstn 20 (filtered searchTerm codes).

Definition sample_codes : list CodeSummary :=
  [{| hcpcs_code := "97153"; description := Some "Adaptive behavior treatment";
      provider_count := Num.Fin 12; total_claims := Num.Fin 340;
      total_paid := Num.Fin 9100; avg_paid_per_claim := Num.Fin 26 |};
   {| hcpcs_code := "T1019"; description := None;
      provider_count := Num.Fin 4; total_claims := Num.Fin 80;
      total_paid := Num.Fin 1200; avg_paid_per_claim := Num.Fin 15 |};
   {| hcpcs_code := "G0101"; description := Some "Cervical screening 97";
      provider_count := Num.Fin 2; total_claims := Num.Fin 10;
      total_paid := Num.Fin 300; avg_paid_per_claim := Num.Fin 30 |}].

End CodeExplorer.

(** ** The dashboard: [frontend/src/pages/Dashboard.jsx] *)

Module Dashboard.

Import JS.

Record state : Type := {
  overview : value;
  trends : value;
  topProviders : value;
  topCodes : value;
  loading : bool;
}.

Definition initial : state :=
  {| overview := Null; trends := Arr []; topProviders := Arr [];
     topCodes := Arr []; loading := true |}.

(** [Promise.all([...])]: the four values, or a rejection.  Which of
    several rejections it is makes no difference to the page, whose
    [catch] handler ignores its argument. *)
Definition all4 (a b c d : Api.outcome value)
  : Api.outcome (value * value * value * value) :=
  match a, b, c, d with
  | Api.Returned x, Api.Returned y, Api.Returned z, Api.Returned w =>
      Api.Returned (x, y, z, w)
  | Api.Thrown e, _, _, _ => Api.Thrown e
  | _, Api.Thrown e, _, _ => Api.Thrown e
  | _, _, Api.Thrown e, _ => Api.Thrown e
  | _, _, _, Api.Thrown e => Api.Thrown e
  end.

(** A reply that makes its fetch function throw: no reply at all, a
    status that is not ok, or a body that is no JSON. *)
Definition failed (r : Api.response) : bool :=
  match r with
  | Api.Reply true (Some _) => false
  | _ => true
  end.

(** The effect run once the page is mounted, with the replies to its
    four requests. *)
Definition load (st : state) (ov tr tp tc : Api.response) : state :=
  match all4 (Requests.fetchOverview_result ov) (Requests.fetchTrends_result tr)
             (Requests.fetchTopProviders_result tp)
             (Requests.fetchTopCodes_result tc) with
  | Api.Returned (o, t, p, c) =>
      {| overview := o; trends := t; topProviders := p; topCodes := c;
         loading := false |}
  | Api.Thrown _ =>
      {| overview := overview st; trends := trends st;
         topProviders := topProviders st; topCodes := topCodes st;
         loading := false |}
  end.

End Dashboard.

(* ================================================================== *)
(** * Part II: properties *)
(* ================================================================== *)

(** ** Strings and numbers *)

Module Text.

Lemma append_cons (x : ascii) (a b : string) :
  String x a +:+ b = String x (a +:+ b).
Proof. reflexivity. Qed.

Lemma append_nil (b : string) : "" +:+ b = b.
Proof. reflexivity. Qed.

Lemma append_assoc (a b c : string) : (a +:+ b) +:+ c = a +:+ (b +:+ c).
Proof.
  induction a as [|x a IH]; [reflexivity|]. rewrite !append_cons, IH. reflexivity.
Qed.

Lemma append_empty (a : string) : a +:+ "" = a.
Proof.
  induction a as [|x a IH]; [reflexivity|]. rewrite append_cons, IH. reflexivity.
Qed.

Lemma length_append (a b : string) :
  String.length (a +:+ b) = (String.length a + String.length b)%nat.
Proof. induction a as [|c a IH]; simpl; [reflexivity | now rewrite IH]. Qed.

Lemma length_zeros (k : nat) : String.length (Api.zeros k) = k.
Proof. induction k as [|k IH]; simpl; [reflexivity | now rewrite IH]. Qed.

Lemma length_substring (n m : nat) (s : string) :
  (n + m <= String.length s)%nat -> String.length (substring n m s) = m.
Proof.
  revert n m. induction s as [|c s IH]; intros n m H; simpl in H.
  - assert (n = 0 /\ m = 0)%nat as [-> ->] by lia. reflexivity.
  - destruct n as [|n]; simpl.
    + destruct m as [|m]; simpl; [reflexivity|].
      rewrite (IH 0%nat m); [reflexivity | simpl; lia].
    + apply IH. lia.
Qed.

Lemma truthy_Str (s : string) : JS.truthy (JS.Str s) = true <-> s <> "".
Proof.
  simpl. destruct (String.eqb_spec s ""); simpl; split; congruence.
Qed.

Lemma trim_start_white (s : string) :
  Chat.all_white_space s -> JS.trim_start s = "".
Proof.
  unfold Chat.all_white_space.
  induction s as [|c s IH]; simpl; intros H; [reflexivity|].
  inversion H as [|? ? Hc Hs]; subst. rewrite Hc. auto.
Qed.

Lemma trim_white (s : string) : Chat.all_white_space s -> JS.trim s = "".
Proof. intros H. unfold JS.trim. rewrite (trim_start_white s H). reflexivity. Qed.

Lemma is_zero_iff (q : Q) : Num.is_zero q = true <-> (q == 0)%Q.
Proof. apply Qeq_bool_iff. Qed.

Lemma e10_mono_ge (v : Num.num) (a b : nat) :
  (a <= b)%nat -> Num.ge v (Num.Fin (Api.e10 b)) = true ->
  Num.ge v (Num.Fin (Api.e10 a)) = true.
Proof.
  intros Hab. destruct v as [q| | |]; simpl; auto.
  intros H. apply Qle_bool_iff in H. apply Qle_bool_iff.
  eapply Qle_trans; [|exact H].
  unfold Api.e10. rewrite <- Zle_Qle.
  apply Z.pow_le_mono_r; lia.
Qed.

End Text.

(** ** Rounding to the nearest double *)

Module NumProps.
Import Num.
Local Open Scope Q_scope.

Lemma pow2_pos (z : Z) : 0 < pow2 z.
Proof. apply Qpower_0_lt. reflexivity. Qed.

Lemma pow2_add (a b : Z) : pow2 (a + b) == pow2 a * pow2 b.
Proof. apply Qpower_plus. discriminate. Qed.

Lemma pow2_le (a b : Z) : (a <= b)%Z -> pow2 a <= pow2 b.
Proof. intros H. apply Qpower_le_compat_l; [exact H | discriminate]. Qed.

Lemma pow2_lt (a b : Z) : (a < b)%Z -> pow2 a < pow2 b.
Proof. intros H. apply Qpower_lt_compat_l; [exact H | reflexivity]. Qed.

Lemma pow2_lt_inv (a b : Z) : pow2 a < pow2 b -> (a < b)%Z.
Proof. intros H. apply (Qpower_lt_compat_l_inv 2); [exact H | reflexivity]. Qed.

Lemma pow2_inject (z : Z) : (0 <= z)%Z -> pow2 z == inject_Z (2 ^ z).
Proof. intros H. unfold pow2. rewrite Zpower_Qpower by exact H. reflexivity. Qed.

Lemma pow2_succ (z : Z) : pow2 (z + 1) == 2 * pow2 z.
Proof. rewrite pow2_add. change (pow2 1) with 2. ring. Qed.

Lemma pow2_pred (z : Z) : pow2 (z - 1) == pow2 z / 2.
Proof.
  assert (pow2 z == 2 * pow2 (z - 1)) as ->.
  { rewrite <- pow2_succ. replace (z - 1 + 1)%Z with z by lia. reflexivity. }
  field.
Qed.

(** [a] between the powers of two that its numerator and denominator
    give. *)
Lemma binade_rough (a : Q) :
  0 < a ->
  let k := (Z.log2 (Qnum a) - Z.log2 (Zpos (Qden a)))%Z in
  pow2 (k - 1) < a /\ a < pow2 (k + 1).
Proof.
  intros Ha k. destruct a as [n d]. unfold Qlt in Ha. simpl in Ha. cbn [Qnum Qden] in k.
  assert (0 < n)%Z as Hn by lia.
  destruct (Z.log2_spec n Hn) as [Hn1 Hn2].
  destruct (Z.log2_spec (Zpos d) ltac:(lia)) as [Hd1 Hd2].
  pose proof (Z.log2_nonneg n) as Ln. pose proof (Z.log2_nonneg (Zpos d)) as Ld.
  set (ln := Z.log2 n) in *. set (ld := Z.log2 (Z.pos d)) in *.
  assert (pow2 k == inject_Z (2 ^ ln) / inject_Z (2 ^ ld)) as Ek.
  { subst k. replace (ln - ld)%Z with (ln + - ld)%Z by lia.
    rewrite pow2_add. unfold pow2 at 2. rewrite Qpower_opp.
    fold (pow2 ld). rewrite !pow2_inject by assumption. reflexivity. }
  assert (0 < inject_Z (2 ^ ld)) as Pd.
  { rewrite <- (Zlt_Qlt 0). lia. }
  assert (n # d == inject_Z n / inject_Z (Zpos d)) as En by apply Qmake_Qdiv.
  assert (0 < inject_Z (Zpos d)) as Pdd by reflexivity.
  assert (inject_Z (2 ^ ln) <= inject_Z n) as Q1 by (rewrite <- Zle_Qle; lia).
  assert (inject_Z n < 2 * inject_Z (2 ^ ln)) as Q2.
  { change 2 with (inject_Z 2). rewrite <- inject_Z_mult, <- Zlt_Qlt.
    replace (ln + 1)%Z with (Z.succ ln) in Hn2 by lia.
    rewrite Z.pow_succ_r in Hn2 by assumption. lia. }
  assert (inject_Z (2 ^ ld) <= inject_Z (Zpos d)) as Q3 by (rewrite <- Zle_Qle; lia).
  assert (inject_Z (Zpos d) < 2 * inject_Z (2 ^ ld)) as Q4.
  { change 2 with (inject_Z 2). rewrite <- inject_Z_mult, <- Zlt_Qlt.
    replace (ld + 1)%Z with (Z.succ ld) in Hd2 by lia.
    rewrite Z.pow_succ_r in Hd2 by assumption. lia. }
  rewrite pow2_pred, pow2_succ, Ek, En.
  set (N := inject_Z n) in *. set (D := inject_Z (Zpos d)) in *.
  set (PN := inject_Z (2 ^ ln)) in *. set (PD := inject_Z (2 ^ ld)) in *.
  assert (0 < PN) as PPn by (subst PN; rewrite <- (Zlt_Qlt 0); lia).
  split.
  - apply Qlt_shift_div_l; [exact Pdd|].
    assert (PN / PD / 2 * D == (PN * D) / (2 * PD)) as -> by (field; lra).
    apply Qlt_shift_div_r; [lra|]. nra.
  - apply Qlt_shift_div_r; [exact Pdd|].
    assert (2 * (PN / PD) * D == (2 * PN * D) / PD) as -> by (field; lra).
    apply Qlt_shift_div_l; [exact Pd|]. nra.
Qed.

Lemma binade_spec (a : Q) :
  0 < a -> pow2 (binade a) <= a /\ a < pow2 (binade a + 1).
Proof.
  intros Ha. destruct (binade_rough a Ha) as [H1 H2]. unfold binade.
  set (k := (Z.log2 (Qnum a) - Z.log2 (Zpos (Qden a)))%Z) in *.
  destruct (Qle_bool (pow2 k) a) eqn:E.
  - apply Qle_bool_iff in E. split; assumption.
  - replace (k - 1 + 1)%Z with k by lia. split; [apply Qlt_le_weak, H1|].
    apply Qnot_le_lt. intros H. apply Qle_bool_iff in H. congruence.
Qed.

Lemma binade_unique (a : Q) (e : Z) :
  pow2 e <= a -> a < pow2 (e + 1) -> binade a = e.
Proof.
  intros H1 H2.
  assert (0 < a) as Ha by (eapply Qlt_le_trans; [apply (pow2_pos e) | exact H1]).
  destruct (binade_spec a Ha) as [B1 B2].
  assert (binade a < e + 1)%Z
    by (apply pow2_lt_inv; eapply Qle_lt_trans; eassumption).
  assert (e < binade a + 1)%Z
    by (apply pow2_lt_inv; eapply Qle_lt_trans; eassumption).
  lia.
Qed.

Lemma nearest_even_bounds (y : Q) :
  (Qfloor y <= nearest_even y <= Qfloor y + 1)%Z /\
  (y < inject_Z (Qfloor y) + (1 # 2) -> nearest_even y = Qfloor y) /\
  (inject_Z (Qfloor y) + (1 # 2) < y -> nearest_even y = (Qfloor y + 1)%Z).
Proof.
  unfold nearest_even.
  destruct (Qcompare_spec (y - inject_Z (Qfloor y)) (1 # 2)) as [E|E|E].
  - split; [destruct (Z.even _); lia|]. split; intros H; lra.
  - split; [lia|]. split; [reflexivity | intros H; lra].
  - split; [lia|]. split; [intros H; lra | reflexivity].
Qed.

Lemma nearest_even_Z (k : Z) : nearest_even (inject_Z k) = k.
Proof.
  destruct (nearest_even_bounds (inject_Z k)) as (_ & H & _).
  rewrite Qfloor_Z in H. apply H. lra.
Qed.

Lemma nearest_even_mono (x y : Q) : x <= y -> (nearest_even x <= nearest_even y)%Z.
Proof.
  intros H. pose proof (Qfloor_resp_le x y H) as Hf.
  destruct (nearest_even_bounds x) as (Bx & Lx & Ux).
  destruct (nearest_even_bounds y) as (By & Ly & Uy).
  destruct (Z.eq_dec (Qfloor x) (Qfloor y)) as [E|E]; [|lia].
  destruct (Qcompare_spec (y - inject_Z (Qfloor y)) (1 # 2)) as [C|C|C].
  - destruct (Qcompare_spec (x - inject_Z (Qfloor x)) (1 # 2)) as [D|D|D].
    + unfold nearest_even. rewrite E.
      destruct (Qcompare_spec (x - inject_Z (Qfloor y)) (1 # 2)) as [F|F|F];
        rewrite E in D; try lra.
      destruct (Qcompare_spec (y - inject_Z (Qfloor y)) (1 # 2)) as [G|G|G];
        try lra. lia.
    + rewrite Lx by lra. lia.
    + rewrite E in D. lra.
  - rewrite Ly by lra. rewrite Lx; [lia|]. rewrite E. lra.
  - rewrite Uy by lra. lia.
Qed.


Lemma pow2_ratio (k u : Z) : pow2 k / pow2 u == pow2 (k - u).
Proof.
  assert (pow2 k == pow2 (k - u) * pow2 u) as ->.
  { rewrite <- pow2_add. replace (k - u + u)%Z with k by lia. reflexivity. }
  field. pose proof (pow2_pos u). lra.
Qed.

Lemma scaled_le (a b : Q) (u : Z) : a <= b -> a / pow2 u <= b / pow2 u.
Proof.
  intros H. unfold Qdiv. apply Qmult_le_compat_r; [exact H|].
  apply Qlt_le_weak, Qinv_lt_0_compat, pow2_pos.
Qed.

Lemma is_zero_false (a : Q) : 0 < a -> is_zero a = false.
Proof.
  intros H. unfold is_zero. destruct (Qeq_bool a 0) eqn:E; [|reflexivity].
  apply Qeq_bool_iff in E. lra.
Qed.

Lemma round_pos (a : Q) :
  0 < a -> on_grid a < pow2 1024 -> round a = Fin (on_grid a).
Proof.
  intros Ha Hr. unfold round.
  assert (Qabs a = a) as ->.
  { destruct a as [[|n|n] d]; try reflexivity; discriminate. }
  rewrite (is_zero_false a Ha).
  assert (is_neg a = false) as ->.
  { unfold is_neg. assert (Qle_bool 0 a = true) as -> by (apply Qle_bool_iff; lra).
    reflexivity. }
  destruct (Qle_bool (pow2 1024) (on_grid a)) eqn:E; [|reflexivity].
  apply Qle_bool_iff in E. lra.
Qed.

Lemma on_grid_nonneg (a : Q) : 0 < a -> 0 <= on_grid a.
Proof.
  intros Ha. unfold on_grid. apply Qmult_le_0_compat; [|apply Qlt_le_weak, pow2_pos].
  assert (0 <= a / pow2 (grid a)) as H.
  { apply Qle_shift_div_l; [apply pow2_pos | lra]. }
  pose proof (nearest_even_mono 0 _ H) as M.
  change 0 with (inject_Z 0) in M at 1. rewrite nearest_even_Z in M.
  change 0 with (inject_Z 0). rewrite <- Zle_Qle. exact M.
Qed.

Lemma on_grid_le_next (a : Q) :
  0 < a -> on_grid a <= pow2 (Z.max (binade a) (-1022) + 1).
Proof.
  intros Ha. destruct (binade_spec a Ha) as [_ B]. unfold on_grid, grid.
  set (E := Z.max (binade a) (-1022)).
  assert (a <= pow2 (E + 1)) as H.
  { apply Qlt_le_weak. eapply Qlt_le_trans; [exact B|]. apply pow2_le. lia. }
  apply (scaled_le _ _ (E - 52)) in H. rewrite pow2_ratio in H.
  replace (E + 1 - (E - 52))%Z with 53%Z in H by lia.
  rewrite (pow2_inject 53) in H by lia.
  apply nearest_even_mono in H. rewrite nearest_even_Z in H.
  assert (pow2 (E + 1) == inject_Z (2 ^ 53) * pow2 (E - 52)) as ->.
  { rewrite <- (pow2_inject 53) by lia. rewrite <- pow2_add.
    replace (53 + (E - 52))%Z with (E + 1)%Z by lia. reflexivity. }
  apply Qmult_le_compat_r; [|apply Qlt_le_weak, pow2_pos].
  rewrite <- Zle_Qle. exact H.
Qed.

Lemma on_grid_ge_binade (a : Q) :
  0 < a -> (-1022 <= binade a)%Z -> pow2 (binade a) <= on_grid a.
Proof.
  intros Ha Hn. destruct (binade_spec a Ha) as [B _]. unfold on_grid, grid.
  rewrite Z.max_l by lia. set (e := binade a) in *.
  apply (scaled_le _ _ (e - 52)) in B. rewrite pow2_ratio in B.
  replace (e - (e - 52))%Z with 52%Z in B by lia.
  rewrite (pow2_inject 52) in B by lia.
  apply nearest_even_mono in B. rewrite nearest_even_Z in B.
  assert (pow2 e == inject_Z (2 ^ 52) * pow2 (e - 52)) as ->.
  { rewrite <- (pow2_inject 52) by lia. rewrite <- pow2_add.
    replace (52 + (e - 52))%Z with e by lia. reflexivity. }
  apply Qmult_le_compat_r; [|apply Qlt_le_weak, pow2_pos].
  rewrite <- Zle_Qle. exact B.
Qed.

Lemma binade_mono (a b : Q) : 0 < a -> a <= b -> (binade a <= binade b)%Z.
Proof.
  intros Ha Hab. destruct (binade_spec a Ha) as [A _].
  destruct (binade_spec b ltac:(lra)) as [_ B].
  assert (binade a < binade b + 1)%Z; [|lia].
  apply pow2_lt_inv. lra.
Qed.

(** Rounding keeps the order. *)
Lemma on_grid_mono (a b : Q) : 0 < a -> a <= b -> on_grid a <= on_grid b.
Proof.
  intros Ha Hab. pose proof (binade_mono a b Ha Hab) as M.
  destruct (Z.eq_dec (Z.max (binade a) (-1022)) (Z.max (binade b) (-1022))) as [E|E].
  - unfold on_grid, grid. rewrite E. set (u := (_ - 52)%Z).
    apply Qmult_le_compat_r; [|apply Qlt_le_weak, pow2_pos].
    rewrite <- Zle_Qle. apply nearest_even_mono, scaled_le, Hab.
  - eapply Qle_trans; [apply on_grid_le_next, Ha|].
    eapply Qle_trans; [|apply on_grid_ge_binade; [lra | lia]].
    apply pow2_le. lia.
Qed.

Lemma on_grid_pow2 (k : Z) : (-1022 <= k)%Z -> on_grid (pow2 k) == pow2 k.
Proof.
  intros Hk. unfold on_grid, grid.
  rewrite (binade_unique (pow2 k) k); [|lra | apply pow2_lt; lia].
  rewrite Z.max_l by lia.
  assert (nearest_even (pow2 k / pow2 (k - 52)) = (2 ^ 52)%Z) as ->.
  { assert (pow2 k / pow2 (k - 52) == inject_Z (2 ^ 52)) as H.
    { rewrite pow2_ratio. replace (k - (k - 52))%Z with 52%Z by lia.
      apply pow2_inject. lia. }
    assert (pow2 k / pow2 (k - 52) <= inject_Z (2 ^ 52)) as H1 by lra.
    assert (inject_Z (2 ^ 52) <= pow2 k / pow2 (k - 52)) as H2 by lra.
    apply nearest_even_mono in H1, H2. rewrite nearest_even_Z in H1, H2. lia. }
  rewrite <- (pow2_inject 52) by lia. rewrite <- pow2_add.
  replace (52 + (k - 52))%Z with k by lia. reflexivity.
Qed.

(** A positive number below a power of two rounds to a finite double
    that is not above that power. *)
Lemma round_below (a : Q) (k : Z) :
  0 < a -> a <= pow2 k -> (-1022 <= k <= 1023)%Z ->
  round a = Fin (on_grid a) /\ 0 <= on_grid a <= pow2 k.
Proof.
  intros Ha Hk Hr.
  assert (on_grid a <= pow2 k) as H.
  { rewrite <- (on_grid_pow2 k) by lia. apply on_grid_mono; assumption. }
  split; [|split; [apply on_grid_nonneg, Ha | exact H]].
  apply round_pos; [exact Ha|].
  eapply Qle_lt_trans; [exact H|]. apply pow2_lt. lia.
Qed.

Lemma nearest_even_error (y : Q) :
  - (1 # 2) <= inject_Z (nearest_even y) - y <= 1 # 2.
Proof.
  pose proof (Qfloor_le y) as H1. pose proof (Qlt_floor y) as H2.
  rewrite inject_Z_plus in H2. change (inject_Z 1) with 1 in H2.
  destruct (nearest_even_bounds y) as (_ & L & U).
  unfold nearest_even in *.
  destruct (Qcompare_spec (y - inject_Z (Qfloor y)) (1 # 2)) as [E|E|E].
  - destruct (Z.even (Qfloor y)).
    + split; lra.
    + rewrite inject_Z_plus. change (inject_Z 1) with 1. split; lra.
  - split; lra.
  - rewrite inject_Z_plus. change (inject_Z 1) with 1. split; lra.
Qed.

(** The rounded value is within half a unit of the last place kept. *)
Lemma on_grid_error (a : Q) :
  - (pow2 (grid a) / 2) <= on_grid a - a <= pow2 (grid a) / 2.
Proof.
  unfold on_grid. set (u := grid a). pose proof (pow2_pos u) as P.
  pose proof (nearest_even_error (a / pow2 u)) as [E1 E2].
  set (n := inject_Z (nearest_even (a / pow2 u))) in *.
  assert (a == a / pow2 u * pow2 u) as Ea by (field; lra).
  set (y := a / pow2 u) in *.
  assert (n * pow2 u - a == (n - y) * pow2 u) as -> by (rewrite Ea at 1; ring).
  split.
  - assert (- (pow2 u / 2) == - (1 # 2) * pow2 u) as -> by field.
    apply Qmult_le_compat_r; lra.
  - assert (pow2 u / 2 == (1 # 2) * pow2 u) as -> by field.
    apply Qmult_le_compat_r; lra.
Qed.

Lemma round_not_NaN (q : Q) : round q <> NaN.
Proof.
  unfold round. destruct (is_zero (Qabs q)); [discriminate|].
  destruct (Qle_bool _ _); [destruct (is_neg q)|]; discriminate.
Qed.

(** A rational of magnitude up to 2^1023 rounds to a finite double. *)
Lemma round_finite (q : Q) : Qabs q <= pow2 1023 -> exists r, round q = Fin r.
Proof.
  intros H. unfold round. destruct (is_zero (Qabs q)) eqn:Z; [eauto|].
  assert (0 < Qabs q) as P.
  { pose proof (Qabs_nonneg q) as N. destruct (Qeq_dec (Qabs q) 0) as [E|E]; [|lra].
    apply Qeq_bool_iff in E. unfold is_zero in Z. congruence. }
  destruct (round_below (Qabs q) 1023 P H ltac:(lia)) as (_ & _ & U).
  assert (Qle_bool (pow2 1024) (on_grid (Qabs q)) = false) as ->; [|eauto].
  destruct (Qle_bool _ _) eqn:E; [|reflexivity].
  apply Qle_bool_iff in E. pose proof (pow2_lt 1023 1024 ltac:(lia)). lra.
Qed.

(** Between two doubles the rounded value stays between them. *)
Lemma round_between (lo a hi : Q) (k : Z) :
  0 < lo -> lo <= a -> a <= hi -> hi <= pow2 k -> (-1022 <= k <= 1023)%Z ->
  round a = Fin (on_grid a) /\ on_grid lo <= on_grid a <= on_grid hi.
Proof.
  intros Hlo H1 H2 Hk Hr.
  destruct (round_below a k) as [R _]; [lra | lra | exact Hr |].
  split; [exact R|]. split; apply on_grid_mono; lra.
Qed.

End NumProps.

(** ** Numerals *)

Module DecimalProps.

Import Api JS.

Lemma parse_digits_acc (l : Decimal.uint) (acc : positive) :
  parse_digits (Npos acc) (NilEmpty.string_of_uint l) = Some (Npos (Pos.of_uint_acc l acc)).
Proof.
  revert acc. induction l as [|l IH|l IH|l IH|l IH|l IH|l IH|l IH|l IH|l IH|l IH];
    intros acc; [reflexivity|..];
    cbn [NilEmpty.string_of_uint parse_digits Pos.of_uint_acc];
    match goal with |- context [digit_of ?c] =>
      let v := eval vm_compute in (digit_of c) in change (digit_of c) with v end;
    cbv iota; rewrite <- IH; f_equal; lia.
Qed.

Lemma parse_digits_uint (l : Decimal.uint) :
  parse_digits 0 (NilEmpty.string_of_uint l) = Some (Pos.of_uint l).
Proof.
  induction l as [|l IH|l IH|l IH|l IH|l IH|l IH|l IH|l IH|l IH|l IH];
    [reflexivity | exact IH |..];
    cbn [NilEmpty.string_of_uint parse_digits Pos.of_uint];
    match goal with |- context [digit_of ?c] =>
      let v := eval vm_compute in (digit_of c) in change (digit_of c) with v end;
    cbv iota; apply parse_digits_acc.
Qed.

Lemma digits_uint (n : N) :
  NilZero.string_of_uint (N.to_uint n) = NilEmpty.string_of_uint (N.to_uint n).
Proof.
  destruct n as [|p]; [reflexivity|]. unfold N.to_uint.
  pose proof (DecimalPos.Unsigned.to_uint_nonnil p) as H.
  destruct (Pos.to_uint p); [congruence | reflexivity..].
Qed.

(** The digits of a natural number spell it. *)
Lemma parse_digits_digits (n : Z) : parse_digits 0 (digits n) = Some (Z.to_N n).
Proof.
  unfold digits. rewrite digits_uint, parse_digits_uint.
  f_equal. apply DecimalN.Unsigned.of_to.
Qed.

Lemma nzhead_canonical (d : Decimal.uint) :
  Decimal.nzhead d <> Decimal.Nil ->
  canonical (NilEmpty.string_of_uint (Decimal.nzhead d)) = true.
Proof.
  induction d; simpl; intros H; try reflexivity; [congruence | auto].
Qed.

(** and begin with a zero only when the number is zero. *)
Lemma canonical_digits (n : Z) : canonical (digits n) = true.
Proof.
  unfold digits. set (m := Z.to_N n). rewrite digits_uint.
  rewrite <- (DecimalN.Unsigned.of_to m), DecimalN.Unsigned.to_of.
  unfold Decimal.unorm.
  pose proof (nzhead_canonical (N.to_uint m)) as H.
  destruct (Decimal.nzhead (N.to_uint m)); [reflexivity | apply H; discriminate..].
Qed.

Lemma substring_split (j : nat) (s : string) :
  (j <= String.length s)%nat ->
  s = substring 0 j s +:+ substring j (String.length s - j) s.
Proof.
  revert j. induction s as [|c s IH]; intros j H; simpl in H.
  - assert (j = 0)%nat as -> by lia. reflexivity.
  - destruct j as [|j].
    + cbn [substring]. rewrite Text.append_nil. cbn [String.length Nat.sub].
      f_equal. clear. induction s as [|d s IH]; [reflexivity|].
      cbn [String.length substring]. f_equal. exact IH.
    + cbn [substring String.length Nat.sub]. rewrite Text.append_cons. f_equal.
      apply IH. lia.
Qed.

Lemma parse_digits_app (acc : N) (a b : string) :
  parse_digits acc (a +:+ b) =
    match parse_digits acc a with
    | Some x => parse_digits x b
    | None => None
    end.
Proof.
  revert acc. induction a as [|c a IH]; intros acc; [reflexivity|].
  rewrite Text.append_cons. cbn [parse_digits].
  destruct (digit_of c); [apply IH | reflexivity].
Qed.

Lemma digit_of_below (c : ascii) (d : N) : digit_of c = Some d -> (d <= 9)%N.
Proof.
  unfold digit_of. destruct (_ && _) eqn:E; [|discriminate].
  intros [= <-]. apply andb_true_iff in E as [E1 E2].
  apply N.leb_le in E1, E2. lia.
Qed.

Lemma parse_digits_shift (acc : N) (b : string) :
  parse_digits acc b =
    match parse_digits 0 b with
    | Some v => Some (acc * 10 ^ N.of_nat (String.length b) + v)%N
    | None => None
    end.
Proof.
  revert acc. induction b as [|c b IH]; intros acc.
  - cbn. f_equal. lia.
  - cbn [parse_digits String.length]. destruct (digit_of c) as [d|]; [|reflexivity].
    rewrite (IH (10 * acc + d)%N), (IH (10 * 0 + d)%N).
    destruct (parse_digits 0 b) as [v|]; [|reflexivity].
    f_equal. rewrite Nat2N.inj_succ, N.pow_succ_r'. lia.
Qed.

Lemma parse_digits_below (b : string) (v : N) :
  parse_digits 0 b = Some v -> (v < 10 ^ N.of_nat (String.length b))%N.
Proof.
  revert v. induction b as [|c b IH]; intros v.
  - cbn. intros [= <-]. lia.
  - cbn [parse_digits String.length]. destruct (digit_of c) as [d|] eqn:D; [|discriminate].
    rewrite parse_digits_shift.
    destruct (parse_digits 0 b) as [w|] eqn:E; [|discriminate].
    intros [= <-]. specialize (IH w eq_refl). apply digit_of_below in D.
    rewrite Nat2N.inj_succ, N.pow_succ_r'. nia.
Qed.

Lemma parse_digits_zeros (k : nat) (s : string) :
  parse_digits 0 (zeros k +:+ s) = parse_digits 0 s.
Proof.
  induction k as [|k IH]; [reflexivity|].
  cbn [zeros]. rewrite Text.append_cons. cbn [parse_digits].
  change (digit_of "0") with (Some 0%N). cbv iota. exact IH.
Qed.

Lemma split_point_digits (acc : N) (w : string) (rest : option string) :
  is_Some (parse_digits acc w) ->
  split_point (match rest with Some d => w +:+ "." +:+ d | None => w end) = (w, rest).
Proof.
  revert acc. induction w as [|c w IH]; intros acc H.
  - destruct rest; reflexivity.
  - cbn [parse_digits] in H. destruct (digit_of c) as [d|] eqn:D; [|destruct H; discriminate].
    assert (Ascii.eqb c "." = false) as Hc.
    { destruct (Ascii.eqb_spec c "."); [subst; discriminate | reflexivity]. }
    specialize (IH _ H).
    destruct rest as [d'|]; [rewrite Text.append_cons|]; cbn [split_point]; rewrite Hc, IH;
      reflexivity.
Qed.

Lemma canonical_prefix (j : nat) (s : string) :
  (0 < j)%nat -> (2 <= String.length s)%nat -> canonical s = true ->
  canonical (substring 0 j s) = true.
Proof.
  intros Hj Hs. destruct s as [|c s]; [discriminate|]. destruct j as [|j]; [lia|].
  cbn [substring canonical]. destruct (Ascii.eqb c "0"); [|reflexivity].
  cbn [negb orb]. destruct s; [simpl in Hs; lia | discriminate].
Qed.

Lemma canonical_whole (m : string) (f : nat) :
  canonical m = true -> (0 < f)%nat ->
  let m1 := if (String.length m <=? f)%nat
            then zeros (f + 1 - String.length m) +:+ m else m in
  canonical (substring 0 (String.length m1 - f) m1) = true.
Proof.
  intros C Hf. cbv zeta. destruct (Nat.leb_spec (String.length m) f) as [Hk|Hk].
  - rewrite Text.length_append, Text.length_zeros.
    replace (f + 1 - String.length m + String.length m - f)%nat with 1%nat by lia.
    destruct (f + 1 - String.length m)%nat eqn:Z; [lia|].
    cbn [zeros]. rewrite Text.append_cons. cbn [substring canonical].
    destruct (zeros n +:+ m); reflexivity.
  - apply canonical_prefix; [lia | lia | exact C].
Qed.

Lemma unsigned_text_fixed (n : Z) (f : nat) :
  unsigned_text f (fixed_text n f) = Some (Z.to_N n).
Proof.
  unfold fixed_text, unsigned_text.
  pose proof (parse_digits_digits n) as P. pose proof (canonical_digits n) as C.
  set (m := digits n) in *.
  destruct (Nat.eqb_spec f 0) as [->|Hf].
  - rewrite (split_point_digits 0 m None) by (rewrite P; eauto).
    rewrite C, P. reflexivity.
  - set (m1 := if (String.length m <=? f)%nat then _ else m).
    assert (parse_digits 0 m1 = Some (Z.to_N n)) as P1.
    { subst m1. destruct (_ <=? _)%nat; [rewrite parse_digits_zeros|]; exact P. }
    assert (f + 1 <= String.length m1)%nat as L1.
    { subst m1. destruct (Nat.leb_spec (String.length m) f).
      - rewrite Text.length_append, Text.length_zeros. lia.
      - lia. }
    set (k := String.length m1) in *.
    set (w := substring 0 (k - f) m1). set (d := substring (k - f) f m1).
    assert (m1 = w +:+ d) as E.
    { subst w d. replace f with (k - (k - f))%nat at 3 by lia.
      apply substring_split. lia. }
    assert (String.length d = f) as Ld by (apply Text.length_substring; lia).
    rewrite E, parse_digits_app in P1.
    destruct (parse_digits 0 w) as [a|] eqn:Pw; [|discriminate].
    rewrite parse_digits_shift in P1.
    destruct (parse_digits 0 d) as [b|] eqn:Pd; [|discriminate].
    rewrite (split_point_digits 0 w (Some d)) by (rewrite Pw; eauto).
    assert (canonical w = true) as -> by (apply canonical_whole; [exact C | lia]).
    rewrite Pw, Pd, Ld, Nat.eqb_refl.
    destruct (Nat.ltb_spec 0 f); [|lia]. cbn [andb]. rewrite <- Ld. exact P1.
Qed.

Lemma digit_of_inj (c c' : ascii) (d : N) :
  digit_of c = Some d -> digit_of c' = Some d -> c = c'.
Proof.
  unfold digit_of. destruct (_ && _) eqn:E; [|discriminate].
  destruct ((48 <=? N_of_ascii c')%N && _) eqn:E'; [|discriminate].
  intros [= H] [= H']. apply andb_true_iff in E as [E1 E2], E' as [E1' E2'].
  apply N.leb_le in E1, E2, E1', E2'.
  rewrite <- (ascii_N_embedding c), <- (ascii_N_embedding c'). f_equal. lia.
Qed.

(** Two numerals of the same length that spell the same number are the
    same. *)
Lemma parse_digits_inj (a b : string) (v : N) :
  String.length a = String.length b ->
  parse_digits 0 a = Some v -> parse_digits 0 b = Some v -> a = b.
Proof.
  revert b v. induction a as [|c a IH]; intros [|c' b] v L Ha Hb; try discriminate L.
  - reflexivity.
  - cbn [String.length] in L. injection L as L.
    cbn [parse_digits] in Ha, Hb.
    destruct (digit_of c) as [d|] eqn:D; [|discriminate Ha].
    destruct (digit_of c') as [d'|] eqn:D'; [|discriminate Hb].
    rewrite parse_digits_shift in Ha, Hb.
    destruct (parse_digits 0 a) as [va|] eqn:Pa; [|discriminate Ha].
    destruct (parse_digits 0 b) as [vb|] eqn:Pb; [|discriminate Hb].
    injection Ha as Ha. injection Hb as Hb.
    pose proof (parse_digits_below a va Pa) as Ba.
    pose proof (parse_digits_below b vb Pb) as Bb.
    rewrite L in Ha, Ba. set (k := (10 ^ N.of_nat (String.length b))%N) in *.
    assert (d = d' /\ va = vb) as [-> ->].
    { apply (N.div_mod_unique k); [exact Ba | exact Bb | lia]. }
    rewrite (digit_of_inj c c' d' D D'). f_equal. apply (IH b vb L eq_refl Pb).
Qed.

Lemma canonical_size (w : string) (v : N) :
  canonical w = true -> parse_digits 0 w = Some v ->
  (v = 0%N /\ w = "0") \/
  (10 ^ N.of_nat (String.length w - 1) <= v /\ (0 < v)%N)%N.
Proof.
  destruct w as [|c w]; [discriminate|]. cbn [canonical parse_digits String.length].
  intros C P. destruct (digit_of c) as [d|] eqn:D; [|discriminate P].
  rewrite parse_digits_shift in P.
  destruct (parse_digits 0 w) as [vw|] eqn:Pw; [|discriminate P]. injection P as <-.
  replace (S (String.length w) - 1)%nat with (String.length w) by lia.
  destruct (Ascii.eqb_spec c "0") as [->|Hc].
  - cbn in C. apply String.eqb_eq in C. subst w. injection D as <-.
    injection Pw as <-. left. split; reflexivity.
  - right. assert (d <> 0%N) as Hd.
    { intros ->. apply Hc. apply (digit_of_inj c "0" 0 D). reflexivity. }
    assert (0 < 10 ^ N.of_nat (String.length w))%N by (apply N.neq_0_lt_0, N.pow_nonzero; lia).
    nia.
Qed.

Lemma pow10_lt (a b : nat) : (10 ^ N.of_nat a < 10 ^ N.of_nat b)%N -> (a < b)%nat.
Proof.
  intros H. apply (N.pow_lt_mono_r_iff 10) in H; lia.
Qed.

(** A number has one numeral without needless zero. *)
Lemma canonical_inj (a b : string) (v : N) :
  canonical a = true -> canonical b = true ->
  parse_digits 0 a = Some v -> parse_digits 0 b = Some v -> a = b.
Proof.
  intros Ca Cb Pa Pb. apply (parse_digits_inj a b v); [|exact Pa | exact Pb].
  pose proof (parse_digits_below a v Pa) as Ba.
  pose proof (parse_digits_below b v Pb) as Bb.
  destruct (canonical_size a v Ca Pa) as [[Ea Wa]|[La Za]];
    destruct (canonical_size b v Cb Pb) as [[Eb Wb]|[Lb Zb]];
    [subst a b; reflexivity | lia | lia |].
  assert (String.length a - 1 < String.length b)%nat
    by (apply pow10_lt; eapply N.le_lt_trans; eassumption).
  assert (String.length b - 1 < String.length a)%nat
    by (apply pow10_lt; eapply N.le_lt_trans; eassumption).
  destruct a; [discriminate Ca|]. destruct b; [discriminate Cb|].
  cbn [String.length] in *. lia.
Qed.

Lemma split_point_inv (s w : string) (d : option string) :
  split_point s = (w, d) ->
  s = match d with Some d => w +:+ "." +:+ d | None => w end.
Proof.
  revert w. induction s as [|c s IH]; intros w H; cbn [split_point] in H.
  - injection H as <- <-. reflexivity.
  - destruct (Ascii.eqb_spec c ".") as [->|_].
    + injection H as <- <-. reflexivity.
    + destruct (split_point s) as [w' d'] eqn:E. injection H as <- <-.
      rewrite (IH w' eq_refl). destruct d'; reflexivity.
Qed.

Lemma unsigned_text_inj (f : nat) (a b : string) (n : N) :
  unsigned_text f a = Some n -> unsigned_text f b = Some n -> a = b.
Proof.
  unfold unsigned_text.
  destruct (split_point a) as [wa da] eqn:Sa. destruct (split_point b) as [wb db] eqn:Sb.
  apply split_point_inv in Sa, Sb. subst a b.
  destruct (canonical wa) eqn:Ca; [|discriminate].
  destruct (canonical wb) eqn:Cb; [|discriminate].
  destruct (parse_digits 0 wa) as [va|] eqn:Pa; [|discriminate].
  destruct (parse_digits 0 wb) as [vb|] eqn:Pb; [|intros _; discriminate].
  destruct da as [da|], db as [db|].
  - destruct ((0 <? f)%nat && (String.length da =? f)%nat) eqn:Ea; [|discriminate].
    destruct ((0 <? f)%nat && (String.length db =? f)%nat) eqn:Eb; [|intros _; discriminate].
    apply andb_true_iff in Ea as [_ Ea], Eb as [_ Eb]. apply Nat.eqb_eq in Ea, Eb.
    destruct (parse_digits 0 da) as [xa|] eqn:Qa; [|discriminate].
    destruct (parse_digits 0 db) as [xb|] eqn:Qb; [|intros _; discriminate].
    intros [= Ha] [= Hb].
    pose proof (parse_digits_below da xa Qa) as Ba.
    pose proof (parse_digits_below db xb Qb) as Bb.
    rewrite Ea in Ba. rewrite Eb in Bb. set (k := (10 ^ N.of_nat f)%N) in *.
    assert (va = vb /\ xa = xb) as [-> ->].
    { apply (N.div_mod_unique k); [exact Ba | exact Bb | lia]. }
    rewrite (canonical_inj wa wb vb Ca Cb Pa Pb).
    rewrite (parse_digits_inj da db xb); [reflexivity | lia | exact Qa | exact Qb].
  - destruct ((0 <? f)%nat && (String.length da =? f)%nat) eqn:Ea; [|discriminate].
    apply andb_true_iff in Ea as [Ea _]. apply Nat.ltb_lt in Ea.
    destruct (Nat.eqb_spec f 0); [lia|]. intros _. discriminate.
  - destruct (Nat.eqb_spec f 0) as [->|]; [|discriminate]. intros _. cbn. discriminate.
  - destruct (f =? 0)%nat; [|discriminate]. intros [= Ha] [= Hb]. subst va vb.
    apply (canonical_inj wa wb n Ca Cb Pa Pb).
Qed.

(** A sign and a number have one text with [f] decimals. *)
Lemma decimal_text_inj (f : nat) (a b : string) (r : bool * N) :
  decimal_text f a = Some r -> decimal_text f b = Some r -> a = b.
Proof.
  unfold decimal_text. destruct a as [|c a]; [discriminate|].
  destruct b as [|c' b]; [intros _; discriminate|].
  destruct (Ascii.eqb_spec c "-") as [->|Hc], (Ascii.eqb_spec c' "-") as [->|Hc'].
  - destruct (unsigned_text f a) as [n|] eqn:Ua; [|discriminate].
    destruct (unsigned_text f b) as [n'|] eqn:Ub; [|intros _; discriminate].
    cbn. intros [= <-] [= ->]. f_equal. apply (unsigned_text_inj f a b n Ua Ub).
  - destruct (unsigned_text f a) as [n|]; [|discriminate].
    destruct (unsigned_text f (String c' b)) as [n'|]; [|intros _; discriminate].
    cbn. intros [= <-]. discriminate.
  - destruct (unsigned_text f (String c a)) as [n|]; [|discriminate].
    destruct (unsigned_text f b) as [n'|]; [|intros _; discriminate].
    cbn. intros [= <-]. discriminate.
  - destruct (unsigned_text f (String c a)) as [n|] eqn:Ua; [|discriminate].
    destruct (unsigned_text f (String c' b)) as [n'|] eqn:Ub; [|intros _; discriminate].
    cbn. intros [= <-] [= ->]. apply (unsigned_text_inj f _ _ n Ua Ub).
Qed.

(** A number has one text with [f] decimals. *)
Lemma with_decimals_unique (f : nat) (x : Q) (a b : string) :
  with_decimals f x a -> with_decimals f x b -> a = b.
Proof.
  intros (n & Ta & La & Ua) (m & Tb & Lb & Ub).
  assert (n = m) as ->.
  { assert (inject_Z (Z.of_N n) < inject_Z (Z.of_N m) + 1)%Q as H1 by lra.
    assert (inject_Z (Z.of_N m) < inject_Z (Z.of_N n) + 1)%Q as H2 by lra.
    change 1%Q with (inject_Z 1) in H1, H2. rewrite <- inject_Z_plus in H1, H2.
    rewrite <- Zlt_Qlt in H1, H2. lia. }
  apply (decimal_text_inj f a b _ Ta Tb).
Qed.

End DecimalProps.

(** ** The request layer *)

Module ApiProps.

Import Api.

Section WithToString.

Variable Number_toString : Q -> string.

Local Abbreviation formatCurrency := (Api.formatCurrency Number_toString).
Local Abbreviation toFixed := (Api.toFixed Number_toString).
Local Abbreviation request := (Api.fetchAnomalies_request Number_toString).
Local Abbreviation toString := (Api.num_toString Number_toString).


(** Below 10^21 the text of [toFixed] is the number with [f] decimals. *)
Lemma toFixed_with_decimals (q : Q) (f : nat) :
  (Qabs q < e10 21)%Q -> with_decimals f q (toFixed (Num.Fin q) f).
Proof.
  intros Hsmall. unfold Api.toFixed.
  assert (Qle_bool (e10 21) (Qabs q) = false) as ->.
  { destruct (Qle_bool (e10 21) (Qabs q)) eqn:E; [|reflexivity].
    apply Qle_bool_iff in E. exfalso. apply (Qlt_not_le _ _ Hsmall E). }
  set (y := (Qabs q * e10 f + (1 # 2))%Q).
  assert (0 <= Qabs q * e10 f)%Q as Hy.
  { apply Qmult_le_0_compat; [apply Qabs_nonneg|].
    unfold e10. change 0%Q with (inject_Z 0). rewrite <- Zle_Qle.
    apply Z.pow_nonneg. lia. }
  assert (0 <= Qfloor y)%Z as Hn.
  { change 0%Z with (Qfloor 0) at 1. apply Qfloor_resp_le. subst y. lra. }
  exists (Z.to_N (Qfloor y)). rewrite Z2N.id by exact Hn.
  pose proof (Qfloor_le y) as H1. pose proof (Qlt_floor y) as H2.
  rewrite inject_Z_plus in H2. change (inject_Z 1) with 1%Q in H2.
  split; [|subst y; split; lra].
  pose proof (DecimalProps.unsigned_text_fixed (Qfloor y) f) as U.
  unfold decimal_text.
  destruct (Num.is_neg q).
  - rewrite Text.append_cons, Text.append_nil.
    change (Ascii.eqb "-" "-") with true. cbv iota. rewrite U. reflexivity.
  - rewrite Text.append_nil.
    destruct (fixed_text (Qfloor y) f) as [|c rest] eqn:E.
    + discriminate U.
    + destruct (Ascii.eqb_spec c "-") as [->|_]; [|rewrite U; reflexivity].
      exfalso. unfold unsigned_text in U. cbn [split_point] in U.
      change (Ascii.eqb "-" ".") with false in U. cbv iota in U.
      destruct (split_point rest) as [w d].
      destruct (canonical (String "-" w)); [|discriminate U].
      cbn [JS.parse_digits] in U. change (JS.digit_of "-") with (@None N) in U.
      discriminate U.
Qed.

(** What a number between two thresholds divides to: a double from zero
    up to 1024. *)
Lemma fdiv_unit (q : Q) (k : nat) :
  (e10 k <= q)%Q -> (q < e10 (k + 3))%Q -> (0 < k)%nat ->
  exists x, Num.fdiv (Num.Fin q) (Num.Fin (e10 k)) = Num.Fin x /\
            (0 <= x)%Q /\ (x <= 1024)%Q.
Proof.
  intros Hlo Hhi Hk.
  assert (0 < e10 k)%Q as Pk.
  { unfold e10. change 0%Q with (inject_Z 0). rewrite <- Zlt_Qlt.
    apply Z.pow_pos_nonneg; lia. }
  assert (e10 (k + 3) == 1000 * e10 k)%Q as E.
  { unfold e10. rewrite Nat2Z.inj_add, Z.pow_add_r by lia.
    rewrite inject_Z_mult. change (inject_Z (10 ^ Z.of_nat 3)) with 1000%Q. ring. }
  unfold Num.fdiv, Num.div.
  rewrite (NumProps.is_zero_false _ Pk).
  destruct (NumProps.round_below (q / e10 k) 10) as (R & H0 & H1).
  - apply Qlt_shift_div_l; [exact Pk | lra].
  - apply Qle_shift_div_r; [exact Pk|].
    change (Num.pow2 10) with 1024%Q. rewrite E in Hhi. lra.
  - lia.
  - exists (Num.on_grid (q / e10 k)). split; [exact R|]. split; [exact H0 | exact H1].
Qed.

Lemma small_magnitude (x : Q) : (0 <= x)%Q -> (x <= 1024)%Q -> (Qabs x < e10 21)%Q.
Proof.
  intros H0 H1. rewrite (Qabs_pos x H0).
  change (e10 21) with (1000000000000000000000 # 1)%Q. lra.
Qed.

Lemma Qabs_nonneg_eq (x : Q) : (0 <= x)%Q -> Qabs x = x.
Proof.
  destruct x as [n d]. unfold Qle. simpl. intros H.
  unfold Qabs. f_equal. apply Z.abs_eq. lia.
Qed.

Lemma at_least (v : Num.num) (k : nat) :
  Num.ge v (Num.Fin (e10 k)) = true ->
  v = Num.PosInf \/ exists q, v = Num.Fin q /\ (e10 k <= q)%Q.
Proof.
  destruct v as [q| | |]; simpl; try discriminate; [|auto].
  intros H. right. exists q. split; [reflexivity | apply Qle_bool_iff, H].
Qed.

Lemma not_at_least (q : Q) (k : nat) :
  Num.ge (Num.Fin q) (Num.Fin (e10 k)) = false -> (q < e10 k)%Q.
Proof.
  simpl. intros H. apply Qnot_le_lt. intros L. apply Qle_bool_iff in L. congruence.
Qed.

(** C9.  [formatCurrency] is a function of its argument defined on
    [null], [undefined] and every number, and its result always begins
    with the dollar sign.  [null] and [undefined] give "$0".  A number of
    at least 1e9 gives the dollar sign, the value divided by 1e9 (the
    double the machine's division gives) with two decimals, and "B";
    otherwise at least 1e6, the value divided by 1e6 with one decimal and
    "M"; otherwise at least 1e3, the value divided by 1e3 with no
    decimals (and no point) and "K"; every other finite number the value
    itself with two decimals.  [with_decimals] says what the digits
    are, read back from the text, and leaves one text only
    ([with_decimals_unique]).  The values that have no decimals are
    spelled out: NaN gives "$NaN", the infinities "$InfinityB" and
    "$-Infinity", and a magnitude from 1e21 on is printed as [toString]
    prints it. *)
Theorem formatCurrency_cases (value : nullable_number) :
  (exists rest, formatCurrency value = String "$" rest) /\
  match value with
  | IsNull | IsUndefined => formatCurrency value = "$0"
  | IsNumber v =>
      (Num.ge v (Num.Fin (e10 9)) = true ->
       match Num.fdiv v (Num.Fin (e10 9)) with
       | Num.Fin x =>
           (0 <= x)%Q /\
           ((x < e10 21)%Q ->
            exists body, formatCurrency value = "$" +:+ body +:+ "B" /\
                         with_decimals 2 x body) /\
           ((e10 21 <= x)%Q ->
            formatCurrency value = "$" +:+ Number_toString x +:+ "B")
       | Num.PosInf => formatCurrency value = "$InfinityB"
       | Num.NaN | Num.NegInf => False
       end) /\
      (Num.ge v (Num.Fin (e10 9)) = false ->
       Num.ge v (Num.Fin (e10 6)) = true ->
       exists x body,
         Num.fdiv v (Num.Fin (e10 6)) = Num.Fin x /\
         formatCurrency value = "$" +:+ body +:+ "M" /\
         with_decimals 1 x body) /\
      (Num.ge v (Num.Fin (e10 6)) = false ->
       Num.ge v (Num.Fin (e10 3)) = true ->
       exists x body,
         Num.fdiv v (Num.Fin (e10 3)) = Num.Fin x /\
         formatCurrency value = "$" +:+ body +:+ "K" /\
         with_decimals 0 x body) /\
      (Num.ge v (Num.Fin (e10 3)) = false ->
       match v with
       | Num.Fin q =>
           ((Qabs q < e10 21)%Q ->
            exists body, formatCurrency value = "$" +:+ body /\
                         with_decimals 2 q body) /\
           ((e10 21 <= Qabs q)%Q ->
            formatCurrency value = "$-" +:+ Number_toString (Qabs q))
       | Num.NaN => formatCurrency value = "$NaN"
       | Num.NegInf => formatCurrency value = "$-Infinity"
       | Num.PosInf => False
       end)
  end.
Proof.
  split.
  - destruct value as [| |v]; simpl; eauto.
    repeat (match goal with |- context [if ?b then _ else _] => destruct b end);
      eexists; simpl; reflexivity.
  - destruct value as [| |v]; try reflexivity.
    pose proof (Text.e10_mono_ge v 6 9 ltac:(lia)) as H69.
    pose proof (Text.e10_mono_ge v 3 6 ltac:(lia)) as H36.
    unfold Api.formatCurrency.
    split; [|split; [|split]].
    + intros G9. rewrite G9.
      destruct (at_least v 9 G9) as [->|(q & -> & Hq)]; [reflexivity|].
      assert (0 < q / e10 9)%Q as Pq.
      { apply Qlt_shift_div_l; [reflexivity|].
        change (e10 9) with (1000000000 # 1)%Q in *. lra. }
      assert (Num.fdiv (Num.Fin q) (Num.Fin (e10 9)) = Num.round (q / e10 9)) as ->
        by reflexivity.
      unfold Num.round. rewrite (Qabs_nonneg_eq (q / e10 9)) by lra.
      rewrite (NumProps.is_zero_false _ Pq).
      assert (Num.is_neg (q / e10 9) = false) as ->.
      { unfold Num.is_neg.
        assert (Qle_bool 0 (q / e10 9) = true) as -> by (apply Qle_bool_iff; lra).
        reflexivity. }
      pose proof (NumProps.on_grid_nonneg _ Pq) as P0.
      set (x := Num.on_grid (q / e10 9)) in *.
      destruct (Qle_bool (Num.pow2 1024) x); [reflexivity|].
      split; [exact P0|]. split.
      * intros Hx. exists (toFixed (Num.Fin x) 2). split; [reflexivity|].
        apply toFixed_with_decimals. rewrite (Qabs_pos x P0). exact Hx.
      * intros Hx. unfold Api.toFixed. rewrite (Qabs_nonneg_eq x P0).
        apply Qle_bool_iff in Hx. rewrite Hx.
        assert (Num.is_neg x = false) as ->.
        { unfold Num.is_neg. apply Qle_bool_iff in P0. rewrite P0. reflexivity. }
        reflexivity.
    + intros G9 G6. rewrite G9, G6.
      destruct (at_least v 6 G6) as [->|(q & -> & Hq)]; [discriminate G9|].
      apply not_at_least in G9.
      destruct (fdiv_unit q 6 Hq G9 ltac:(lia)) as (x & Hx & H0 & H1).
      exists x, (toFixed (Num.Fin x) 1). rewrite Hx.
      split; [reflexivity|]. split; [reflexivity|].
      apply toFixed_with_decimals, small_magnitude; assumption.
    + intros G6 G3. rewrite G3, G6.
      destruct (Num.ge v (Num.Fin (e10 9))) eqn:G9; [specialize (H69 eq_refl); congruence|].
      destruct (at_least v 3 G3) as [->|(q & -> & Hq)]; [discriminate G6|].
      apply not_at_least in G6.
      destruct (fdiv_unit q 3 Hq G6 ltac:(lia)) as (x & Hx & H0 & H1).
      exists x, (toFixed (Num.Fin x) 0). rewrite Hx.
      split; [reflexivity|]. split; [reflexivity|].
      apply toFixed_with_decimals, small_magnitude; assumption.
    + intros G3. rewrite G3.
      destruct (Num.ge v (Num.Fin (e10 6))) eqn:G6; [specialize (H36 eq_refl); congruence|].
      destruct (Num.ge v (Num.Fin (e10 9))) eqn:G9; [specialize (H69 eq_refl); congruence|].
      destruct v as [q| | |]; [|reflexivity|discriminate G3|reflexivity].
      apply not_at_least in G3. split.
      * intros Hq. exists (toFixed (Num.Fin q) 2). split; [reflexivity|].
        apply toFixed_with_decimals, Hq.
      * intros Hq. unfold Api.toFixed.
        assert (Num.is_neg q = true) as ->.
        { unfold Num.is_neg. destruct (Qle_bool 0 q) eqn:E; [|reflexivity].
          apply Qle_bool_iff in E. rewrite (Qabs_pos q E) in Hq.
          change (e10 3) with (1000 # 1)%Q in G3.
          change (e10 21) with (1000000000000000000000 # 1)%Q in Hq. lra. }
        apply Qle_bool_iff in Hq. rewrite Hq. reflexivity.
Qed.

(** C7.  Every call of [fetchAnomalies] issues GET /api/anomalies with
    the parameters [limit] and [min_z_score], the texts of the two
    arguments (of the defaults 50 and 5 of the parameter list when one
    is left out), in this order, followed by [hcpcs_code] exactly when a
    code filter is supplied, that is, tested as the code tests it, when
    the third argument is a string that is not empty; nothing else is
    sent. *)
Theorem fetchAnomalies_query
    (limit minZScore : option Num.num) (hcpcsCode : option string) :
  method (request limit minZScore hcpcsCode) = "GET" /\
  path (request limit minZScore hcpcsCode) = "/api/anomalies" /\
  body (request limit minZScore hcpcsCode) = None /\
  query (request limit minZScore hcpcsCode) =
    [("limit", toString (default (Num.Fin 50) limit));
     ("min_z_score", toString (default (Num.Fin 5) minZScore))] ++
    match hcpcsCode with
    | Some code => if String.eqb code "" then [] else [("hcpcs_code", code)]
    | None => []
    end.
Proof.
  repeat split.
  destruct hcpcsCode as [code|]; simpl; [|reflexivity].
  destruct (String.eqb code ""); reflexivity.
Qed.

End WithToString.

Lemma formatCurrency_cases_witness :
  exists x body,
    Num.fdiv (Num.Fin 1150000) (Num.Fin (e10 6)) = Num.Fin x /\
    formatCurrency decimal_toString (IsNumber (Num.Fin 1150000)) =
      "$" +:+ body +:+ "M" /\
    with_decimals 1 x body.
Proof.
  refine (proj1 (proj2 (proj2
            (formatCurrency_cases decimal_toString (IsNumber (Num.Fin 1150000)))))
            _ _); reflexivity.
Defined.

(** 1005000000 / 1e9 and 1150000 / 1e6 are the doubles just below 1.005
    and 1.15, so they print as 1.00 and 1.1. *)
Example formatCurrency_samples :
  map (fun q => formatCurrency decimal_toString (IsNumber (Num.Fin q)))
      [1234567890; 1005000000; 1234567; 1150000; 999999; 1234; 999; 0; -5;
       5 # 1000]%Q
  = ["$1.23B"; "$1.00B"; "$1.2M"; "$1.1M"; "$1000K"; "$1K"; "$999.00"; "$0.00";
     "$-5.00"; "$0.01"]
  /\ formatCurrency decimal_toString IsNull = "$0"
  /\ formatCurrency decimal_toString (IsNumber Num.NaN) = "$NaN"
  /\ formatCurrency decimal_toString (IsNumber Num.PosInf) = "$InfinityB"
  /\ formatCurrency decimal_toString (IsNumber Num.NegInf) = "$-Infinity".
Proof. repeat split; vm_compute; reflexivity. Qed.

Example fetchAnomalies_samples :
  query (fetchAnomalies_request decimal_toString None None None)
  = [("limit", "50"); ("min_z_score", "5")] /\
  query (fetchAnomalies_request decimal_toString
           (Some (Num.Fin 25)) (Some (Num.Fin (5 # 2))) (Some "97153"))
  = [("limit", "25"); ("min_z_score", "2.5"); ("hcpcs_code", "97153")].
Proof. split; vm_compute; reflexivity. Qed.

(** The page passes [codeFilter || undefined]: an empty filter field is
    no filter, and no [hcpcs_code] goes out. *)
Example fetchAnomalies_without_filter :
  query (fetchAnomalies_request decimal_toString
           (Some (Num.Fin 50)) (Some (Num.Fin 5)) None)
  = [("limit", "50"); ("min_z_score", "5")].
Proof. vm_compute. reflexivity. Qed.

End ApiProps.

(** ** The chat page *)

Module ChatProps.

Import JS Chat.

Lemma message_text_empty (text : option string) (inp : string) :
  no_text text -> all_white_space inp -> message_text text inp = "".
Proof. intros [-> | ->] H; simpl; apply Text.trim_white, H. Qed.

Lemma handleSend_begin_sends (st : state) (text : option string) :
  loading st = false -> message_text text (input st) <> "" ->
  handleSend_begin st text =
    ({| messages := messages st ++ [user_message (message_text text (input st))];
        input := ""; loading := true |},
     Some (Api.sendChatMessage_request (message_text text (input st))
             (history_of (messages st)))).
Proof.
  intros Hl Hm. unfold handleSend_begin. rewrite Hl.
  apply Text.truthy_Str in Hm. rewrite Hm. reflexivity.
Qed.

(** A call right after a render: the closure is the current state. *)
Lemma handleSend_call_fresh (st : state) (text : option string) :
  handleSend_call st st text = handleSend_begin st text.
Proof. reflexivity. Qed.

Lemma handleSend_call_guarded (closure current : state) (text : option string) :
  loading closure = true \/ (no_text text /\ all_white_space (input closure)) ->
  handleSend_call closure current text = (current, None).
Proof.
  intros H. unfold handleSend_call. destruct H as [-> | [Ht Hw]].
  - rewrite orb_true_r. reflexivity.
  - rewrite (message_text_empty _ _ Ht Hw). reflexivity.
Qed.

Lemma transcript_of_snoc (done : list exchange) (e : exchange) :
  transcript_of (done ++ [e]) = transcript_of done ++ turns_of e.
Proof. unfold transcript_of. rewrite flat_map_app. reflexivity. Qed.

Lemma paced_step (called : bool) (p : page) (e : event) (done : list exchange) :
  paced called [e] = true -> orphaned p = [] ->
  settled called p done \/ (exists t, waiting called p done t) ->
  orphaned (step p e) = [] /\
  exists done',
    settled (called_after called [e]) (step p e) done' \/
    (exists t, waiting (called_after called [e]) (step p e) done' t).
Proof.
  intros Hp Ho H. destruct e as [text | | n duration r | s | | n]; simpl in Hp.
  - (* Call *)
    destruct called; [discriminate|]. simpl.
    unfold handleSend_call.
    destruct (negb _ || loading (shown p)) eqn:G; simpl.
    + split; [exact Ho|]. exists done. rewrite app_nil_r.
      destruct H as [(Hq & Hl & Hm & _) | (t & Hq & Hl & Ht & Hm & _)].
      * left. repeat split; auto. intros; discriminate.
      * right. exists t. repeat split; auto.
    + split; [exact Ho|]. exists done.
      apply orb_false_iff in G as [G Hs].
      apply negb_false_iff, Text.truthy_Str in G.
      destruct H as [(Hq & Hl & Hm & Hseen) | (t & _ & _ & _ & _ & [Hc | Hc])];
        [|discriminate | congruence].
      right. exists (message_text text (input (shown p))).
      unfold waiting. simpl. rewrite Hq. rewrite (Hseen eq_refl Hs). rewrite Hm.
      repeat split; auto.
  - (* Render *)
    simpl. split; [exact Ho|]. exists done.
    destruct H as [(Hq & Hl & Hm & _) | (t & Hq & Hl & Ht & Hm & _)].
    + left. repeat split; auto.
    + right. exists t. repeat split; auto.
  - (* Settle *)
    simpl. destruct (nth_error (in_flight p) n) as [req|] eqn:E.
    + simpl. split; [exact Ho|].
      destruct H as [(Hq & _) | (t & Hq & Hl & Ht & Hm & Hc)].
      * rewrite Hq in E. destruct n; discriminate.
      * exists (done ++ [(t, (duration, r))]). left.
        rewrite Hq in *. destruct n as [|[|n]]; try discriminate.
        unfold settled. simpl. repeat split.
        -- rewrite transcript_of_snoc, Hm, <- app_assoc. reflexivity.
        -- destruct Hc as [-> | ->]; discriminate.
    + split; [exact Ho|]. exists done. exact H.
  - (* Typing *)
    simpl. destruct (loading (shown p)) eqn:Hs.
    + split; [exact Ho|]. exists done. exact H.
    + simpl. split; [exact Ho|]. exists done.
      destruct H as [(Hq & Hl & Hm & Hseen) | (t & Hq & Hl & Ht & Hm & Hc)].
      * left. repeat split; auto.
      * right. exists t. repeat split; auto.
  - discriminate.
  - (* Forget *)
    simpl. rewrite Ho. split; [destruct n; reflexivity|]. exists done.
    destruct H as [(Hq & Hl & Hm & Hseen) | (t & Hq & Hl & Ht & Hm & Hc)].
    + left. repeat split; auto.
    + right. exists t. repeat split; auto.
Qed.

Lemma paced_cons (called : bool) (e : event) (events : list event) :
  paced called (e :: events) = true ->
  paced called [e] = true /\ paced (called_after called [e]) events = true.
Proof.
  destruct e; simpl; try tauto; try discriminate.
  destruct called; simpl; [discriminate | tauto].
Qed.

Lemma paced_run (events : list event) :
  forall (called : bool) (p : page) (done : list exchange),
    paced called events = true -> orphaned p = [] ->
    settled called p done \/ (exists t, waiting called p done t) ->
    orphaned (run p events) = [] /\
    exists done',
      settled (called_after called events) (run p events) done' \/
      (exists t, waiting (called_after called events) (run p events) done' t).
Proof.
  induction events as [|e events IH]; intros called p done Hp Ho H.
  - simpl. split; [exact Ho|]. exists done. exact H.
  - apply paced_cons in Hp as [He Hrest].
    destruct (paced_step called p e done He Ho H) as (Ho' & done' & H').
    assert (called_after called (e :: events) =
            called_after (called_after called [e]) events) as ->
      by (destruct e; reflexivity).
    apply (IH _ (step p e) done' Hrest Ho' H').
Qed.

Lemma paced_from_start (events : list event) :
  paced false events = true ->
  orphaned (run start events) = [] /\
  exists done,
    settled (called_after false events) (run start events) done \/
    (exists t, waiting (called_after false events) (run start events) done t).
Proof.
  intros Hp. apply (paced_run events false start [] Hp eq_refl).
  left. repeat split.
Qed.

(** C10, as the code has it.  A call of [handleSend] whose render saw
    [loading] true, or without explicit text while the input that
    render saw holds nothing but white space, returns without sending a
    request and leaves the state, and so the messages and the input
    field, as they were.  In consequence a page that is rendered
    between any two calls of [handleSend], as React renders it between
    two user events, and that is not remounted, never has more than one
    chat request in flight. *)
Theorem handleSend_guard :
  (forall (st : state) (text : option string),
      loading st = true \/ (no_text text /\ all_white_space (input st)) ->
      handleSend_begin st text = (st, None) /\
      forall duration server, handleSend st text duration server = st) /\
  (forall (closure current : state) (text : option string),
      loading closure = true \/ (no_text text /\ all_white_space (input closure)) ->
      handleSend_call closure current text = (current, None)) /\
  (forall events : list event,
      paced false events = true ->
      (length (requests (run start events)) <= 1)%nat).
Proof.
  split; [|split].
  - intros st text H.
    assert (handleSend_begin st text = (st, None)) as E
      by (rewrite <- handleSend_call_fresh; apply handleSend_call_guarded, H).
    split; [exact E|]. intros. unfold handleSend. rewrite E. reflexivity.
  - apply handleSend_call_guarded.
  - intros events Hp. unfold requests.
    destruct (paced_from_start events Hp)
      as (-> & done & [(-> & _) | (t & -> & _)]); simpl; lia.
Qed.

Lemma handleSend_guard_witness :
  handleSend_begin {| messages := []; input := "  "; loading := false |} None
    = ({| messages := []; input := "  "; loading := false |}, None) /\
  handleSend_call after_one_exchange initial None = (initial, None) /\
  (length (requests (run start second_question)) <= 1)%nat.
Proof.
  split; [|split].
  - apply (proj1 handleSend_guard). right. split.
    + left. reflexivity.
    + repeat constructor.
  - apply (proj1 (proj2 handleSend_guard)). right. split.
    + left. reflexivity.
    + repeat constructor.
  - apply (proj2 (proj2 handleSend_guard)). reflexivity.
Defined.

(** C10 as it is written fails: the handlers of one render all see the
    [loading] of that render, so two calls made before the page is
    rendered again both pass the guard and two requests are in flight;
    and a page that is mounted again while its request is pending sends
    a second one. *)
Lemma two_requests_in_flight_counterexample :
  length (requests (run start double_call)) = 2%nat /\
  length (requests (run start question_after_remount)) = 2%nat.
Proof. split; reflexivity. Qed.

(** C4.  When the page is idle, there is a message to send and the
    request fails (the service is unreachable, the connection is cut, or
    the reply is no success), the handler leaves the transcript it found
    untouched and appends the user turn followed by exactly one
    assistant turn, whose [error] is "Failed to get response. Please try
    again." and whose narrative is empty, and which the page shows as
    that error and nothing else; the input is cleared and the page is
    idle again. *)
Theorem handleSend_failure (st : state) (text : option string)
    (duration : option string) (server : Api.request -> Api.response)
    (e : Api.error) :
  loading st = false ->
  message_text text (input st) <> "" ->
  Api.sendChatMessage_result
    (server (Api.sendChatMessage_request (message_text text (input st))
               (history_of (messages st)))) = Api.Thrown e ->
  messages (handleSend st text duration server) =
    messages st ++ [user_message (message_text text (input st)); error_message] /\
  assistant_turns (messages (handleSend st text duration server)) =
    assistant_turns (messages st) ++ [error_message] /\
  error_message !! "error" = Some (Str "Failed to get response. Please try again.") /\
  error_message !! "narrative" = Some (Str "") /\
  (forall sqlExpanded,
     ChatMessage error_message sqlExpanded =
       [ErrorBanner (Str "Failed to get response. Please try again.")]) /\
  input (handleSend st text duration server) = "" /\
  loading (handleSend st text duration server) = false.
Proof.
  intros Hl Hm Hfail. unfold handleSend.
  rewrite (handleSend_begin_sends st text Hl Hm).
  unfold handleSend_settle, settled_turn. rewrite Hfail. simpl.
  rewrite <- app_assoc. simpl. split; [reflexivity|].
  split; [|repeat split; try reflexivity; intros []; vm_compute; reflexivity].
  unfold assistant_turns. rewrite List.filter_app. f_equal.
Qed.

Lemma handleSend_failure_witness :
  messages (handleSend retry_state None (Some "0.4") (fun _ => Api.Unreachable)) =
    messages retry_state ++ [user_message "total spending?"; error_message].
Proof.
  refine (proj1 (handleSend_failure retry_state None (Some "0.4")
                   (fun _ => Api.Unreachable) Api.NetworkError _ _ _)).
  - reflexivity.
  - vm_compute. discriminate.
  - reflexivity.
Defined.

(** A reply whose body is [null] ends in the same error turn: reading
    [result.narrative] raises inside the [try]. *)
Example null_body_is_a_failure :
  settled_turn (Some "0.1") (Api.Reply true (Some Null)) = error_message.
Proof. reflexivity. Qed.

End ChatProps.

(** ** The transcript: what is shown and what is sent back *)

Module TranscriptProps.

Import JS Chat.

Lemma leftover_no_rows (v : value) :
  Forall (fun n => shows_rows n = false) (leftover v).
Proof. destruct v; repeat constructor. Qed.

Lemma leftover_no_error (v : value) :
  Forall (fun n => shows_error n = false) (leftover v).
Proof. destruct v; repeat constructor. Qed.

Ltac children :=
  repeat (apply Forall_app; split); repeat case_match;
  try apply leftover_no_rows; try apply leftover_no_error;
  repeat (first [apply List.Forall_nil | apply List.Forall_cons; [reflexivity|]]).



Example empty_turn_rendered :
  ChatMessage empty_turn false =
    [SqlSection (Str "SELECT * FROM claims WHERE paid < 0 LIMIT 1000") false;
     Narrative (Str "No claim matches.");
     ElapsedTime (Str "0.2s")].
Proof. vm_compute. reflexivity. Qed.

(** C6, as the code has it.  Each turn placed into the history of a
    chat request carries two properties and no other: [role], copied
    from the turn, and [content], which is the turn's content for a user
    turn and otherwise its narrative, or else its content, or else the
    empty string.  The request carries the message text and one such
    entry per turn of the transcript, in order. *)
Theorem history_carries_role_and_content (st : state) (text : option string) :
  (forall m : object,
     dom (history_entry m) = ({["role"; "content"]} : gset string) /\
     history_entry m !! "role" = Some (prop m "role") /\
     history_entry m !! "content" =
       Some (if is_str (prop m "role") "user" then prop m "content"
             else or_else (or_else (prop m "narrative") (prop m "content"))
                          (Str ""))) /\
  (forall st' req,
     handleSend_begin st text = (st', Some req) ->
     Api.body req =
       Some {| Api.message := message_text text (input st);
               Api.history := map history_entry (messages st) |}).
Proof.
  split.
  - intros m. unfold history_entry. simpl. split; [|split].
    + rewrite !dom_insert_L, dom_empty_L. set_solver.
    + reflexivity.
    + rewrite lookup_insert_ne by discriminate. rewrite lookup_insert_eq.
      reflexivity.
  - intros st' req. unfold handleSend_begin.
    destruct (negb _ || loading st); intros [= <- <-]. reflexivity.
Qed.

Lemma history_carries_role_and_content_witness :
  exists st' req,
    handleSend_begin after_one_exchange (Some "And providers?") = (st', Some req) /\
    Api.body req =
      Some {| Api.message := "And providers?";
              Api.history := map history_entry (messages after_one_exchange) |}.
Proof.
  eexists _, _. split; [reflexivity|].
  exact (proj2 (history_carries_role_and_content after_one_exchange
                  (Some "And providers?")) _ _ eq_refl).
Defined.

(** C6 read for the query, the rows and the visualization kind fails:
    after one answered question the transcript holds an assistant turn
    with all three, and the entry the next request sends for that turn
    has none of them. *)
Lemma history_drops_assistant_fields_counterexample :
  exists (turn : object) (st' : state) (req : Api.request)
         (sent : Api.chat_body) (entry : object),
    messages after_one_exchange !! 1%nat = Some turn /\
    turn !! "role" = Some (Str "assistant") /\
    turn !! "sql" = Some (Str "SELECT COUNT(*) AS n FROM claims LIMIT 1000") /\
    turn !! "results" = Some (Arr [Obj [("n", Num (Num.Fin 7))]]) /\
    turn !! "visualization" = Some (Str "number") /\
    handleSend_begin after_one_exchange (Some "And providers?") = (st', Some req) /\
    Api.body req = Some sent /\
    Api.history sent !! 1%nat = Some entry /\
    entry !! "role" = Some (Str "assistant") /\
    entry !! "sql" = None /\
    entry !! "results" = None /\
    entry !! "visualization" = None.
Proof.
  do 5 eexists. repeat split; vm_compute; reflexivity.
Qed.

End TranscriptProps.

(** ** The trends page *)

Module TrendsProps.

Import JS Trends.


Section ObjectOrder.
Context {V : Type}.
Implicit Types (o : list (string * V)) (k : string) (v : V).

Lemma obj_get_None o k : obj_get o k = None <-> ~ In k (obj_keys o).
Proof.
  unfold obj_get, obj_keys. induction o as [|[k' v'] o IH]; simpl.
  - tauto.
  - destruct (String.eqb_spec k' k) as [->|Hne]; simpl.
    + split; [discriminate | tauto].
    + rewrite IH. tauto.
Qed.

Lemma insert_index_splits (n : N) k v o :
  exists front back, o = front ++ back /\ insert_index n k v o = front ++ (k, v) :: back.
Proof.
  induction o as [|[k' v'] o (front & back & Ho & Hi)]; simpl.
  - exists [], []. split; reflexivity.
  - destruct (array_index k') as [n'|].
    + destruct (n' <? n)%N.
      * exists ((k', v') :: front), back. simpl. rewrite Hi, <- Ho. split; reflexivity.
      * exists [], ((k', v') :: o). split; reflexivity.
    + exists [], ((k', v') :: o). split; reflexivity.
Qed.

Lemma obj_define_splits k v o :
  exists front back, o = front ++ back /\ obj_define k v o = front ++ (k, v) :: back.
Proof.
  unfold obj_define. destruct (array_index k) as [n|].
  - apply insert_index_splits.
  - exists o, []. rewrite app_nil_r. split; reflexivity.
Qed.

End ObjectOrder.

(** Updating the entry of [k] in an object whose values are given by [E]
    key by key. *)
Lemma obj_update_tabulated {V : Type} (k : string) (f : V -> V) (E E' : string -> V)
    (o : list (string * V)) :
  NoDup (obj_keys o) ->
  Forall (fun p => snd p = E (fst p)) o ->
  f (E k) = E' k -> (forall y, y <> k -> E y = E' y) ->
  Forall (fun p => snd p = E' (fst p)) (obj_update k f o) /\
  obj_keys (obj_update k f o) = obj_keys o.
Proof.
  intros Hnd Hall Hk Hother.
  induction o as [|[y v] o IH]; simpl; [split; [constructor | reflexivity]|].
  simpl in Hnd. apply NoDup_cons in Hnd as [Hy Hnd].
  apply Forall_cons in Hall as [Hv Hall]. simpl in Hv. subst v.
  destruct (String.eqb_spec y k) as [->|Hne].
  - split; [|reflexivity]. apply Forall_cons. split; [exact Hk|].
    apply Forall_forall. intros [y v] Hin.
    rewrite Forall_forall in Hall. rewrite (Hall _ Hin). simpl.
    apply Hother. intros ->. apply Hy.
    apply list_elem_of_In. apply list_elem_of_In in Hin.
    unfold obj_keys. apply (in_map fst) in Hin. exact Hin.
  - destruct (IH Hnd Hall) as [IH1 IH2]. split.
    + apply Forall_cons. split; [simpl; auto | exact IH1].
    + simpl. rewrite IH2. reflexivity.
Qed.

Lemma in_year_snoc (y : string) (l : list MonthlyTrend) (t : MonthlyTrend) :
  in_year y (l ++ [t]) =
    in_year y l ++ (if String.eqb (year_of t) y then [t] else []).
Proof. unfold in_year. rewrite List.filter_app. reflexivity. Qed.

Lemma entry_of_other (l : list MonthlyTrend) (t : MonthlyTrend) (y : string) :
  y <> year_of t -> entry_of l y = entry_of (l ++ [t]) y.
Proof.
  intros Hne. unfold entry_of, spending_in, claims_in, months_in.
  rewrite in_year_snoc.
  destruct (String.eqb_spec (year_of t) y) as [E|_]; [congruence|].
  rewrite app_nil_r. reflexivity.
Qed.

Lemma entry_of_same (l : list MonthlyTrend) (t : MonthlyTrend) :
  {| year := year (entry_of l (year_of t));
     spending := spending (entry_of l (year_of t)) + total_paid t;
     claims := claims (entry_of l (year_of t)) + total_claims t;
     months := months (entry_of l (year_of t)) + 1 |}
  = entry_of (l ++ [t]) (year_of t).
Proof.
  unfold entry_of, spending_in, claims_in, months_in. simpl.
  rewrite in_year_snoc, String.eqb_refl.
  rewrite !map_app, !fold_left_app, length_app. reflexivity.
Qed.

Lemma in_year_absent (l : list MonthlyTrend) (y : string) :
  (forall t, In t l -> year_of t <> y) -> in_year y l = [].
Proof.
  induction l as [|t l IH]; simpl; intros H; [reflexivity|].
  destruct (String.eqb_spec (year_of t) y) as [E|_].
  - exfalso. apply (H t); auto.
  - apply IH. intros t' Ht'. apply H. auto.
Qed.

Lemma yearlyData_snoc (l : list MonthlyTrend) (t : MonthlyTrend) :
  yearlyData (l ++ [t]) = add_month (yearlyData l) t.
Proof. unfold yearlyData. rewrite fold_left_app. reflexivity. Qed.

(** The first half of the loop body: after [if (!yearlyData[year]) ...]
    the object has an entry for the year, and still tabulates [l]. *)
Lemma ensure_entry (l : list MonthlyTrend) (yd : list (string * yearly)) (key : string) :
  tabulated l yd ->
  let yd1 :=
    match obj_get yd key with
    | Some _ => yd
    | None => obj_set key {| year := key; spending := 0; claims := 0; months := 0 |} yd
    end in
  tabulated l yd1 /\ In key (obj_keys yd1).
Proof.
  intros (Hall & Hnd & Hcov). simpl.
  destruct (obj_get yd key) as [e|] eqn:Hget.
  - split; [repeat split; assumption|].
    destruct (in_dec string_dec key (obj_keys yd)) as [H|H]; [exact H|].
    apply obj_get_None in H. congruence.
  - unfold obj_set. rewrite Hget.
    apply obj_get_None in Hget.
    destruct (obj_define_splits key
                {| year := key; spending := 0; claims := 0; months := 0 |} yd)
      as (front & back & Hyd & ->).
    subst yd. unfold tabulated, obj_keys in *. rewrite !map_app in *. simpl.
    apply Forall_app in Hall as [Hf Hb].
    split; [repeat split|].
    + apply Forall_app. split; [exact Hf|]. apply Forall_cons. split; [|exact Hb].
      simpl. unfold entry_of, spending_in, claims_in, months_in.
      rewrite in_year_absent; [reflexivity|].
      intros t Ht E. apply Hget. rewrite <- E. apply Hcov, Ht.
    + rewrite <- Permutation_middle. apply NoDup_cons. split; [|exact Hnd].
      rewrite list_elem_of_In. exact Hget.
    + intros t Ht. specialize (Hcov t Ht). rewrite in_app_iff in *. simpl. tauto.
    + rewrite in_app_iff. simpl. tauto.
Qed.

Lemma add_month_tabulated (l : list MonthlyTrend) (yd : list (string * yearly))
    (t : MonthlyTrend) :
  tabulated l yd -> tabulated (l ++ [t]) (add_month yd t).
Proof.
  intros Htab. unfold add_month. fold (year_of t).
  destruct (ensure_entry l yd (year_of t) Htab) as [(Hall & Hnd & Hcov) Hin].
  set (yd1 := match obj_get yd (year_of t) with Some _ => yd | None => _ end) in *.
  destruct (obj_update_tabulated (year_of t)
              (fun y => {| year := year y;
                           spending := spending y + total_paid t;
                           claims := claims y + total_claims t;
                           months := months y + 1 |})
              (entry_of l) (entry_of (l ++ [t])) yd1 Hnd Hall)
    as [Hall' Hkeys].
  - apply entry_of_same.
  - intros y Hy. apply entry_of_other. exact Hy.
  - repeat split.
    + exact Hall'.
    + rewrite Hkeys. exact Hnd.
    + rewrite Hkeys. intros t' Ht'. apply in_app_iff in Ht' as [Ht'|[<-|[]]].
      * apply Hcov, Ht'.
      * exact Hin.
Qed.

Lemma yearlyData_tabulated (l : list MonthlyTrend) : tabulated l (yearlyData l).
Proof.
  induction l as [|t l IH] using rev_ind.
  - repeat split; [constructor | constructor | intros t []].
  - rewrite yearlyData_snoc. apply add_month_tabulated, IH.
Qed.


Lemma filter_tabulated (E : string -> yearly) (o : list (string * yearly)) :
  Forall (fun p => snd p = E (fst p)) o ->
  List.filter (fun y => (6 <=? months y)%nat) (map snd o) =
  map E (List.filter (fun y => (6 <=? months (E y))%nat) (map fst o)).
Proof.
  induction 1 as [|[y e] o He _ IH]; [reflexivity|].
  simpl in He. subst e. cbn [map List.filter fst snd]. rewrite IH.
  destruct (6 <=? months (E y))%nat; reflexivity.
Qed.

Lemma yearlyArr_tabulated (trends : list MonthlyTrend) :
  yearlyArr trends = map (entry_of trends) (qualifying trends).
Proof.
  destruct (yearlyData_tabulated trends) as (Hall & _ & _).
  apply (filter_tabulated (entry_of trends)), Hall.
Qed.

Lemma getGrowth_short (arr : list yearly) :
  (length arr < 2)%nat -> getGrowth arr = None.
Proof.
  intros H. unfold getGrowth.
  destruct (Nat.ltb_spec (length arr) 2); [reflexivity | lia].
Qed.

Lemma getGrowth_last_two (earlier : list yearly) (prev last : yearly) :
  getGrowth (earlier ++ [prev; last]) =
    Some {| spendGrowth :=
              percent_change
                (Num.div (Num.Fin (spending prev)) (Num.of_nat (months prev)))
                (Num.div (Num.Fin (spending last)) (Num.of_nat (months last)));
            lastYear := year last;
            prevYear := year prev |}.
Proof.
  unfold getGrowth. rewrite length_app. simpl.
  destruct (Nat.ltb_spec (length earlier + 2) 2) as [H|_]; [lia|].
  replace (length earlier + 2 - 1)%nat with (length earlier + 1)%nat by lia.
  replace (length earlier + 2 - 2)%nat with (length earlier + 0)%nat by lia.
  rewrite !nth_error_app2 by lia.
  replace (length earlier + 1 - length earlier)%nat with 1%nat by lia.
  replace (length earlier + 0 - length earlier)%nat with 0%nat by lia.
  reflexivity.
Qed.

Lemma last_two {A : Type} (l : list A) :
  (2 <= length l)%nat -> exists earlier prev last, l = earlier ++ [prev; last].
Proof.
  intros H. destruct l as [|last l] using rev_ind; [simpl in H; lia|].
  clear IHl. destruct l as [|prev l] using rev_ind.
  - simpl in H. lia.
  - exists l, prev, last. rewrite <- app_assoc. reflexivity.
Qed.

Lemma qualifying_iff (trends : list MonthlyTrend) (y : string) :
  In y (qualifying trends) <->
  (6 <= months_in y trends)%nat.
Proof.
  unfold qualifying. rewrite List.filter_In. split; [intros [_ H]; apply Nat.leb_le, H|].
  intros H. split; [|apply Nat.leb_le, H].
  destruct (yearlyData_tabulated trends) as (_ & _ & Hcov).
  unfold months_in in H. destruct (in_year y trends) as [|t rest] eqn:E; [simpl in H; lia|].
  assert (In t (in_year y trends)) as Hin by (rewrite E; left; reflexivity).
  apply List.filter_In in Hin as [Hin Hy].
  apply String.eqb_eq in Hy. subst y. apply Hcov, Hin.
Qed.

Lemma qualifying_NoDup (trends : list MonthlyTrend) : NoDup (qualifying trends).
Proof.
  destruct (yearlyData_tabulated trends) as (_ & Hnd & _).
  unfold qualifying. apply NoDup_ListNoDup. apply List.NoDup_filter.
  apply NoDup_ListNoDup. exact Hnd.
Qed.

Lemma key_le_trans (a b c : string) : key_le a b -> key_le b c -> key_le a c.
Proof.
  intros (x & y & Ha & Hb & Hxy) (y' & z & Hb' & Hc & Hyz).
  rewrite Hb in Hb'. injection Hb' as <-. exists x, z. repeat split; auto. lia.
Qed.

Lemma obj_update_keys {V : Type} (k : string) (f : V -> V) (o : list (string * V)) :
  obj_keys (obj_update k f o) = obj_keys o.
Proof.
  induction o as [|[k' v'] o IH]; simpl; [reflexivity|].
  destruct (String.eqb k' k); simpl; [reflexivity | now rewrite IH].
Qed.

Lemma insert_index_ascending {V : Type} (n : N) (k : string) (v : V)
    (o : list (string * V)) :
  array_index k = Some n ->
  ascending (obj_keys o) ->
  ascending (obj_keys (insert_index n k v o)).
Proof.
  intros Hk [Hidx Hs]. split.
  { destruct (insert_index_splits n k v o) as (front & back & Ho & ->).
    subst o. unfold indexed, obj_keys in *. rewrite map_app in *. simpl.
    apply Forall_app in Hidx as [Hf Hb].
    apply Forall_app. split; [exact Hf|]. apply Forall_cons. split; [|exact Hb].
    rewrite Hk. eauto. }
  induction o as [|[k' v'] o IH]; simpl.
  - repeat constructor.
  - simpl in Hidx, Hs. apply Forall_cons in Hidx as [[n' Hk'] Hidx].
    apply StronglySorted_inv in Hs as [Hs Hall].
    rewrite Hk'.
    destruct (N.ltb_spec n' n) as [Hlt|Hge]; simpl.
    + constructor; [apply IH; assumption|].
      destruct (insert_index_splits n k v o) as (front & back & Ho & ->).
      subst o. unfold obj_keys in *. rewrite map_app in *. simpl.
      apply Forall_app in Hall as [Hf Hb].
      apply Forall_app. split; [exact Hf|]. apply Forall_cons. split; [|exact Hb].
      exists n', n. repeat split; auto. lia.
    + constructor; [constructor; assumption|].
      assert (key_le k k') as Hkk' by (exists n, n'; repeat split; auto).
      apply Forall_cons. split; [exact Hkk'|].
      eapply Forall_impl; [exact Hall|]. intros y Hy. eapply key_le_trans; eauto.
Qed.

(** When every year of the series is an array index, which the four
    digits of a calendar year are, the page lists the years in ascending
    order whatever the order of the series. *)
Lemma years_ascending (trends : list MonthlyTrend) :
  (forall t, In t trends -> is_Some (array_index (year_of t))) ->
  ascending (years trends).
Proof.
  unfold years. induction trends as [|t l IH] using rev_ind; intros Hidx.
  - split; constructor.
  - rewrite yearlyData_snoc. unfold add_month. fold (year_of t).
    rewrite obj_update_keys.
    assert (ascending (obj_keys (yearlyData l))) as Hl.
    { apply IH. intros t' Ht'. apply Hidx, in_app_iff. auto. }
    destruct (obj_get (yearlyData l) (year_of t)) eqn:Hget; [exact Hl|].
    unfold obj_set. rewrite Hget. unfold obj_define.
    destruct (Hidx t) as [n Hn]; [apply in_app_iff; simpl; auto|].
    rewrite Hn. apply insert_index_ascending; assumption.
Qed.

(** What [getGrowth] returns, read backwards. *)
Lemma page_growth_inv (trends : list MonthlyTrend) (g : growth) :
  page_growth trends = Some g ->
  exists earlier prev last,
    qualifying trends = earlier ++ [prev; last] /\
    g = {| spendGrowth := percent_change (average_monthly prev trends)
                                         (average_monthly last trends);
           lastYear := last; prevYear := prev |}.
Proof.
  unfold page_growth. rewrite yearlyArr_tabulated. intros H.
  destruct (Nat.lt_ge_cases (length (qualifying trends)) 2) as [Hlt|Hge].
  - rewrite getGrowth_short in H by (rewrite length_map; exact Hlt). discriminate.
  - destruct (last_two (qualifying trends) Hge) as (earlier & prev & last & E).
    exists earlier, prev, last. split; [exact E|].
    rewrite E, map_app in H. simpl in H. rewrite getGrowth_last_two in H.
    injection H as <-. reflexivity.
Qed.

Lemma filter_StronglySorted {A : Type} (R : A -> A -> Prop) (p : A -> bool) (l : list A) :
  StronglySorted R l -> StronglySorted R (List.filter p l).
Proof.
  induction 1 as [|a l Hs IH Ha]; simpl; [constructor|].
  destruct (p a); [|exact IH]. constructor; [exact IH|].
  apply List.Forall_forall. intros x Hx. apply List.filter_In in Hx as [Hx _].
  rewrite List.Forall_forall in Ha. apply Ha, Hx.
Qed.

Lemma digit_value_spec (c : ascii) (d : nat) :
  digit_value c = Some d ->
  (d <= 9)%nat /\ nat_of_ascii c = (d + 48)%nat /\ digit_of c = Some (N.of_nat d).
Proof.
  unfold digit_value, digit_of. unfold nat_of_ascii.
  set (n := N_of_ascii c).
  destruct ((48 <=? N.to_nat n) && (N.to_nat n <=? 57))%nat eqn:E; [|discriminate].
  intros [= <-]. apply andb_true_iff in E as [E1 E2].
  apply Nat.leb_le in E1, E2.
  assert (((48 <=? n) && (n <=? 57))%N = true) as ->
    by (apply andb_true_iff; split; apply N.leb_le; lia).
  repeat split; [lia | lia | f_equal; lia].
Qed.

(** A calendar year is an array index: the key order of [yearlyData] is
    the order of the years. *)
Lemma calendar_year_index (y : string) (n : nat) :
  calendar_year y = Some n -> array_index y = Some (N.of_nat n).
Proof.
  destruct y as [|a [|b [|c [|d [|? ?]]]]]; try discriminate.
  unfold calendar_year. intros H.
  destruct (digit_value a) as [da|] eqn:Ha; [|discriminate].
  destruct (digit_value b) as [db|] eqn:Hb; [|discriminate].
  destruct (digit_value c) as [dc|] eqn:Hc; [|discriminate].
  destruct (digit_value d) as [dd|] eqn:Hd; [|discriminate].
  destruct (Nat.leb_spec 1 da) as [H1|]; [|discriminate]. injection H as <-.
  apply digit_value_spec in Ha as (La & Na & Da), Hb as (Lb & _ & Db),
    Hc as (Lc & _ & Dc), Hd as (Ld & _ & Dd).
  unfold array_index.
  destruct (Ascii.eqb_spec a "0") as [->|_];
    [change (nat_of_ascii "0") with 48%nat in Na; lia|].
  cbn [parse_digits]. rewrite Da, Db, Dc, Dd.
  destruct (N.ltb_spec
              (10 * (10 * (10 * (10 * 0 + N.of_nat da) + N.of_nat db) + N.of_nat dc)
               + N.of_nat dd) (2 ^ 32 - 1))%N as [_|Hbig].
  - f_equal. lia.
  - exfalso. change (2 ^ 32 - 1)%N with 4294967295%N in Hbig. lia.
Qed.

Lemma digit_value_inj (a b : ascii) (d : nat) :
  digit_value a = Some d -> digit_value b = Some d -> a = b.
Proof.
  intros Ha Hb. apply digit_value_spec in Ha as (_ & Na & _), Hb as (_ & Nb & _).
  rewrite <- (ascii_nat_embedding a), <- (ascii_nat_embedding b), Na, Nb.
  reflexivity.
Qed.

Lemma calendar_year_inj (x y : string) (n : nat) :
  calendar_year x = Some n -> calendar_year y = Some n -> x = y.
Proof.
  destruct x as [|a [|b [|c [|d [|? ?]]]]]; try discriminate.
  destruct y as [|a' [|b' [|c' [|d' [|? ?]]]]]; try discriminate.
  unfold calendar_year.
  destruct (digit_value a) as [da|] eqn:Ha; [|discriminate].
  destruct (digit_value b) as [db|] eqn:Hb; [|discriminate].
  destruct (digit_value c) as [dc|] eqn:Hc; [|discriminate].
  destruct (digit_value d) as [dd|] eqn:Hd; [|discriminate].
  destruct (digit_value a') as [da'|] eqn:Ha'; [|discriminate].
  destruct (digit_value b') as [db'|] eqn:Hb'; [|discriminate].
  destruct (digit_value c') as [dc'|] eqn:Hc'; [|discriminate].
  destruct (digit_value d') as [dd'|] eqn:Hd'; [|discriminate].
  destruct (1 <=? da)%nat; [|discriminate]. destruct (1 <=? da')%nat; [|discriminate].
  intros [= <-] [= E].
  pose proof (proj1 (digit_value_spec _ _ Ha)). pose proof (proj1 (digit_value_spec _ _ Hb)).
  pose proof (proj1 (digit_value_spec _ _ Hc)). pose proof (proj1 (digit_value_spec _ _ Hd)).
  pose proof (proj1 (digit_value_spec _ _ Ha')). pose proof (proj1 (digit_value_spec _ _ Hb')).
  pose proof (proj1 (digit_value_spec _ _ Hc')). pose proof (proj1 (digit_value_spec _ _ Hd')).
  assert (da = da' /\ db = db' /\ dc = dc' /\ dd = dd') as (-> & -> & -> & ->) by lia.
  rewrite (digit_value_inj a a' _ Ha Ha'), (digit_value_inj b b' _ Hb Hb'),
    (digit_value_inj c c' _ Hc Hc'), (digit_value_inj d d' _ Hd Hd').
  reflexivity.
Qed.

Lemma key_le_earlier (a b : string) :
  is_Some (calendar_year a) -> is_Some (calendar_year b) ->
  key_le a b -> a <> b -> earlier_year a b.
Proof.
  intros [m Hm] [n Hn] (x & y & Hx & Hy & Hxy) Hne.
  rewrite (calendar_year_index a m Hm) in Hx. injection Hx as <-.
  rewrite (calendar_year_index b n Hn) in Hy. injection Hy as <-.
  exists m, n. repeat split; try assumption.
  destruct (Nat.eq_dec m n) as [->|]; [|lia].
  exfalso. apply Hne, (calendar_year_inj a b n); assumption.
Qed.

Lemma sorted_last_two {A : Type} (R : A -> A -> Prop) (l : list A) (a b : A) :
  StronglySorted R (l ++ [a; b]) -> R a b /\ forall x, In x l -> R x a.
Proof.
  induction l as [|x l IH]; simpl; intros H.
  - apply StronglySorted_inv in H as [_ H]. apply Forall_cons in H as [H _].
    split; [exact H | intros ? []].
  - apply StronglySorted_inv in H as [Hs H]. destruct (IH Hs) as [Hab Hl].
    split; [exact Hab|]. intros y [<- | Hy]; [|apply Hl, Hy].
    rewrite List.Forall_forall in H. apply H, in_app_iff. right. left. reflexivity.
Qed.

Lemma qualifying_year (trends : list MonthlyTrend) (y : string) :
  (6 <= months_in y trends)%nat -> exists t, In t trends /\ year_of t = y.
Proof.
  unfold months_in. destruct (in_year y trends) as [|t rest] eqn:E; [simpl; lia|].
  intros _. assert (In t (in_year y trends)) as Hin by (rewrite E; left; reflexivity).
  unfold in_year in Hin. apply List.filter_In in Hin as [Hin Hy].
  exists t. split; [exact Hin | apply String.eqb_eq, Hy].
Qed.

Lemma page_growth_None (trends : list MonthlyTrend) :
  page_growth trends = None <-> (length (qualifying trends) < 2)%nat.
Proof.
  split.
  - intros H. destruct (Nat.lt_ge_cases (length (qualifying trends)) 2) as [|Hge];
      [assumption|].
    destruct (last_two (qualifying trends) Hge) as (earlier & prev & later & E).
    unfold page_growth in H. rewrite yearlyArr_tabulated, E, map_app in H.
    simpl in H. rewrite getGrowth_last_two in H. discriminate.
  - intros H. unfold page_growth. rewrite yearlyArr_tabulated.
    apply getGrowth_short. rewrite length_map. exact H.
Qed.

(** C8.  The growth figure of the trends page is taken over the
    calendar years that contain at least six months of trend data.  It
    is [null] exactly when fewer than two years qualify.  Otherwise,
    for a series whose months begin with a four-digit year, the two
    years it names both qualify, the later is the latest qualifying
    year and the earlier the latest before it, and the figure is the
    percentage change of the average monthly spending, the year's
    spending over its number of months, from the earlier to the
    later. *)
Theorem page_growth_last_two_qualifying_years (trends : list MonthlyTrend) :
  (page_growth trends = None <->
   forall y1 y2, (6 <= months_in y1 trends)%nat -> (6 <= months_in y2 trends)%nat ->
                 y1 = y2) /\
  ((forall t, In t trends -> is_Some (calendar_year (year_of t))) ->
   forall g, page_growth trends = Some g ->
     (6 <= months_in (prevYear g) trends)%nat /\
     (6 <= months_in (lastYear g) trends)%nat /\
     earlier_year (prevYear g) (lastYear g) /\
     (forall y, (6 <= months_in y trends)%nat ->
        y = lastYear g \/ y = prevYear g \/ earlier_year y (prevYear g)) /\
     spendGrowth g =
       percent_change (average_monthly (prevYear g) trends)
                      (average_monthly (lastYear g) trends)).
Proof.
  split.
  - rewrite page_growth_None. pose proof (qualifying_NoDup trends) as Hnd. split.
    + intros Hlen y1 y2 H1 H2. apply qualifying_iff in H1, H2.
      destruct (qualifying trends) as [|a [|b l]]; simpl in *; try lia;
        intuition congruence.
    + intros Hall. destruct (qualifying trends) as [|a [|b l]] eqn:E; simpl; try lia.
      exfalso. apply NoDup_cons in Hnd as [Hab _]. apply Hab.
      assert (a = b) as ->; [|left].
      apply Hall; apply qualifying_iff; rewrite E; simpl; auto.
  - intros Hyears g Hg.
    destruct (page_growth_inv trends g Hg) as (earlier & prev & later & E & ->).
    simpl.
    assert (In prev (qualifying trends)) as Hp
      by (rewrite E, in_app_iff; right; left; reflexivity).
    assert (In later (qualifying trends)) as Hl
      by (rewrite E, in_app_iff; right; right; left; reflexivity).
    assert (forall y, (6 <= months_in y trends)%nat -> is_Some (calendar_year y)) as Hcal.
    { intros y Hy. destruct (qualifying_year trends y Hy) as (t & Ht & <-).
      apply Hyears, Ht. }
    assert (StronglySorted key_le (qualifying trends)) as Hs.
    { apply filter_StronglySorted, years_ascending.
      intros t Ht. destruct (Hyears t Ht) as [n Hn].
      rewrite (calendar_year_index _ n Hn). eauto. }
    pose proof (qualifying_NoDup trends) as Hnd. rewrite E in Hs, Hnd.
    destruct (sorted_last_two _ _ _ _ Hs) as [Hpl Hearlier].
    apply NoDup_app in Hnd as (_ & Hdisj & Hnd').
    apply NoDup_cons in Hnd' as [Hne _].
    pose proof (proj1 (qualifying_iff trends prev) Hp) as Mp.
    pose proof (proj1 (qualifying_iff trends later) Hl) as Ml.
    split; [exact Mp|]. split; [exact Ml|]. split.
    { apply key_le_earlier; auto. intros ->. apply Hne. left. }
    split; [|reflexivity].
    intros y Hy. pose proof (proj2 (qualifying_iff trends y) Hy) as Hin.
    rewrite E, in_app_iff in Hin. destruct Hin as [Hin | [<- | [<- | []]]]; auto.
    right. right. apply key_le_earlier; auto.
    intros ->. apply (Hdisj prev); [apply list_elem_of_In, Hin | left].
Qed.

Lemma page_growth_last_two_qualifying_years_witness :
  (6 <= months_in "2020" sample_series)%nat /\
  (6 <= months_in "2021" sample_series)%nat /\
  earlier_year "2020" "2021" /\
  (forall y, (6 <= months_in y sample_series)%nat ->
     y = "2021" \/ y = "2020" \/ earlier_year y "2020") /\
  spendGrowth sample_growth =
    percent_change (average_monthly "2020" sample_series)
                   (average_monthly "2021" sample_series).
Proof.
  apply (proj2 (page_growth_last_two_qualifying_years sample_series)
           ltac:(apply List.Forall_forall; repeat constructor; vm_compute; eauto)
           sample_growth).
  vm_compute. reflexivity.
Defined.

Example sample_series_growth :
  years sample_series = ["2019"; "2020"; "2021"; "2022"] /\
  qualifying sample_series = ["2019"; "2020"; "2021"] /\
  (lastYear <$> page_growth sample_series) = Some "2021" /\
  (prevYear <$> page_growth sample_series) = Some "2020" /\
  exists q, spendGrowth <$> page_growth sample_series = Some (Num.Fin q) /\
            (q == -30)%Q.
Proof. repeat split. eexists. split; vm_compute; reflexivity. Qed.

(** A year without spending as the earlier year leaves no finite
    figure. *)
Example growth_from_nothing :
  spendGrowth <$> page_growth (half_year "2019" 0 ++ half_year "2020" 10)
    = Some Num.PosInf /\
  spendGrowth <$> page_growth (half_year "2019" 0 ++ half_year "2020" 0)
    = Some Num.NaN.
Proof. split; vm_compute; reflexivity. Qed.

End TrendsProps.

(** ** The Query Guard *)

Module QueryGuardProps.

Import QueryGuard.

(** *** Characters *)
















(** *** What the reading gives *)









(** *** Statements *)








(** *** Nesting *)

Lemma level_app (p : token -> bool) (a b : list token) (d : nat) :
  level p d a = true -> level p d (a ++ b) = level p 0 b.
Proof.
  revert d. induction a as [|t a IH]; intros d H; cbn [level app] in *.
  - apply Nat.eqb_eq in H. subst d. reflexivity.
  - destruct ((d =? 0)%nat && p t); [discriminate H|].
    destruct t; try (apply IH, H). destruct d; [discriminate H | apply IH, H].
Qed.

Lemma level_weaken (p p' : token -> bool) (a : list token) (d : nat) :
  (forall t, p' t = true -> p t = true) ->
  level p d a = true -> level p' d a = true.
Proof.
  intros Hp. revert d. induction a as [|t a IH]; intros d H; cbn [level] in *; [exact H|].
  destruct ((d =? 0)%nat && p t) eqn:E; [discriminate H|].
  assert ((d =? 0)%nat && p' t = false) as ->.
  { destruct (d =? 0)%nat; [|reflexivity]. cbn in *.
    destruct (p' t) eqn:E'; [|reflexivity]. rewrite (Hp t E') in E. discriminate E. }
  destruct t; try (apply IH, H). destruct d; [discriminate H | apply IH, H].
Qed.

Lemma split0_app (p : token -> bool) (a b : list token) (d : nat) :
  level p d a = true -> begins p b -> split0 p d (a ++ b) = Some (a, b).
Proof.
  intros Ha Hb. revert d Ha. induction a as [|t a IH]; intros d Ha; cbn [level app] in *.
  - apply Nat.eqb_eq in Ha. subst d. destruct b as [|u b]; [reflexivity|].
    cbn [split0]. cbn in Hb. rewrite Hb. reflexivity.
  - cbn [split0]. destruct ((d =? 0)%nat && p t); [discriminate Ha|].
    destruct t; try (rewrite (IH _ Ha); reflexivity).
    destruct d; [discriminate Ha|]. rewrite (IH _ Ha). reflexivity.
Qed.




(** *** Keywords *)

Lemma keyword_eq (k : string) (t : token) :
  keyword k t = true -> exists w, t = Word w /\ upper_case w = k.
Proof.
  destruct t as [w| | | | | |]; try discriminate. cbn. intros H.
  apply String.eqb_eq in H. eauto.
Qed.

Lemma separator_not_closer (t : token) : separator t = true -> closer t = false.
Proof.
  unfold separator. intros H. apply orb_true_iff in H as [H|H];
    [apply orb_true_iff in H as [H|H]|].
  - apply keyword_eq in H as (w & -> & E). unfold closer, one_of. cbn. rewrite E.
    reflexivity.
  - apply keyword_eq in H as (w & -> & E). unfold closer, one_of. cbn. rewrite E.
    reflexivity.
  - destruct t; try discriminate H. reflexivity.
Qed.


Lemma separator_plain (t : token) :
  separator t = true -> t <> LParen /\ t <> RParen.
Proof. destruct t; try discriminate; split; discriminate. Qed.

(** *** Parsing *)

Lemma level_region (srcs : list source) :
  forallb source_ok srcs = true ->
  level closer 0 (flat_map render_source srcs) = true.
Proof.
  induction srcs as [|s srcs IH]; intros H; [reflexivity|].
  cbn [forallb] in H. apply andb_true_iff in H as [Hs H].
  unfold source_ok in Hs.
  apply andb_true_iff in Hs as [Hs _]. apply andb_true_iff in Hs as [Hs He].
  apply andb_true_iff in Hs as [Hs Hc]. apply andb_true_iff in Hs as [Hp _].
  apply negb_true_iff in Hc.
  cbn [flat_map render_source app]. cbn [level].
  rewrite (separator_not_closer _ Hp). cbn [Nat.eqb andb].
  destruct (separator_plain _ Hp) as [N1 N2].
  assert (level closer 0 (Word (name s) :: extra s ++ flat_map render_source srcs) = true)
    as G.
  { cbn [level]. rewrite Hc. cbn [Nat.eqb andb].
    rewrite (level_app closer (extra s)).
    - apply IH, H.
    - apply (level_weaken _ _ _ _ (fun t Ht => orb_true_intro _ _ (or_intror Ht)) He). }
  destruct (sep s); try exact G; congruence.
Qed.

Lemma begins_sources (srcs : list source) (more : list token) :
  forallb source_ok srcs = true -> begins (fun t => separator t || closer t) more ->
  begins (fun t => separator t || closer t) (flat_map render_source srcs ++ more).
Proof.
  destruct srcs as [|s srcs]; [auto|]. intros H _. cbn in *.
  apply andb_true_iff in H as [Hs _]. unfold source_ok in Hs.
  repeat (apply andb_true_iff in Hs as [Hs _]). rewrite Hs. reflexivity.
Qed.

Lemma sources_of_render (srcs : list source) (fuel : nat) :
  forallb source_ok srcs = true ->
  (length (flat_map render_source srcs) < fuel)%nat ->
  sources_of fuel (flat_map render_source srcs) = Some srcs.
Proof.
  revert fuel. induction srcs as [|s srcs IH]; intros fuel H Hf.
  - destruct fuel; [lia | reflexivity].
  - destruct fuel as [|fuel]; [lia|].
    pose proof H as H'. cbn [forallb] in H'. apply andb_true_iff in H' as [Hs Hr].
    pose proof (begins_sources srcs [] Hr I) as Hb. rewrite app_nil_r in Hb.
    unfold source_ok in Hs.
    apply andb_true_iff in Hs as [Hs _]. apply andb_true_iff in Hs as [Hs He].
    apply andb_true_iff in Hs as [Hs _]. apply andb_true_iff in Hs as [Hp _].
    cbn [flat_map render_source app sources_of]. rewrite Hp.
    rewrite (split0_app _ _ _ 0 He Hb).
    rewrite IH; [destruct s; reflexivity | exact Hr |].
    cbn [flat_map render_source app length] in Hf. rewrite length_app in Hf. lia.
Qed.


(** A well-formed query is what its tokens parse to. *)
Lemma parse_render (q : query) : well_formed q = true -> parse (render q) = Some q.
Proof.
  intros W. pose proof W as W'. unfold well_formed in W'.
  apply andb_true_iff in W' as [W' _]. apply andb_true_iff in W' as [W' Ht].
  apply andb_true_iff in W' as [W' Hs]. apply andb_true_iff in W' as [W' Hf].
  apply andb_true_iff in W' as [W' _]. apply andb_true_iff in W' as [_ Hl].
  unfold parse, render.
  assert (begins (keyword "FROM") (flat_map render_source (sources q) ++ tail q)) as B1.
  { destruct (sources q) as [|s srcs]; [discriminate Hf|]. exact Hf. }
  rewrite (split0_app _ _ _ 0 Hl B1). cbn [mbind option_bind].
  assert (begins closer (tail q)) as B2.
  { unfold tail_ok in Ht. destruct (tail q); [exact I|].
    apply andb_true_iff in Ht as [Ht _]. apply andb_true_iff in Ht as [Ht _]. exact Ht. }
  rewrite (split0_app _ _ _ 0 (level_region _ Hs) B2). cbn [mbind option_bind].
  rewrite (sources_of_render _ _ Hs) by lia. cbn [mbind option_bind].
  destruct q as [h sel srcs tl]. cbn [head selection sources tail] in *.
  rewrite W. reflexivity.
Qed.

(** A statement is the tokens of one well-formed query at most. *)
Lemma render_inj (q1 q2 : query) :
  well_formed q1 = true -> well_formed q2 = true -> render q1 = render q2 -> q1 = q2.
Proof.
  intros W1 W2 E. pose proof (parse_render q1 W1) as P.
  rewrite E, (parse_render q2 W2) in P. congruence.
Qed.


(** *** The row limit *)








(** *** What a well-formed query is free of *)








Section Whitelist.

Variable whitelist : list string.

Local Abbreviation guard := (QueryGuard.guard whitelist).
Local Abbreviation allowed := (QueryGuard.allowed whitelist).



End Whitelist.



(** The guard at work: a limit word inside a quoted text is no limit, a
    comment does not swallow the cap, FROM inside a function call names
    no table, and a table in parentheses, a second query, COPY, SELECT
    INTO and ATTACH are turned away. *)
Example guard_samples :
  map (guard schema)
    ["SELECT * FROM claims LIMIT 5";
     "select 1; drop table claims";
     "DELETE FROM claims";
     "SELECT * FROM secrets";
     "SELECT * FROM claims c, secrets s";
     "SELECT updated_at FROM claims JOIN (SELECT * FROM providers) p ON 1 = 1";
     "";
     "SELECT * FROM claims WHERE code = 'LIMIT'";
     "SELECT * FROM claims -- all of it";
     "SELECT * FROM (secrets CROSS JOIN claims)";
     "SELECT EXTRACT(YEAR FROM m) FROM claims";
     "COPY claims TO 'x.csv'";
     "SELECT * INTO t2 FROM claims";
     "ATTACH 'x.db' AS x";
     "SELECT a FROM claims WHERE b IN (FROM secrets)";
     "SELECT a FROM claims WHERE x = 'it''s; DROP' /* c */ LIMIT 10;;";
     "SELECT a FROM claims UNION TABLE secrets";
     "SELECT a FROM claims c LEFT JOIN providers p ON (c.npi = p.npi) WHERE c.m >= '2020'";
     "SELECT a FROM claims WHERE b = 'open"]
  = [Accepted "SELECT * FROM claims LIMIT 5";
     Rejected MultipleStatements;
     Rejected (WriteVerb "DELETE");
     Rejected (TableNotAllowed "SECRETS");
     Rejected (TableNotAllowed "SECRETS");
     Rejected NotAQuery;
     Rejected NoStatement;
     Accepted "SELECT * FROM claims WHERE code = 'LIMIT' LIMIT 1000";
     Accepted "SELECT * FROM claims LIMIT 1000";
     Rejected NotAQuery;
     Accepted "SELECT EXTRACT ( YEAR FROM m ) FROM claims LIMIT 1000";
     Rejected (WriteVerb "COPY");
     Rejected (WriteVerb "INTO");
     Rejected (WriteVerb "ATTACH");
     Rejected NotAQuery;
     Accepted "SELECT a FROM claims WHERE x = 'it''s; DROP' LIMIT 10";
     Rejected NotAQuery;
     Accepted
       "SELECT a FROM claims c LEFT JOIN providers p ON ( c.npi = p.npi ) WHERE c.m >= '2020' LIMIT 1000";
     Rejected Unreadable].
Proof. vm_compute. reflexivity. Qed.

End QueryGuardProps.

(** ** The anomaly detector *)

Module AnomalyProps.

Import Anomaly.


Lemma sum_scaled (c : Q) (xs : list Q) :
  (forall x, In x xs -> (x == c)%Q) -> (sum xs == count xs * c)%Q.
Proof.
  unfold count. induction xs as [|x xs IH]; intros H.
  - simpl. ring.
  - cbn [sum fold_right]. fold (sum xs).
    rewrite (H x) by (left; reflexivity).
    rewrite IH by (intros y Hy; apply H; right; exact Hy).
    cbn [length]. rewrite Nat2Z.inj_succ. unfold Z.succ. rewrite inject_Z_plus. ring.
Qed.

Lemma sum_zero (xs : list Q) :
  (forall x, In x xs -> (x == 0)%Q) -> (sum xs == 0)%Q.
Proof. intros H. rewrite (sum_scaled 0 xs H). ring. Qed.

Lemma mean_all_equal (xs : list Q) (x : Q) :
  all_equal xs -> In x xs -> (mean xs == x)%Q.
Proof.
  intros Heq Hin. unfold mean.
  rewrite (sum_scaled x xs) by (intros y Hy; apply Heq; assumption).
  field. unfold count. destruct xs as [|a xs]; [contradiction|].
  cbn [length]. intros H. 
  assert (0 < inject_Z (Z.of_nat (S (length xs))))%Q as Hpos.
  { rewrite <- (Zlt_Qlt 0). lia. }
  rewrite H in Hpos. apply (Qlt_irrefl 0), Hpos.
Qed.

Lemma variance_all_equal (xs : list Q) :
  all_equal xs -> (sample_variance xs == 0)%Q.
Proof.
  intros Heq. unfold sample_variance.
  rewrite sum_zero; [unfold Qdiv; ring|].
  intros d Hd. apply in_map_iff in Hd as (x & <- & Hx).
  rewrite (mean_all_equal xs x Heq Hx). ring.
Qed.

Section Sqrt.
Variable sqrt : Q -> Q.
Hypothesis sqrt_zero : forall q, (q == 0)%Q -> (sqrt q == 0)%Q.

Lemma sample_std_degenerate (xs : list Q) :
  length xs = 1%nat \/ all_equal xs -> (sample_std sqrt xs == 0)%Q.
Proof.
  unfold sample_std. intros [H|H].
  - rewrite H. reflexivity.
  - destruct (length xs <=? 1)%nat; [reflexivity|].
    apply sqrt_zero, variance_all_equal, H.
Qed.

Lemma z_score_zero_sigma (xs : list Q) (x : Q) :
  (sample_std sqrt xs == 0)%Q -> z_score sqrt xs x = Num.Fin 0.
Proof.
  intros H. unfold z_score. apply Text.is_zero_iff in H. rewrite H. reflexivity.
Qed.

(** Without the policy the quotient is not a number. *)
Lemma raw_z_all_equal (xs : list Q) (x : Q) :
  all_equal xs -> In x xs -> raw_z sqrt xs x = Num.NaN.
Proof.
  intros Heq Hin. unfold raw_z, Num.div.
  assert (Num.is_zero (sample_std sqrt xs) = true) as ->.
  { apply Text.is_zero_iff, sample_std_degenerate. right. exact Heq. }
  assert (Num.is_zero (x - mean xs) = true) as ->; [|reflexivity].
  apply Text.is_zero_iff. rewrite (mean_all_equal xs x Heq Hin). ring.
Qed.

(** C2.  For every code population whose standard deviation of
    [total_paid] is zero, a single provider or providers that are all
    identical included, the paid z-score of every record of the
    population is exactly 0, a finite number; the same holds for
    [total_claims] and the claims z-score. *)
Theorem zero_sigma_gives_zero_score (pop : list ProviderTotal) (r : AnomalyRecord) :
  In r (score_population sqrt pop) ->
  (zero_sigma sqrt (map total_paid pop) ->
   z_score_paid r = Num.Fin 0 /\ finite (z_score_paid r) = true) /\
  (zero_sigma sqrt (map total_claims pop) ->
   z_score_claims r = Num.Fin 0 /\ finite (z_score_claims r) = true).
Proof.
  intros Hr. unfold score_population in Hr.
  apply in_map_iff in Hr as (p & <- & _). simpl.
  assert (forall xs x, zero_sigma sqrt xs ->
            z_score sqrt xs x = Num.Fin 0 /\ finite (z_score sqrt xs x) = true) as Hz.
  { intros xs x H.
    assert (z_score sqrt xs x = Num.Fin 0) as ->; [|split; reflexivity].
    apply z_score_zero_sigma.
    destruct H as [H|[H|H]]; [| |exact H]; apply sample_std_degenerate; auto. }
  split; apply Hz.
Qed.

End Sqrt.

Lemma sqrt6_zero (q : Q) : (q == 0)%Q -> (sqrt6 q == 0)%Q.
Proof.
  intros H. unfold sqrt6.
  assert (Qfloor (q * inject_Z (10 ^ 12)) = 0%Z) as ->; [|reflexivity].
  rewrite H. reflexivity.
Qed.

Lemma zero_sigma_gives_zero_score_witness :
  exists r,
    head (score_population sqrt6 flat_population) = Some r /\
    z_score_paid r = Num.Fin 0.
Proof.
  eexists. split; [reflexivity|].
  refine (proj1 (proj1 (zero_sigma_gives_zero_score sqrt6 sqrt6_zero
                          flat_population _ _) _)).
  - left. reflexivity.
  - right. left. intros x y Hx Hy. simpl in Hx, Hy.
    destruct Hx as [<-|[<-|[<-|[]]]]; destruct Hy as [<-|[<-|[<-|[]]]]; reflexivity.
Defined.

(** Scenario B of the specification: paid totals 10, 10, 10 and 1000
    have mean 257.5; the outlier scores 1.5 and the others -0.5. *)
Example scenario_B :
  let paid := [10; 10; 10; 1000]%Q in
  (mean paid == 2575 # 10)%Q /\
  exists z, z_score sqrt6 paid 1000 = Num.Fin z /\ (z == 3 # 2)%Q.
Proof. split; [reflexivity|]. eexists. split; vm_compute; reflexivity. Qed.

End AnomalyProps.

(** ** The aggregation service *)

Module AggregationProps.

Import Aggregation.


Lemma months_NoDup (db : list ClaimRecord) : NoDup (months db).
Proof.
  unfold months. rewrite <- MonthSort.Permuted_sort. apply NoDup_remove_dups.
Qed.

Lemma months_cover (db : list ClaimRecord) (r : ClaimRecord) :
  In r db -> In (claim_month r) (months db).
Proof.
  intros H. unfold months. apply list_elem_of_In.
  rewrite <- MonthSort.Permuted_sort. apply elem_of_remove_dups.
  apply list_elem_of_In, in_map, H.
Qed.

Lemma filter_all {A : Type} (l : list A) : List.filter (fun _ => true) l = l.
Proof. induction l as [|a l IH]; simpl; [reflexivity | now rewrite IH]. Qed.

Lemma trends_unbounded (db : list ClaimRecord) :
  trends None None db = map (trend_point db) (months db).
Proof. unfold trends, within. simpl. rewrite filter_all. reflexivity. Qed.

(** One amount placed in the column of month [k] adds up to that amount
    over a list of months that names [k] once. *)
Lemma sum_single (k : string) (v : Z) (ms : list string) :
  NoDup ms -> In k ms ->
  fold_right Z.add 0%Z (map (fun m => if String.eqb k m then v else 0%Z) ms) = v.
Proof.
  induction ms as [|m ms IH]; simpl; intros Hnd Hin; [contradiction|].
  apply NoDup_cons in Hnd as [Hm Hnd].
  destruct (String.eqb_spec k m) as [->|Hne].
  - assert (fold_right Z.add 0%Z
              (map (fun m0 => if String.eqb m m0 then v else 0%Z) ms) = 0%Z) as ->; [|lia].
    clear IH Hin Hnd. induction ms as [|m' ms IH]; simpl; [reflexivity|].
    rewrite not_elem_of_cons in Hm. destruct Hm as [Hne Hm].
    destruct (String.eqb_spec m m'); [congruence|]. rewrite IH by assumption. reflexivity.
  - destruct Hin as [->|Hin]; [congruence|]. rewrite IH by assumption. lia.
Qed.

Lemma sum_by_month (f : ClaimRecord -> Z) (db : list ClaimRecord) (ms : list string) :
  NoDup ms -> (forall r, In r db -> In (claim_month r) ms) ->
  fold_right Z.add 0%Z (map (fun m => total f (in_month m db)) ms) = total f db.
Proof.
  intros Hnd. induction db as [|r db IH]; intros Hcov.
  - unfold total. simpl. clear Hnd Hcov.
    induction ms as [|m ms IHm]; simpl; [reflexivity | rewrite IHm; reflexivity].
  - assert (forall m, total f (in_month m (r :: db)) =
                      ((if String.eqb (claim_month r) m then f r else 0) +
                       total f (in_month m db))%Z) as Hstep.
    { intros m. unfold in_month, total. simpl.
      destruct (String.eqb (claim_month r) m); reflexivity. }
    rewrite (map_ext _ _ Hstep).
    assert (forall (g h : string -> Z) l,
               fold_right Z.add 0%Z (map (fun m => (g m + h m)%Z) l) =
               (fold_right Z.add 0%Z (map g l) + fold_right Z.add 0%Z (map h l))%Z) as Hadd.
    { intros g h l. induction l as [|a l IHl]; simpl; [reflexivity | rewrite IHl; lia]. }
    rewrite Hadd, IH by (intros r' Hr'; apply Hcov; right; exact Hr').
    rewrite sum_single; [| exact Hnd | apply Hcov; left; reflexivity].
    unfold total. simpl. reflexivity.
Qed.

(** C3.  For every table, the [total_paid] of the points of
    [trends()] without bounds add up to the [total_paid] of
    [overview()], exactly: the amounts are integers of cents. *)
Theorem trends_sum_to_overview (db : list ClaimRecord) :
  sum_paid (trends None None db) = Overview.total_paid (overview db).
Proof.
  rewrite trends_unbounded. unfold sum_paid. rewrite map_map. simpl.
  apply (sum_by_month paid).
  - apply months_NoDup.
  - apply months_cover.
Qed.

(** Scenario A of the specification: one provider, one code, one month,
    100 dollars in 2 claims. *)
Example scenario_A :
  let db := [{| billing_npi := "1003000126"; servicing_npi := "1003000126";
                hcpcs_code := "X"; claim_month := "2023-01";
                beneficiaries := 1; claims := 2; paid := 10000 |}] in
  Overview.total_paid (overview db) = 10000%Z /\
  Overview.total_claims (overview db) = 2%Z /\
  map MonthlyTrend.claim_month (trends None None db) = ["2023-01"].
Proof. repeat split. Qed.

End AggregationProps.

(** ** The rest of the front end *)

Module LibProps.

Import Text.

Lemma prefix_iff (t s : string) :
  String.prefix t s = true <-> exists b, s = t +:+ b.
Proof.
  revert t. induction s as [|c s IH]; intros t; simpl.
  - destruct t as [|x t]; simpl.
    + split; [exists ""; reflexivity | reflexivity].
    + split; [discriminate | intros [b H]; discriminate].
  - destruct t as [|x t]; simpl.
    + split; [intros _; eexists; reflexivity | reflexivity].
    + destruct (ascii_dec x c) as [->|Hne].
      * rewrite IH. split; intros [b H]; exists b; [now rewrite H | now injection H].
      * split; [discriminate | intros [b H]; injection H; congruence].
Qed.

Lemma includes_iff (s t : string) :
  Lib.includes s t = true <-> exists a b, s = a +:+ t +:+ b.
Proof.
  induction s as [|c s IH]; simpl.
  - rewrite orb_false_r. destruct t as [|x t]; simpl.
    + split; [exists "", ""; reflexivity | reflexivity].
    + split; [discriminate|]. intros (a & b & H). destruct a; discriminate.
  - rewrite orb_true_iff, IH.
    change (match t with "" => true | String a s1' =>
              if ascii_dec a c then String.prefix s1' s else false end)
      with (String.prefix t (String c s)).
    rewrite prefix_iff. split.
    + intros [[b H] | (a & b & H)].
      * exists "", b. exact H.
      * exists (String c a), b. simpl. now rewrite H.
    + intros (a & b & H). destruct a as [|x a]; simpl in H.
      * left. exists b. exact H.
      * right. injection H as _ H. exists a, b. exact H.
Qed.

Lemma includes_trans (s t u : string) :
  Lib.includes s t = true -> Lib.includes t u = true -> Lib.includes s u = true.
Proof.
  rewrite !includes_iff. intros (a & b & ->) (a' & b' & ->).
  exists (a +:+ a'), (b' +:+ b). rewrite !append_assoc. reflexivity.
Qed.

Lemma map_chars_append (f : ascii -> ascii) (a b : string) :
  Lib.map_chars f (a +:+ b) = Lib.map_chars f a +:+ Lib.map_chars f b.
Proof. induction a as [|x a IH]; simpl; [reflexivity | now rewrite IH]. Qed.

Lemma length_map_chars (f : ascii -> ascii) (s : string) :
  String.length (Lib.map_chars f s) = String.length s.
Proof. induction s as [|x s IH]; simpl; [reflexivity | now rewrite IH]. Qed.

Lemma includes_lower (s t : string) :
  Lib.includes s t = true ->
  Lib.includes (Lib.toLowerCase s) (Lib.toLowerCase t) = true.
Proof.
  rewrite !includes_iff. intros (a & b & ->).
  exists (Lib.toLowerCase a), (Lib.toLowerCase b).
  unfold Lib.toLowerCase. rewrite !map_chars_append. reflexivity.
Qed.

(** Strings as lists of characters. *)
Lemma chars_append (a b : string) :
  list_ascii_of_string (a +:+ b) = list_ascii_of_string a ++ list_ascii_of_string b.
Proof. induction a as [|x a IH]; simpl; [reflexivity | now rewrite IH]. Qed.

Lemma chars_rev_app (s acc : string) :
  list_ascii_of_string (String.rev_app s acc) =
    rev (list_ascii_of_string s) ++ list_ascii_of_string acc.
Proof.
  revert acc. induction s as [|x s IH]; intros acc; simpl; [reflexivity|].
  rewrite IH. simpl. rewrite <- app_assoc. reflexivity.
Qed.

Lemma chars_rev (s : string) :
  list_ascii_of_string (String.rev s) = rev (list_ascii_of_string s).
Proof. unfold String.rev. rewrite chars_rev_app. simpl. apply app_nil_r. Qed.

Lemma chars_inj (a b : string) :
  list_ascii_of_string a = list_ascii_of_string b -> a = b.
Proof.
  intros H. rewrite <- (string_of_list_ascii_of_string a),
                    <- (string_of_list_ascii_of_string b), H. reflexivity.
Qed.

Lemma rev_rev (s : string) : String.rev (String.rev s) = s.
Proof. apply chars_inj. rewrite !chars_rev. apply rev_involutive. Qed.

Lemma rev_append (a b : string) :
  String.rev (a +:+ b) = String.rev b +:+ String.rev a.
Proof.
  apply chars_inj. rewrite chars_rev, !chars_append, !chars_rev. apply rev_app_distr.
Qed.

Lemma length_rev (s : string) : String.length (String.rev s) = String.length s.
Proof.
  assert (forall u, String.length u = length (list_ascii_of_string u)) as L.
  { induction u as [|x u IH]; simpl; [reflexivity | now rewrite IH]. }
  rewrite !L, chars_rev. apply length_rev.
Qed.

End LibProps.

Module AnomaliesPageProps.

Import AnomaliesPage.

Lemma gt_Fin (x y : Q) : Lib.gt (Num.Fin x) (Num.Fin y) = true <-> (y < x)%Q.
Proof.
  simpl. rewrite negb_true_iff. split.
  - intros H. apply Qnot_le_lt. intros Hle. apply Qle_bool_iff in Hle. congruence.
  - intros H. destruct (Qle_bool x y) eqn:E; [|reflexivity].
    apply Qle_bool_iff in E. exfalso. apply (Qlt_not_le _ _ H E).
Qed.

Lemma ge_Fin (x y : Q) : Num.ge (Num.Fin x) (Num.Fin y) = true <-> (y <= x)%Q.
Proof. simpl. apply Qle_bool_iff. Qed.

Lemma ZScoreBar_width_Fin (q : Q) :
  ZScoreBar_width (Num.Fin q) =
    if Lib.gt (Num.Fin (Qabs q / 15 * 100)) (Num.Fin 100)
    then Num.Fin 100 else Num.Fin (Qabs q / 15 * 100).
Proof. reflexivity. Qed.

Lemma width_scale (q : Q) : (Qabs q / 15 * 100 == Qabs q * (100 # 15))%Q.
Proof. field. Qed.

(** X1.  For every score that is a number, infinite ones included, the
    width of the bar of [ZScoreBar] is a number between 0 and 100 per
    cent, and it is 100 exactly when the absolute score is at least
    15. *)
Theorem ZScoreBar_width_bounds (score : Num.num) :
  score <> Num.NaN ->
  exists w, ZScoreBar_width score = Num.Fin w /\
            (0 <= w)%Q /\ (w <= 100)%Q /\
            ((w == 100)%Q <-> Num.ge (Lib.abs score) (Num.Fin 15) = true).
Proof.
  intros Hnan. destruct score as [q| | |]; [| congruence | |].
  - rewrite ZScoreBar_width_Fin. simpl Lib.abs.
    pose proof (Qabs_nonneg q) as Hq. pose proof (width_scale q) as E'.
    destruct (Lib.gt (Num.Fin (Qabs q / 15 * 100)) (Num.Fin 100)) eqn:E.
    + apply gt_Fin in E. rewrite E' in E. exists 100%Q.
      split; [reflexivity|]. split; [lra|]. split; [lra|].
      split; [intros _ | reflexivity]. apply ge_Fin. lra.
    + assert (~ (100 < Qabs q / 15 * 100)%Q) as H by (rewrite <- gt_Fin; congruence).
      apply Qnot_lt_le in H. rewrite E' in H.
      exists (Qabs q / 15 * 100)%Q. rewrite ge_Fin.
      split; [reflexivity|]. rewrite E'.
      split; [lra|]. split; [lra|]. split; intros; lra.
  - exists 100%Q. split; [reflexivity|]. split; [lra|]. split; [lra|].
    split; reflexivity.
  - exists 100%Q. split; [reflexivity|]. split; [lra|]. split; [lra|].
    split; reflexivity.
Qed.

Lemma ZScoreBar_width_bounds_witness :
  exists w, ZScoreBar_width (Num.Fin 12) = Num.Fin w /\
            (0 <= w)%Q /\ (w <= 100)%Q /\
            ((w == 100)%Q <-> Num.ge (Lib.abs (Num.Fin 12)) (Num.Fin 15) = true).
Proof. apply (ZScoreBar_width_bounds (Num.Fin 12)). discriminate. Defined.

(** X2.  The badge, the class of the bar and the colour of the printed
    score draw the same line: a row is graded Critical exactly when its
    bar is z-high and exactly when its score is printed in the hot
    colour; a bar at full width is always Critical; and a score and its
    negative are graded alike. *)
Theorem threat_grades_agree (score : Num.num) :
  (ThreatLevel score = Critical <-> ZScoreBar_class score = "z-high") /\
  (ThreatLevel score = Critical <-> score_is_hot score = true) /\
  (Num.ge (ZScoreBar_width score) (Num.Fin 100) = true ->
   ThreatLevel score = Critical) /\
  (forall other, Lib.abs other = Lib.abs score ->
     ThreatLevel other = ThreatLevel score /\
     ZScoreBar_width other = ZScoreBar_width score).
Proof.
  unfold ThreatLevel, ZScoreBar_class, score_is_hot.
  split; [|split; [|split]].
  - destruct (Lib.gt (Lib.abs score) (Num.Fin 10)) eqn:E10; [tauto|].
    destruct (Lib.gt (Lib.abs score) (Num.Fin 7)); split; discriminate.
  - destruct (Lib.gt (Lib.abs score) (Num.Fin 10)) eqn:E10; [tauto|].
    destruct (Lib.gt (Lib.abs score) (Num.Fin 7)); split; discriminate.
  - intros Hfull.
    assert (Lib.gt (Lib.abs score) (Num.Fin 10) = true) as ->; [|reflexivity].
    destruct score as [q| | |]; try reflexivity; [|discriminate Hfull].
    rewrite ZScoreBar_width_Fin in Hfull. simpl Lib.abs. apply gt_Fin.
    pose proof (width_scale q) as E'.
    destruct (Lib.gt (Num.Fin (Qabs q / 15 * 100)) (Num.Fin 100)) eqn:E.
    + apply gt_Fin in E. rewrite E' in E. lra.
    + apply ge_Fin in Hfull. rewrite E' in Hfull. lra.
  - intros other H. unfold ZScoreBar_width. rewrite H. split; reflexivity.
Qed.

Lemma threat_grades_agree_witness :
  ThreatLevel (Num.Fin (-16)) = Critical /\
  ThreatLevel (Num.Fin (-16)) = ThreatLevel (Num.Fin 16).
Proof.
  split.
  - apply (proj1 (proj2 (proj2 (threat_grades_agree (Num.Fin (-16)))))).
    reflexivity.
  - apply (proj2 (proj2 (proj2 (threat_grades_agree (Num.Fin 16))))).
    reflexivity.
Defined.

Section Builtins.

Variable Number_toString : Q -> string.

(** X3.  The request the page sends when it loads its data goes to
    /api/anomalies with the limit and the minimum score of the page, and
    carries the code filter exactly when the filter field is not empty:
    an [hcpcs_code] parameter is never empty. *)
Theorem loadData_request_query (st : state) :
  Api.path (loadData_request Number_toString st) = "/api/anomalies" /\
  Api.query (loadData_request Number_toString st) =
    [("limit", Api.num_toString Number_toString (limit st));
     ("min_z_score", Api.num_toString Number_toString (minZ st))] ++
    (if String.eqb (codeFilter st) "" then [] else [("hcpcs_code", codeFilter st)]) /\
  (forall v, In ("hcpcs_code", v) (Api.query (loadData_request Number_toString st)) ->
     v = codeFilter st /\ v <> "").
Proof.
  unfold loadData_request. simpl JS.truthy.
  destruct (String.eqb_spec (codeFilter st) "") as [E|E]; simpl.
  - repeat split; try reflexivity; destruct H as [H|[H|[]]]; discriminate.
  - unfold Api.fetchAnomalies_request. simpl JS.truthy.
    destruct (String.eqb_spec (codeFilter st) "") as [E'|_]; [contradiction|]. simpl.
    repeat split; try reflexivity;
      destruct H as [H|[H|[H|[]]]]; try discriminate; injection H as <-; auto.
Qed.

(** X4.  The cell that compares a provider with the average of its
    code shows a dash whenever the average is not above zero (zero,
    negative or NaN); otherwise it prints the quotient the machine
    computes, which is never NaN, and which is a finite number whenever
    the exact quotient is at most 2^1023 in magnitude: it is an infinity
    only when the division overflows. *)
Theorem vs_avg_finite (total_paid : Q) (code_avg_paid : Num.num) :
  (Lib.gt code_avg_paid (Num.Fin 0) = false ->
   vs_avg Number_toString (Num.Fin total_paid) code_avg_paid = NoRatio) /\
  (Lib.gt code_avg_paid (Num.Fin 0) = true ->
   exists x, vs_avg Number_toString (Num.Fin total_paid) code_avg_paid =
               Times (Api.toFixed Number_toString x 0) /\
             x = Num.fdiv (Num.Fin total_paid) code_avg_paid /\
             x <> Num.NaN /\
             (forall a, code_avg_paid = Num.Fin a ->
                (Qabs (total_paid / a) <= Num.pow2 1023)%Q -> exists q, x = Num.Fin q) /\
             (code_avg_paid = Num.PosInf -> x = Num.Fin 0)).
Proof.
  unfold vs_avg. split; intros H; rewrite H; [reflexivity|].
  eexists. split; [reflexivity|]. split; [reflexivity|].
  destruct code_avg_paid as [a| | |]; try discriminate.
  - apply gt_Fin in H. unfold Num.fdiv, Num.div.
    assert (Num.is_zero a = false) as ->.
    { destruct (Num.is_zero a) eqn:E; [|reflexivity].
      apply Text.is_zero_iff in E. lra. }
    split; [apply NumProps.round_not_NaN|]. split; [|discriminate].
    intros a' [= <-] Hq. apply NumProps.round_finite, Hq.
  - split; [discriminate|]. split; [discriminate | reflexivity].
Qed.

End Builtins.

Lemma loadData_request_query_witness :
  Api.query (loadData_request Api.decimal_toString filtered_page) =
    [("limit", "50"); ("min_z_score", "5"); ("hcpcs_code", "97153")] /\
  "97153" = codeFilter filtered_page /\ "97153" <> "".
Proof.
  split.
  - exact (proj1 (proj2 (loadData_request_query Api.decimal_toString filtered_page))).
  - apply (proj2 (proj2 (loadData_request_query Api.decimal_toString filtered_page))).
    vm_compute. auto.
Defined.

Lemma vs_avg_finite_witness :
  vs_avg Api.decimal_toString (Num.Fin 9100) (Num.Fin 0) = NoRatio /\
  exists x, vs_avg Api.decimal_toString (Num.Fin 9100) (Num.Fin 26) =
              Times (Api.toFixed Api.decimal_toString x 0) /\
            x = Num.fdiv (Num.Fin 9100) (Num.Fin 26) /\
            x <> Num.NaN /\
            (forall a, Num.Fin 26 = Num.Fin a ->
               (Qabs (9100 / a) <= Num.pow2 1023)%Q -> exists q, x = Num.Fin q) /\
            (Num.Fin 26 = Num.PosInf -> x = Num.Fin 0).
Proof.
  split.
  - apply (proj1 (vs_avg_finite Api.decimal_toString 9100 (Num.Fin 0))). reflexivity.
  - apply (proj2 (vs_avg_finite Api.decimal_toString 9100 (Num.Fin 26))). reflexivity.
Defined.

Example vs_avg_samples :
  vs_avg Api.decimal_toString (Num.Fin 9100) (Num.Fin 26) = Times "350" /\
  vs_avg Api.decimal_toString (Num.Fin 5) (Num.Fin 2) = Times "3" /\
  vs_avg Api.decimal_toString (Num.Fin 9100) Num.NaN = NoRatio.
Proof. repeat split; vm_compute; reflexivity. Qed.

(** X5.  When the request of the page settles, the page stops loading
    and keeps its filters; the list is replaced by the body of the reply
    when the reply is ok and parses, and every failure (no reply, a
    status that is not ok, a body that is no JSON) leaves the list that
    was shown before. *)
Theorem loadData_settle_keeps_or_replaces (st : state) (r : Api.response) :
  loading (loadData_settle st r) = false /\
  minZ (loadData_settle st r) = minZ st /\
  codeFilter (loadData_settle st r) = codeFilter st /\
  limit (loadData_settle st r) = limit st /\
  (forall data, r = Api.Reply true (Some data) ->
     anomalies (loadData_settle st r) = data) /\
  ((forall data, r <> Api.Reply true (Some data)) ->
     anomalies (loadData_settle st r) = anomalies st).
Proof.
  unfold loadData_settle, Api.fetchAnomalies_result, Api.json_or_throw.
  destruct r as [|[|] [data|]]; simpl; repeat split; try congruence;
    intros H; exfalso; apply (H data); reflexivity.
Qed.

Lemma loadData_settle_keeps_or_replaces_witness :
  anomalies (loadData_settle filtered_page (Api.Reply false None)) =
    anomalies filtered_page.
Proof.
  apply (proj2 (proj2 (proj2 (proj2 (proj2
           (loadData_settle_keeps_or_replaces filtered_page (Api.Reply false None))))))).
  intros data. discriminate.
Defined.

End AnomaliesPageProps.

Module RequestsProps.

Import Api Requests.

(** X6.  [fetchTrends] issues GET /api/trends; its query holds [start]
    and [end], in this order, each only when the bound was given and is
    not the empty string. *)
Theorem fetchTrends_query (start stop : option string) :
  method (fetchTrends_request start stop) = "GET" /\
  path (fetchTrends_request start stop) = "/api/trends" /\
  query (fetchTrends_request start stop) =
    match start with
    | Some s => if String.eqb s "" then [] else [("start", s)]
    | None => []
    end ++
    match stop with
    | Some e => if String.eqb e "" then [] else [("end", e)]
    | None => []
    end.
Proof.
  repeat split. unfold fetchTrends_request. simpl.
  destruct start as [s|], stop as [e|]; simpl;
    repeat (match goal with |- context [String.eqb ?x ""] =>
              destruct (String.eqb x "") end); reflexivity.
Qed.

End RequestsProps.

Module CurrencyProps.

Import Api.

Lemma Qfloor_eq (x : Q) (n : Z) :
  (inject_Z n <= x)%Q -> (x < inject_Z (n + 1))%Q -> Qfloor x = n.
Proof.
  intros Hle Hlt.
  pose proof (Qfloor_le x) as H1. pose proof (Qlt_floor x) as H2.
  assert (Qfloor x < n + 1)%Z.
  { rewrite Zlt_Qlt. eapply Qle_lt_trans; eassumption. }
  assert (n < Qfloor x + 1)%Z.
  { rewrite Zlt_Qlt. eapply Qle_lt_trans; eassumption. }
  lia.
Qed.

Lemma ge_false (x y : Q) : (x < y)%Q -> Num.ge (Num.Fin x) (Num.Fin y) = false.
Proof.
  intros H. simpl. destruct (Qle_bool y x) eqn:E; [|reflexivity].
  apply Qle_bool_iff in E. exfalso. apply (Qlt_not_le _ _ H E).
Qed.

Lemma ge_true (x y : Q) : (y <= x)%Q -> Num.ge (Num.Fin x) (Num.Fin y) = true.
Proof. intros H. simpl. apply Qle_bool_iff, H. Qed.

Lemma is_neg_false (x : Q) : (0 <= x)%Q -> Num.is_neg x = false.
Proof. intros H. unfold Num.is_neg. apply Qle_bool_iff in H. now rewrite H. Qed.


Lemma below_e21 (x : Q) : (Qabs x < e10 21)%Q -> Qle_bool (e10 21) (Qabs x) = false.
Proof.
  intros H. destruct (Qle_bool (e10 21) (Qabs x)) eqn:E; [|reflexivity].
  apply Qle_bool_iff in E. exfalso. apply (Qlt_not_le _ _ H E).
Qed.

Section Builtins.

Variable Number_toString : Q -> string.

Local Abbreviation formatCurrency := (Api.formatCurrency Number_toString).
Local Abbreviation toFixed := (Api.toFixed Number_toString).

(** The text of [toFixed] for a value whose scaled nearest integer is
    known. *)
Lemma toFixed_value (x : Q) (f : nat) (n : Z) :
  (0 <= x)%Q -> (x < 1001)%Q ->
  (inject_Z n <= x * e10 f + (1 # 2))%Q -> (x * e10 f + (1 # 2) < inject_Z (n + 1))%Q ->
  toFixed (Num.Fin x) f = fixed_text n f.
Proof.
  intros H0 H1 L U. unfold Api.toFixed.
  rewrite (is_neg_false x H0), (ApiProps.Qabs_nonneg_eq x H0).
  assert (Qle_bool (e10 21) x = false) as ->.
  { rewrite <- (ApiProps.Qabs_nonneg_eq x H0). apply below_e21.
    rewrite (Qabs_pos x H0). change (e10 21) with (1000000000000000000000 # 1)%Q. lra. }
  rewrite (Qfloor_eq _ n L U). reflexivity.
Qed.

(** The machine's quotient of an amount whose exact quotient lies
    between two bounds lies between the roundings of the bounds. *)
Lemma fdiv_between (q : Q) (k : nat) (lo hi : Q) :
  (0 < lo)%Q -> (lo <= q / e10 k)%Q -> (q / e10 k <= hi)%Q -> (hi <= 1024)%Q ->
  Num.fdiv (Num.Fin q) (Num.Fin (e10 k)) = Num.Fin (Num.on_grid (q / e10 k)) /\
  (Num.on_grid lo <= Num.on_grid (q / e10 k))%Q /\
  (Num.on_grid (q / e10 k) <= Num.on_grid hi)%Q.
Proof.
  intros Hlo H1 H2 Hhi.
  assert (0 < e10 k)%Q as Pk.
  { unfold e10. change 0%Q with (inject_Z 0). rewrite <- Zlt_Qlt.
    apply Z.pow_pos_nonneg; lia. }
  unfold Num.fdiv, Num.div. rewrite (NumProps.is_zero_false _ Pk).
  destruct (NumProps.round_between lo (q / e10 k) hi 10) as (R & B1 & B2);
    [assumption | assumption | assumption | exact Hhi | lia |].
  split; [exact R | split; assumption].
Qed.

(** X7.  The unit of [formatCurrency] is chosen before the value is
    rounded, so an amount just below the next unit is printed with four
    digits in the smaller unit: from 999.995 up to 1000 it reads
    "$1000.00", from 999500 up to a million "$1000K", and from 999950000
    up to a billion "$1000.0M". *)
Theorem formatCurrency_rounds_into_four_digits (q : Q) :
  ((99999500 # 100000 <= q)%Q -> (q < 1000)%Q ->
   formatCurrency (IsNumber (Num.Fin q)) = "$1000.00") /\
  ((999500 <= q)%Q -> (q < 1000000)%Q ->
   formatCurrency (IsNumber (Num.Fin q)) = "$1000K") /\
  ((999950000 <= q)%Q -> (q < 1000000000)%Q ->
   formatCurrency (IsNumber (Num.Fin q)) = "$1000.0M").
Proof.
  split; [|split]; intros Hlo Hhi; unfold Api.formatCurrency.
  - rewrite !ge_false by (change (e10 9) with (1000000000 # 1)%Q;
                          change (e10 6) with (1000000 # 1)%Q;
                          change (e10 3) with (1000 # 1)%Q; lra).
    rewrite (toFixed_value q 2 100000); [reflexivity | lra | lra | |].
    + change (e10 2) with (100 # 1)%Q. change (inject_Z 100000) with (100000 # 1)%Q. lra.
    + change (e10 2) with (100 # 1)%Q.
      change (inject_Z (100000 + 1)) with (100001 # 1)%Q. lra.
  - rewrite !ge_false by (change (e10 9) with (1000000000 # 1)%Q;
                          change (e10 6) with (1000000 # 1)%Q; lra).
    rewrite ge_true by (change (e10 3) with (1000 # 1)%Q; lra).
    assert (q / e10 3 == q * (1 # 1000))%Q as E.
    { change (e10 3) with (1000 # 1)%Q. field. }
    destruct (fdiv_between q 3 (1999 # 2) 1000) as (R & B1 & B2);
      [reflexivity | rewrite E; lra | rewrite E; lra | vm_compute; discriminate |].
    rewrite R.
    assert (1999 # 2 <= Num.on_grid (1999 # 2))%Q as L
      by (apply Qle_bool_iff; vm_compute; reflexivity).
    assert (Num.on_grid 1000 <= 1000)%Q as U
      by (apply Qle_bool_iff; vm_compute; reflexivity).
    rewrite (toFixed_value _ 0 1000); [reflexivity | lra | lra | |].
    + change (e10 0) with (1 # 1)%Q. change (inject_Z 1000) with (1000 # 1)%Q. lra.
    + change (e10 0) with (1 # 1)%Q. change (inject_Z (1000 + 1)) with (1001 # 1)%Q. lra.
  - rewrite ge_false by (change (e10 9) with (1000000000 # 1)%Q; lra).
    rewrite ge_true by (change (e10 6) with (1000000 # 1)%Q; lra).
    assert (q / e10 6 == q * (1 # 1000000))%Q as E.
    { change (e10 6) with (1000000 # 1)%Q. field. }
    destruct (fdiv_between q 6 (99995 # 100) 1000) as (R & B1 & B2);
      [reflexivity | rewrite E; lra | rewrite E; lra | vm_compute; discriminate |].
    rewrite R.
    assert (99995 # 100 <= Num.on_grid (99995 # 100))%Q as L
      by (apply Qle_bool_iff; vm_compute; reflexivity).
    assert (Num.on_grid 1000 <= 1000)%Q as U
      by (apply Qle_bool_iff; vm_compute; reflexivity).
    rewrite (toFixed_value _ 1 10000); [reflexivity | lra | lra | |].
    + change (e10 1) with (10 # 1)%Q. change (inject_Z 10000) with (10000 # 1)%Q. lra.
    + change (e10 1) with (10 # 1)%Q.
      change (inject_Z (10000 + 1)) with (10001 # 1)%Q. lra.
Qed.


End Builtins.

Lemma formatCurrency_rounds_into_four_digits_witness :
  Api.formatCurrency decimal_toString (IsNumber (Num.Fin 999999)) = "$1000K".
Proof.
  apply (proj1 (proj2
           (formatCurrency_rounds_into_four_digits decimal_toString 999999))); lra.
Defined.


End CurrencyProps.

Module TrendsCardsProps.

Import JS Trends TrendsCards TrendsProps.

(** X9.  When every month of the series begins with a year that is a
    canonical array index (four digits, as the service sends them), the
    entries of [yearlyData] come out in ascending order of the year, in
    whatever order the months arrived, and so do the qualifying years
    and the bars of the yearly chart. *)
Theorem years_in_ascending_order (trends : list MonthlyTrend) :
  (forall t, In t trends -> is_Some (array_index (year_of t))) ->
  StronglySorted key_le (years trends) /\
  StronglySorted key_le (qualifying trends) /\
  StronglySorted key_le (map year (yearlyArr trends)).
Proof.
  intros H. destruct (years_ascending trends H) as [_ Hs].
  split; [exact Hs|].
  assert (StronglySorted key_le (qualifying trends)) as Hq
    by (apply filter_StronglySorted, Hs).
  split; [exact Hq|].
  rewrite yearlyArr_tabulated, map_map. simpl. rewrite map_id. exact Hq.
Qed.

Lemma years_in_ascending_order_witness :
  StronglySorted key_le (years sample_series) /\
  StronglySorted key_le (qualifying sample_series) /\
  StronglySorted key_le (map year (yearlyArr sample_series)).
Proof.
  apply (years_in_ascending_order sample_series).
  apply List.Forall_forall. repeat constructor; vm_compute; eauto.
Defined.

(** X10.  The yearly chart is drawn exactly when some year has at least
    six months of data; it has one bar for each such year, no year
    twice, and the bar of a year carries the totals of the months of
    that year. *)
Theorem yearly_chart_bars (trends : list MonthlyTrend) :
  NoDup (qualifying trends) /\
  (forall y, In y (qualifying trends) <-> (6 <= months_in y trends)%nat) /\
  yearly_chart trends =
    match qualifying trends with
    | [] => None
    | _ => Some (map (entry_of trends) (qualifying trends))
    end.
Proof.
  split; [apply qualifying_NoDup|]. split; [apply qualifying_iff|].
  unfold yearly_chart. rewrite yearlyArr_tabulated.
  destruct (qualifying trends); reflexivity.
Qed.

Lemma two_years_fit (y1 y2 : string) (l : list MonthlyTrend) :
  y1 <> y2 -> (months_in y1 l + months_in y2 l <= length l)%nat.
Proof.
  intros Hne. unfold months_in, in_year.
  induction l as [|t l IH]; simpl; [lia|].
  destruct (String.eqb_spec (year_of t) y1) as [E1|_];
    destruct (String.eqb_spec (year_of t) y2) as [E2|_]; simpl; try lia.
  congruence.
Qed.

(** X11.  The three summary cards appear only for a series of at least
    twelve months, and then the first card has a last month to show: its
    amount is a number, never the "$0" of a missing value. *)
Theorem cards_need_twelve_months (trends : list MonthlyTrend) :
  cards_shown trends = true ->
  (12 <= coverage trends)%nat /\
  exists t, last trends = Some t /\
            latest_paid trends = Api.IsNumber (Num.Fin (total_paid t)).
Proof.
  unfold cards_shown. destruct (page_growth trends) as [g|] eqn:Hg; [|discriminate].
  intros _. destruct (page_growth_inv trends g Hg) as (earlier & prev & later & E & _).
  assert (12 <= length trends)%nat as H12.
  { pose proof (qualifying_NoDup trends) as Hnd.
    assert (In prev (qualifying trends)) as Hp
      by (rewrite E, in_app_iff; right; left; reflexivity).
    assert (In later (qualifying trends)) as Hl
      by (rewrite E, in_app_iff; right; right; left; reflexivity).
    apply qualifying_iff in Hp. apply qualifying_iff in Hl.
    assert (prev <> later) as Hne.
    { rewrite E in Hnd. apply NoDup_app in Hnd as (_ & _ & Hnd).
      apply NoDup_cons in Hnd as [Hnd _]. intros ->. apply Hnd. left. }
    pose proof (two_years_fit prev later trends Hne). lia. }
  split; [exact H12|]. unfold latest_paid.
  destruct (last trends) as [t|] eqn:El; [eauto|].
  apply last_None in El. subst trends. simpl in H12. lia.
Qed.

Lemma cards_need_twelve_months_witness :
  (12 <= coverage sample_series)%nat /\
  exists t, last sample_series = Some t /\
            latest_paid sample_series = Api.IsNumber (Num.Fin (total_paid t)).
Proof. apply (cards_need_twelve_months sample_series). reflexivity. Defined.

Lemma sum_months_single (k : string) (ks : list string) :
  NoDup ks -> In k ks ->
  fold_right Nat.add 0%nat (map (fun y => if String.eqb k y then 1 else 0)%nat ks) = 1%nat.
Proof.
  induction ks as [|y ks IH]; simpl; intros Hnd Hin; [contradiction|].
  apply NoDup_cons in Hnd as [Hy Hnd].
  destruct (String.eqb_spec k y) as [->|Hne].
  - assert (fold_right Nat.add 0%nat
              (map (fun y0 => if String.eqb y y0 then 1 else 0)%nat ks) = 0%nat) as ->;
      [|reflexivity].
    clear IH Hin Hnd. induction ks as [|z ks IH]; simpl; [reflexivity|].
    rewrite not_elem_of_cons in Hy. destruct Hy as [Hne Hy].
    destruct (String.eqb_spec y z); [congruence|]. rewrite IH by assumption. reflexivity.
  - destruct Hin as [->|Hin]; [congruence|]. rewrite IH by assumption. reflexivity.
Qed.

Lemma months_over_years (ks : list string) (l : list MonthlyTrend) :
  NoDup ks -> (forall t, In t l -> In (year_of t) ks) ->
  fold_right Nat.add 0%nat (map (fun y => months_in y l) ks) = length l.
Proof.
  intros Hnd. induction l as [|t l IH]; intros Hcov.
  - clear. induction ks as [|y ks IH]; simpl; [reflexivity | now rewrite IH].
  - assert (forall y, months_in y (t :: l) =
              ((if String.eqb (year_of t) y then 1 else 0) + months_in y l)%nat) as Hstep.
    { intros y. unfold months_in, in_year. simpl.
      destruct (String.eqb (year_of t) y); reflexivity. }
    rewrite (map_ext _ _ Hstep).
    assert (forall (f h : string -> nat) ks',
              fold_right Nat.add 0%nat (map (fun y => f y + h y)%nat ks') =
              (fold_right Nat.add 0 (map f ks') + fold_right Nat.add 0 (map h ks'))%nat)
      as Hadd.
    { intros f h ks'. induction ks' as [|a ks' IH']; simpl; [reflexivity | rewrite IH'; lia]. }
    rewrite Hadd, IH by (intros t' Ht'; apply Hcov; right; exact Ht').
    rewrite sum_months_single; [| exact Hnd | apply Hcov; left; reflexivity].
    reflexivity.
Qed.

(** X13.  Grouping by year loses and doubles no month: the month
    counts of the entries of [yearlyData] add up to the length of the
    series. *)
Theorem every_month_in_one_year (trends : list MonthlyTrend) :
  total_months (yearlyData trends) = length trends.
Proof.
  destruct (yearlyData_tabulated trends) as (Hall & Hnd & Hcov).
  assert (map (fun p => months (snd p)) (yearlyData trends) =
          map (fun y => months_in y trends) (obj_keys (yearlyData trends))) as Em.
  { unfold obj_keys. rewrite map_map. apply map_ext_in. intros p Hp.
    rewrite List.Forall_forall in Hall. rewrite (Hall p Hp). reflexivity. }
  unfold total_months. rewrite Em. apply months_over_years; assumption.
Qed.

End TrendsCardsProps.

Module ChatControlsProps.

Import JS Chat ChatControls LibProps Text.

Lemma trim_start_splits (s : string) :
  exists lead, s = lead +:+ trim_start s /\ all_white_space lead /\
    forall c rest, trim_start s = String c rest -> is_white_space c = false.
Proof.
  induction s as [|x s (lead & E & Hw & Hc)].
  - exists "". repeat split; [constructor | discriminate].
  - simpl. destruct (is_white_space x) eqn:Ex.
    + exists (String x lead). rewrite append_cons, <- E.
      repeat split; [constructor; assumption | exact Hc].
    + exists "". repeat split; [constructor|].
      intros c rest [= -> _]. exact Ex.
Qed.

Lemma all_white_space_rev (s : string) :
  all_white_space s -> all_white_space (String.rev s).
Proof.
  unfold all_white_space. rewrite chars_rev. intros H.
  apply List.Forall_forall. intros c Hc. apply in_rev in Hc.
  rewrite List.Forall_forall in H. apply H, Hc.
Qed.

Lemma trim_end_splits (s : string) :
  exists trail, s = trim_end s +:+ trail /\ all_white_space trail /\
    forall init c, trim_end s = init +:+ String c "" -> is_white_space c = false.
Proof.
  destruct (trim_start_splits (String.rev s)) as (lead & E & Hw & Hc).
  exists (String.rev lead). unfold trim_end. repeat split.
  - rewrite <- rev_append, <- E, rev_rev. reflexivity.
  - apply all_white_space_rev, Hw.
  - intros init c H. apply (f_equal String.rev) in H.
    rewrite rev_rev, rev_append in H. apply (Hc c _ H).
Qed.

Lemma trim_splits (s : string) :
  exists lead trail,
    s = lead +:+ trim s +:+ trail /\ all_white_space lead /\ all_white_space trail /\
    (forall c rest, trim s = String c rest -> is_white_space c = false) /\
    (forall init c, trim s = init +:+ String c "" -> is_white_space c = false).
Proof.
  destruct (trim_start_splits s) as (lead & E & Hw & Hc).
  destruct (trim_end_splits (trim_start s)) as (trail & E' & Hw' & Hc').
  exists lead, trail. unfold trim. repeat split; try assumption.
  - rewrite <- E'. exact E.
  - intros c rest H. apply (Hc c (rest +:+ trail)).
    rewrite E' at 1. rewrite H. reflexivity.
Qed.

(** X14.  The send button is disabled in exactly the states in which
    [handleSend()] does nothing; and a key press sends something only
    when the key is Enter without Shift and the send button is
    enabled. *)
Theorem send_button_matches_guard (st : state) :
  (send_disabled st = true <-> handleSend_begin st None = (st, None)) /\
  (forall key shiftKey,
      snd (handleKeyDown st key shiftKey) <> (st, None) ->
      key = "Enter" /\ shiftKey = false /\ send_disabled st = false).
Proof.
  assert (send_disabled st = true <-> handleSend_begin st None = (st, None)) as H.
  { unfold send_disabled, handleSend_begin. simpl message_text.
    destruct (negb (truthy (Str (trim (input st)))) || loading st).
    - split; reflexivity.
    - split; discriminate. }
  split; [exact H|]. intros key shiftKey. unfold handleKeyDown.
  destruct (String.eqb_spec key "Enter") as [->|]; simpl; [|congruence].
  destruct shiftKey; simpl; [congruence|]. intros Hne.
  repeat split. destruct (send_disabled st); [|reflexivity].
  exfalso. apply Hne, H. reflexivity.
Qed.

Lemma send_button_matches_guard_witness :
  send_disabled retry_state = false /\
  snd (handleKeyDown retry_state "Enter" true) = (retry_state, None).
Proof.
  split.
  - apply (proj2 (send_button_matches_guard retry_state) "Enter" false).
    vm_compute. discriminate.
  - destruct (snd (handleKeyDown retry_state "Enter" true)) as [st req] eqn:E.
    vm_compute in E. injection E as <- <-. reflexivity.
Defined.

(** X15.  A message sent from the input field is the typed text without
    the white space around it: the input is the message between two runs
    of white space, the message is not empty and neither begins nor ends
    with white space, and it is this text that goes into the request and
    into the transcript, while the field is cleared. *)
Theorem typed_text_is_sent_trimmed (st st' : state) (req : Api.request) :
  handleSend_begin st None = (st', Some req) ->
  exists lead text trail,
    input st = lead +:+ text +:+ trail /\
    all_white_space lead /\ all_white_space trail /\
    text <> "" /\
    (forall c rest, text = String c rest -> is_white_space c = false) /\
    (forall init c, text = init +:+ String c "" -> is_white_space c = false) /\
    req = Api.sendChatMessage_request text (history_of (messages st)) /\
    st' = {| messages := messages st ++ [user_message text];
             input := ""; loading := true |}.
Proof.
  unfold handleSend_begin. simpl message_text.
  destruct (negb _ || loading st) eqn:G; [discriminate|].
  intros [= <- <-]. apply orb_false_iff in G as [G _].
  apply negb_false_iff, Text.truthy_Str in G.
  destruct (trim_splits (input st)) as (lead & trail & E & Hl & Ht & Hf & Hb).
  exists lead, (trim (input st)), trail. repeat split; assumption.
Qed.

Lemma typed_text_is_sent_trimmed_witness :
  exists lead text trail,
    input retry_state = lead +:+ text +:+ trail /\
    all_white_space lead /\ all_white_space trail /\
    text <> "" /\
    (forall c rest, text = String c rest -> is_white_space c = false) /\
    (forall init c, text = init +:+ String c "" -> is_white_space c = false) /\
    retry_request =
      Api.sendChatMessage_request text (history_of (messages retry_state)) /\
    retry_sent = {| messages := messages retry_state ++ [user_message text];
                    input := ""; loading := true |}.
Proof.
  apply (typed_text_is_sent_trimmed retry_state retry_sent retry_request).
  reflexivity.
Defined.

(** X16.  A click on one of the suggested questions while the page is
    idle always sends that question, word for word, whatever the input
    field holds, and clears the field: a draft typed there is lost. *)
Theorem suggestion_discards_draft (st : state) (t : string) :
  In t SUGGESTED_QUERIES -> suggestion_disabled st = false ->
  handleSend_begin st (Some t) =
    ({| messages := messages st ++ [user_message t]; input := ""; loading := true |},
     Some (Api.sendChatMessage_request t (history_of (messages st)))).
Proof.
  unfold suggestion_disabled. intros Hin Hl.
  assert (message_text (Some t) (input st) = t) as Et.
  { simpl in Hin. decompose [or] Hin; subst; try reflexivity. contradiction. }
  rewrite <- Et at 2 3. apply ChatProps.handleSend_begin_sends; [exact Hl|].
  rewrite Et. simpl in Hin. decompose [or] Hin; subst; try discriminate. contradiction.
Qed.

Lemma suggestion_discards_draft_witness :
  handleSend_begin retry_state (Some "Show spending growth rate by year") =
    ({| messages := messages retry_state ++
                      [user_message "Show spending growth rate by year"];
        input := ""; loading := true |},
     Some (Api.sendChatMessage_request "Show spending growth rate by year"
             (history_of (messages retry_state)))).
Proof.
  apply (suggestion_discards_draft retry_state "Show spending growth rate by year");
    [simpl; tauto | reflexivity].
Defined.

(** X17.  On a page that is rendered between any two calls of
    [handleSend] and is not remounted, the transcript is a sequence of
    completed exchanges, each a user turn followed by the turn appended
    when its request settled, followed while a request is under way by
    the one user turn that is waiting; the request under way carries
    that message and, as its history, exactly the completed
    exchanges. *)
Theorem transcript_pairs_up (events : list event) :
  paced false events = true ->
  exists done : list exchange,
    (loading (ui (run start events)) = false /\
     requests (run start events) = [] /\
     messages (ui (run start events)) = transcript_of done) \/
    (exists t, loading (ui (run start events)) = true /\ t <> "" /\
       requests (run start events) =
         [Api.sendChatMessage_request t (history_of (transcript_of done))] /\
       messages (ui (run start events)) = transcript_of done ++ [user_message t]).
Proof.
  intros Hp. unfold requests.
  destruct (ChatProps.paced_from_start events Hp)
    as (-> & done & [(Hq & Hl & Hm & _) | (t & Hq & Hl & Ht & Hm & _)]);
    exists done; simpl.
  - left. auto.
  - right. exists t. auto.
Qed.

Lemma transcript_pairs_up_witness :
  exists done : list exchange,
    (loading (ui (run start second_question)) = false /\
     requests (run start second_question) = [] /\
     messages (ui (run start second_question)) = transcript_of done) \/
    (exists t, loading (ui (run start second_question)) = true /\ t <> "" /\
       requests (run start second_question) =
         [Api.sendChatMessage_request t (history_of (transcript_of done))] /\
       messages (ui (run start second_question)) =
         transcript_of done ++ [user_message t]).
Proof. apply (transcript_pairs_up second_question). reflexivity. Defined.









End ChatControlsProps.

Module MarkdownProps.

Import Markdown LibProps Text.

Lemma run_splits (stop : ascii) (s : string) :
  s = fst (run stop s) +:+ snd (run stop s).
Proof.
  induction s as [|c s IH]; simpl; [reflexivity|].
  destruct (Ascii.eqb c stop); [reflexivity|].
  destruct (run stop s) as [body tail]. simpl in *. rewrite append_cons, <- IH.
  reflexivity.
Qed.

Lemma run_stops (stop : ascii) (t rest : string) :
  all_chars (fun c => negb (Ascii.eqb c stop)) t = true ->
  run stop (t +:+ String stop rest) = (t, String stop rest).
Proof.
  induction t as [|c t IH]; intros H.
  - rewrite append_nil. simpl. rewrite Ascii.eqb_refl. reflexivity.
  - simpl in H. apply andb_true_iff in H as [Hc Ht]. apply negb_true_iff in Hc.
    rewrite append_cons. simpl. rewrite Hc, (IH Ht). reflexivity.
Qed.

Lemma drop_prefix (a b : string) :
  substring (String.length a) (String.length (a +:+ b) - String.length a) (a +:+ b) = b.
Proof.
  induction a as [|x a IH].
  - rewrite append_nil. simpl String.length. rewrite Nat.sub_0_r.
    induction b as [|y b IHb]; simpl; [reflexivity | now rewrite IHb].
  - rewrite append_cons. simpl. exact IH.
Qed.

Lemma take_prefix (a b : string) : substring 0 (String.length a) (a +:+ b) = a.
Proof.
  induction a as [|x a IH]; [destruct b; reflexivity|].
  rewrite append_cons. simpl. now rewrite IH.
Qed.

Lemma delimited_prefix (mark : string) (stop : ascii) (s m : string) :
  delimited mark stop s = Some m -> exists tail, s = m +:+ tail.
Proof.
  unfold delimited. destruct (String.prefix mark s) eqn:P; [|discriminate].
  apply prefix_iff in P as (b & ->). rewrite drop_prefix.
  pose proof (run_splits stop b) as E. destruct (run stop b) as [body tail].
  simpl in E. destruct (negb _ && String.prefix mark tail) eqn:G; [|discriminate].
  intros [= <-]. apply andb_true_iff in G as [_ G].
  apply prefix_iff in G as (b' & ->). exists b'.
  rewrite E, !append_assoc. reflexivity.
Qed.

Lemma delimited_nonempty (mark : string) (stop : ascii) (s m : string) :
  mark <> "" -> delimited mark stop s = Some m -> m <> "".
Proof.
  unfold delimited. intros Hm. destruct (String.prefix mark s); [|discriminate].
  destruct (run _ _) as [body tail]. destruct (_ && _); [|discriminate].
  intros [= <-]. destruct mark; [congruence | discriminate].
Qed.

Lemma match_at_prefix (s m : string) :
  match_at s = Some m -> m <> "" /\ exists tail, s = m +:+ tail.
Proof.
  unfold match_at.
  destruct (delimited "**" "*" s) eqn:E1.
  { intros [= <-]. split; [eapply delimited_nonempty; [|exact E1]; discriminate|].
    eapply delimited_prefix, E1. }
  destruct (delimited "*" "*" s) eqn:E2.
  { intros [= <-]. split; [eapply delimited_nonempty; [|exact E2]; discriminate|].
    eapply delimited_prefix, E2. }
  destruct (delimited "`" "`" s) eqn:E3.
  { intros [= <-]. split; [eapply delimited_nonempty; [|exact E3]; discriminate|].
    eapply delimited_prefix, E3. }
  destruct s as [|c rest]; [discriminate|].
  destruct (Ascii.eqb_spec c newline) as [->|]; [|discriminate].
  intros [= <-]. split; [discriminate|]. exists rest. reflexivity.
Qed.

Lemma concat_cons (x : string) (l : list string) :
  String.concat "" (x :: l) = x +:+ String.concat "" l.
Proof. destruct l; simpl; [now rewrite append_empty | reflexivity]. Qed.

Lemma split_go_concat (s : string) :
  forall (skip : nat) (pending a b : string),
    s = a +:+ b -> String.length a = skip ->
    String.concat "" (split_go skip pending s) = pending +:+ b.
Proof.
  induction s as [|c rest IH]; intros skip pending a b E L.
  - destruct a; [|discriminate]. rewrite append_nil in E. subst b.
    simpl. now rewrite append_empty.
  - simpl. destruct skip as [|k].
    + destruct a; [|discriminate]. rewrite append_nil in E. subst b.
      destruct (match_at (String c rest)) as [m|] eqn:M.
      * apply match_at_prefix in M as (Hne & tail & Em).
        destruct m as [|x m']; [congruence|]. rewrite append_cons in Em.
        injection Em as <- ->. rewrite !concat_cons.
        replace (String.length (String c m') - 1)%nat with (String.length m')
          by (simpl; lia).
        rewrite (IH _ "" m' tail eq_refl eq_refl).
        rewrite append_nil, append_cons. reflexivity.
      * rewrite (IH 0%nat _ "" rest eq_refl eq_refl), append_assoc. reflexivity.
    + destruct a as [|x a]; [discriminate|]. rewrite append_cons in E.
      injection E as _ ->. injection L as L. apply (IH k pending a b eq_refl L).
Qed.

(** X19.  Splitting the narrative at its markers loses nothing and adds
    nothing: the parts [RichText] maps over, put together again in their
    order, are the text. *)
Theorem split_round_trip (text : string) :
  String.concat "" (split text) = text.
Proof. unfold split. apply (split_go_concat text 0 "" "" text); reflexivity. Qed.

Lemma prefix_cons (a b : ascii) (s t : string) :
  String.prefix (String a s) (String b t) = Ascii.eqb a b && String.prefix s t.
Proof.
  change (String.prefix (String a s) (String b t))
    with (if Ascii.ascii_dec a b then String.prefix s t else false).
  destruct (Ascii.ascii_dec a b) as [->|H].
  - rewrite Ascii.eqb_refl. reflexivity.
  - apply Ascii.eqb_neq in H. rewrite H. reflexivity.
Qed.

Lemma plain_char_cases (c : ascii) :
  plain_char c = true ->
  Ascii.eqb "*" c = false /\ Ascii.eqb "`" c = false /\ Ascii.eqb c newline = false.
Proof.
  unfold plain_char. rewrite negb_true_iff, !orb_false_iff.
  intros [[H1 H2] H3]. rewrite (Ascii.eqb_sym "*"), (Ascii.eqb_sym "`"). auto.
Qed.

Lemma plain_no_match (c : ascii) (rest : string) :
  plain_char c = true -> match_at (String c rest) = None.
Proof.
  intros H. apply plain_char_cases in H as (H1 & H2 & H3).
  unfold match_at, delimited. rewrite !prefix_cons, H1, H2, H3. reflexivity.
Qed.

Lemma split_go_plain (s pending : string) :
  all_chars plain_char s = true -> split_go 0 pending s = [pending +:+ s].
Proof.
  revert pending. induction s as [|c s IH]; intros pending H; simpl.
  - now rewrite append_empty.
  - simpl in H. apply andb_true_iff in H as [Hc Hs].
    rewrite (plain_no_match c s Hc), (IH _ Hs), append_assoc. reflexivity.
Qed.

Lemma render_part_plain (s : string) :
  all_chars plain_char s = true ->
  render_part s = if String.eqb s "" then [] else [Span s].
Proof.
  destruct s as [|c s]; [reflexivity|]. simpl. intros H.
  apply andb_true_iff in H as [Hc _].
  apply plain_char_cases in Hc as (H1 & H2 & H3).
  unfold render_part, Lib.startsWith. rewrite !prefix_cons, H1, H2.
  cbn [String.eqb andb]. rewrite H3. reflexivity.
Qed.

(** X20.  A narrative without asterisk, backtick and line break is
    shown as it is, in one span. *)
Theorem plain_text_unchanged (text : string) :
  all_chars plain_char text = true -> text <> "" ->
  render text = [Span text].
Proof.
  intros H Hne. unfold render, split. rewrite (split_go_plain text "" H), append_nil.
  cbn [flat_map]. rewrite app_nil_r, (render_part_plain text H).
  destruct (String.eqb_spec text ""); [contradiction | reflexivity].
Qed.

Lemma plain_text_unchanged_witness :
  render "There are 7 rows." = [Span "There are 7 rows."].
Proof.
  apply (plain_text_unchanged "There are 7 rows."); [reflexivity | discriminate].
Defined.

Lemma split_go_skip (a b pending : string) :
  split_go (String.length a) pending (a +:+ b) = split_go 0 pending b.
Proof.
  induction a as [|x a IH]; [rewrite append_nil; destruct b; reflexivity|].
  rewrite append_cons. simpl. exact IH.
Qed.

Lemma split_go_marked (before m after : string) :
  all_chars plain_char before = true -> match_at (m +:+ after) = Some m ->
  forall pending,
    split_go 0 pending (before +:+ m +:+ after) =
      (pending +:+ before) :: m :: split_go 0 "" after.
Proof.
  intros Hb Hm. induction before as [|c before IH]; intros pending.
  - rewrite append_nil, append_empty.
    destruct (match_at_prefix _ _ Hm) as (Hne & _).
    destruct m as [|x m']; [congruence|]. rewrite append_cons in *.
    simpl. rewrite Hm.
    replace (String.length (String x m') - 1)%nat with (String.length m')
      by (simpl; lia).
    rewrite split_go_skip. reflexivity.
  - simpl in Hb. apply andb_true_iff in Hb as [Hc Hb].
    rewrite append_cons. simpl. rewrite (plain_no_match c _ Hc), (IH Hb).
    rewrite append_assoc. reflexivity.
Qed.

Lemma prefix_intro (m a : string) : String.prefix m (m +:+ a) = true.
Proof. apply prefix_iff. exists a. reflexivity. Qed.

Lemma delimited_hit (mark r : string) (stop : ascii) (t after : string) :
  mark = String stop r ->
  all_chars (fun c => negb (Ascii.eqb c stop)) t = true -> t <> "" ->
  delimited mark stop (mark +:+ t +:+ mark +:+ after) = Some (mark +:+ t +:+ mark).
Proof.
  intros Em Ht Hne.
  assert (mark +:+ after = String stop (r +:+ after)) as E by (subst; reflexivity).
  unfold delimited. rewrite prefix_intro, drop_prefix, E, (run_stops stop t _ Ht).
  rewrite <- E, prefix_intro.
  destruct (String.eqb_spec t ""); [contradiction | reflexivity].
Qed.

Lemma endsWith_intro (a m : string) : Lib.endsWith (a +:+ m) m = true.
Proof. unfold Lib.endsWith. rewrite rev_append. apply prefix_intro. Qed.

Lemma substring_skip (m s : string) (k : nat) :
  substring (String.length m) k (m +:+ s) = substring 0 k s.
Proof.
  induction m as [|x m IH]; [reflexivity|]. rewrite append_cons. simpl. exact IH.
Qed.

Lemma endsWith_marked (a t m : string) : Lib.endsWith (a +:+ t +:+ m) m = true.
Proof. rewrite <- append_assoc. apply endsWith_intro. Qed.

Lemma slice_inner_marked (n : nat) (m t m' : string) :
  n = String.length m -> String.length m' = String.length m ->
  Lib.slice_inner n (m +:+ t +:+ m') = t.
Proof.
  intros -> L. unfold Lib.slice_inner. rewrite !Text.length_append.
  replace (String.length m + (String.length t + String.length m') -
           2 * String.length m)%nat with (String.length t) by lia.
  rewrite substring_skip. apply take_prefix.
Qed.

Lemma star_free_head (t : string) :
  all_chars (fun c => negb (Ascii.eqb c "*")) t = true -> t <> "" ->
  exists c t', t = String c t' /\ Ascii.eqb "*" c = false.
Proof.
  destruct t as [|c t']; [congruence|]. intros H _. simpl in H.
  apply andb_true_iff in H as [H _]. apply negb_true_iff in H.
  exists c, t'. rewrite Ascii.eqb_sym. auto.
Qed.

Lemma match_at_bold (t after : string) :
  all_chars (fun c => negb (Ascii.eqb c "*")) t = true -> t <> "" ->
  match_at (("**" +:+ t +:+ "**") +:+ after) = Some ("**" +:+ t +:+ "**").
Proof.
  intros Ht Hne. unfold match_at. rewrite !append_assoc.
  rewrite (delimited_hit "**" "*" "*" t after eq_refl Ht Hne). reflexivity.
Qed.

Lemma match_at_em (t after : string) :
  all_chars (fun c => negb (Ascii.eqb c "*")) t = true -> t <> "" ->
  match_at (("*" +:+ t +:+ "*") +:+ after) = Some ("*" +:+ t +:+ "*").
Proof.
  intros Ht Hne. unfold match_at. rewrite !append_assoc.
  rewrite (delimited_hit "*" "" "*" t after eq_refl Ht Hne).
  destruct (star_free_head t Ht Hne) as (c & t' & -> & Hc).
  unfold delimited at 1. repeat (rewrite append_cons || rewrite append_nil).
  rewrite !prefix_cons, Hc, andb_false_r. reflexivity.
Qed.

Lemma match_at_code (t after : string) :
  all_chars (fun c => negb (Ascii.eqb c "`")) t = true -> t <> "" ->
  match_at (("`" +:+ t +:+ "`") +:+ after) = Some ("`" +:+ t +:+ "`").
Proof.
  intros Ht Hne. unfold match_at. rewrite !append_assoc.
  rewrite (delimited_hit "`" "" "`" t after eq_refl Ht Hne).
  unfold delimited at 1 2. repeat (rewrite append_cons || rewrite append_nil).
  rewrite !prefix_cons. reflexivity.
Qed.

Lemma render_part_bold (t : string) :
  t <> "" -> render_part ("**" +:+ t +:+ "**") = [Strong t].
Proof.
  intros Hne. unfold render_part.
  rewrite endsWith_marked.
  unfold Lib.startsWith. rewrite prefix_intro.
  rewrite (slice_inner_marked 2 "**" t "**" eq_refl eq_refl).
  repeat (rewrite append_cons || rewrite append_nil). reflexivity.
Qed.

Lemma render_part_em (t : string) :
  all_chars (fun c => negb (Ascii.eqb c "*")) t = true -> t <> "" ->
  render_part ("*" +:+ t +:+ "*") = [Em t].
Proof.
  intros Ht Hne. unfold render_part.
  rewrite endsWith_marked.
  unfold Lib.startsWith. rewrite (prefix_intro "*").
  rewrite (slice_inner_marked 1 "*" t "*" eq_refl eq_refl).
  destruct (star_free_head t Ht Hne) as (c & t' & -> & Hc).
  repeat (rewrite append_cons || rewrite append_nil).
  rewrite !prefix_cons, Hc, andb_false_r. reflexivity.
Qed.

Lemma render_part_code (t : string) :
  t <> "" -> render_part ("`" +:+ t +:+ "`") = [Code t].
Proof.
  intros Hne. unfold render_part.
  rewrite endsWith_marked.
  unfold Lib.startsWith. rewrite (prefix_intro "`").
  rewrite (slice_inner_marked 1 "`" t "`" eq_refl eq_refl).
  repeat (rewrite append_cons || rewrite append_nil).
  rewrite !prefix_cons. reflexivity.
Qed.

Lemma render_marked (before m after : string) :
  all_chars plain_char before = true -> match_at (m +:+ after) = Some m ->
  render (before +:+ m +:+ after) =
    render_part before ++ render_part m ++ render after.
Proof.
  intros Hb Hm. unfold render, split.
  rewrite (split_go_marked before m after Hb Hm), append_nil. reflexivity.
Qed.

(** X21.  After plain text, a text between double asterisks is shown
    in bold, between single asterisks in italics and between backticks
    as code, each without its markers, provided the text is not empty
    and holds no asterisk (no backtick, for code); the plain text before
    it is kept and what follows is rendered on its own. *)
Theorem marked_spans_rendered (before t after : string) :
  all_chars plain_char before = true -> t <> "" ->
  (all_chars (fun c => negb (Ascii.eqb c "*")) t = true ->
   render (before +:+ ("**" +:+ t +:+ "**") +:+ after) =
     render_part before ++ Strong t :: render after /\
   render (before +:+ ("*" +:+ t +:+ "*") +:+ after) =
     render_part before ++ Em t :: render after) /\
  (all_chars (fun c => negb (Ascii.eqb c "`")) t = true ->
   render (before +:+ ("`" +:+ t +:+ "`") +:+ after) =
     render_part before ++ Code t :: render after).
Proof.
  intros Hb Hne. split; [intros Ht; split | intros Ht].
  - rewrite (render_marked _ _ _ Hb (match_at_bold t after Ht Hne)),
      (render_part_bold t Hne). reflexivity.
  - rewrite (render_marked _ _ _ Hb (match_at_em t after Ht Hne)),
      (render_part_em t Ht Hne). reflexivity.
  - rewrite (render_marked _ _ _ Hb (match_at_code t after Ht Hne)),
      (render_part_code t Hne). reflexivity.
Qed.


Lemma marked_spans_rendered_witness :
  render ("Total: " +:+ ("**" +:+ "7 rows" +:+ "**") +:+ " in `claims`") =
    render_part "Total: " ++ Strong "7 rows" :: render " in `claims`".
Proof.
  apply (proj1 (proj1 (marked_spans_rendered "Total: " "7 rows" " in `claims`"
                         eq_refl ltac:(discriminate)) eq_refl)).
Defined.

End MarkdownProps.

Module CellsProps.

Import JS Cells LibProps Text.

Lemma length_capitalized (b : bool) (s : string) :
  String.length (capitalized b s) = String.length s.
Proof.
  revert b. induction s as [|c s IH]; intros b; simpl; [reflexivity | now rewrite IH].
Qed.

Lemma upper_not_underscore (c : ascii) : c <> "_"%char -> Lib.upper c <> "_"%char.
Proof.
  intros Hc. unfold Lib.upper.
  destruct ((97 <=? nat_of_ascii c) && (nat_of_ascii c <=? 122))%nat eqn:E; [|exact Hc].
  apply andb_true_iff in E as [E1 E2]. apply Nat.leb_le in E1, E2.
  intros H. apply (f_equal nat_of_ascii) in H.
  rewrite nat_ascii_embedding in H by lia.
  change (nat_of_ascii "_") with 95%nat in H. lia.
Qed.

Lemma capitalized_no_underscore (b : bool) (s : string) :
  ~ In "_"%char (list_ascii_of_string s) ->
  ~ In "_"%char (list_ascii_of_string (capitalized b s)).
Proof.
  revert b. induction s as [|c s IH]; intros b; simpl; [auto|].
  intros H [E | Hin].
  - assert (c <> "_"%char) as Hc by (intros ->; apply H; left; reflexivity).
    destruct (Lib.is_word c && negb b); [|congruence].
    apply (upper_not_underscore c Hc). exact E.
  - apply (IH (Lib.is_word c)); [|exact Hin]. intros Hs. apply H. right. exact Hs.
Qed.

Lemma spaced_no_underscore (s : string) :
  ~ In "_"%char (list_ascii_of_string (spaced s)).
Proof.
  unfold spaced. induction s as [|c s IH]; simpl; [auto|].
  intros [E | Hin]; [|exact (IH Hin)].
  destruct (Ascii.eqb_spec c "_"); [discriminate | congruence].
Qed.

(** X22.  A column without a label of its own gets a header of the same
    length as its name in which no underscore is left. *)
Theorem formatHeader_fallback (key h : string) :
  obj_get labels key = None -> formatHeader key = Some h ->
  String.length h = String.length key /\
  ~ In "_"%char (list_ascii_of_string h).
Proof.
  unfold formatHeader. intros ->. destruct (existsb _ _); [discriminate|].
  intros [= <-]. split.
  - unfold spaced. rewrite length_capitalized, length_map_chars. reflexivity.
  - apply capitalized_no_underscore, spaced_no_underscore.
Qed.

Lemma formatHeader_fallback_witness :
  String.length "Avg Claims Per Month" = String.length "avg_claims_per_month" /\
  ~ In "_"%char (list_ascii_of_string "Avg Claims Per Month").
Proof.
  apply (formatHeader_fallback "avg_claims_per_month" "Avg Claims Per Month");
    reflexivity.
Defined.

Lemma includes_avg_paid (key : string) :
  Lib.includes key "avg_paid" = true -> Lib.includes key "paid" = true.
Proof. intros H. apply (includes_trans _ _ _ H). reflexivity. Qed.

(** X23.  Outside the six columns with a style of their own, a number
    is shown as money exactly when the name of its column, in lower
    case, contains "paid" or "cost"; the third test of [SmartCell], for
    "avg_paid", never decides anything, and a column such as
    [z_score_paid] is shown as money, not as a score. *)
Theorem money_columns (colKey : string) (n : Num.num) :
  ~ In (Lib.toLowerCase colKey)
       ["provider_name"; "specialty"; "state"; "city"; "provider_type";
        "description"] ->
  (SmartCell colKey (Num n) = Currency n <->
   Lib.includes (Lib.toLowerCase colKey) "paid"
   || Lib.includes (Lib.toLowerCase colKey) "cost" = true).
Proof.
  intros Hk. unfold SmartCell.
  set (key := Lib.toLowerCase colKey) in *.
  repeat match goal with
  | |- context [String.eqb key ?lit] =>
      destruct (String.eqb_spec key lit) as [E|_];
      [exfalso; apply Hk; rewrite E; simpl; tauto|]
  end.
  cbn [orb].
  destruct (Lib.includes key "paid" || Lib.includes key "cost") eqn:E.
  - split; reflexivity.
  - destruct (Lib.includes key "avg_paid") eqn:Ea.
    + apply includes_avg_paid in Ea. rewrite Ea in E. discriminate.
    + cbn [orb]. split; [|discriminate]. repeat case_match; discriminate.
Qed.

Lemma money_columns_witness :
  SmartCell "Z_Score_Paid" (Num (Num.Fin 7)) = Currency (Num.Fin 7).
Proof.
  apply (proj2 (money_columns "Z_Score_Paid" (Num.Fin 7)
                  ltac:(vm_compute; intuition discriminate))).
  reflexivity.
Defined.

(** X24.  A value that is [null] or [undefined] is shown as a dash in
    every column. *)
Theorem missing_value_is_dash (colKey : string) (v : value) :
  v = Undefined \/ v = Null -> is_dash (SmartCell colKey v) = true.
Proof.
  intros [-> | ->]; unfold SmartCell; cbn [truthy negb orb];
    repeat case_match; reflexivity.
Qed.

Lemma missing_value_is_dash_witness :
  is_dash (SmartCell "total_paid" Null) = true.
Proof. apply (missing_value_is_dash "total_paid" Null). right. reflexivity. Defined.

End CellsProps.

Module CodeExplorerProps.

Import JS CodeExplorer LibProps Text.

Lemma includes_nonempty (s t : string) :
  Lib.includes s t = true -> t <> "" -> s <> "".
Proof.
  intros H Ht ->. simpl in H. rewrite orb_false_r in H.
  destruct t; [congruence | discriminate].
Qed.

Lemma matches_narrows (t1 t2 : string) (c : CodeSummary) :
  Lib.includes t2 t1 = true -> matches t2 c = true -> matches t1 c = true.
Proof.
  intros H. unfold matches. rewrite !orb_true_iff. intros [Hc | Hd].
  - left. apply (includes_trans _ _ _ Hc H).
  - right. destruct (description c) as [d|]; [|discriminate].
    apply andb_true_iff in Hd as [Hd1 Hd2]. rewrite Hd1. simpl.
    apply (includes_trans _ _ _ Hd2), includes_lower, H.
Qed.

(** X25.  For search terms and descriptions in Latin-1 (code units
    below 256, the strings of this model), a longer search term never
    brings a code back: when the old term occurs in the new one, as when
    the user types on, every code listed for the new term was listed for
    the old one.  The restriction matters: [toLowerCase] maps a Latin-1
    string character by character, which it does not do for Greek. *)
Theorem search_narrows (t1 t2 : string) (codes : list CodeSummary) :
  Lib.includes t2 t1 = true ->
  forall c, In c (filtered t2 codes) -> In c (filtered t1 codes).
Proof.
  intros H c. unfold filtered.
  destruct (truthy (Str t1)) eqn:E1.
  - apply Text.truthy_Str in E1.
    pose proof (includes_nonempty _ _ H E1) as E2. apply Text.truthy_Str in E2.
    rewrite E2, !List.filter_In. intros [Hin Hm]. split; [exact Hin|].
    apply (matches_narrows t1 t2 c H Hm).
  - destruct (truthy (Str t2)); [|auto]. rewrite List.filter_In. tauto.
Qed.

Lemma search_narrows_witness :
  In {| hcpcs_code := "97153"; description := Some "Adaptive behavior treatment";
        provider_count := Num.Fin 12; total_claims := Num.Fin 340;
        total_paid := Num.Fin 9100; avg_paid_per_claim := Num.Fin 26 |}
     (filtered "97" sample_codes).
Proof.
  apply (search_narrows "97" "971" sample_codes); [reflexivity|].
  left. reflexivity.
Defined.

End CodeExplorerProps.

Module DashboardProps.

Import JS Dashboard.

Lemma failed_throws (msg : string) (r : Api.response) :
  failed r = true -> exists e, Api.json_or_throw msg r = Api.Thrown e.
Proof. destruct r as [|[] [v|]]; simpl; intros H; try discriminate; eauto. Qed.

Lemma all4_thrown (a b c d : Api.outcome value) :
  (exists e, a = Api.Thrown e) \/ (exists e, b = Api.Thrown e) \/
  (exists e, c = Api.Thrown e) \/ (exists e, d = Api.Thrown e) ->
  exists e, all4 a b c d = Api.Thrown e.
Proof.
  intros H. destruct a, b, c, d; simpl; eauto.
  destruct H as [[e H] | [[e H] | [[e H] | [e H]]]]; discriminate.
Qed.

(** X26.  The dashboard takes all four replies or none: when one of
    its four requests fails, whichever it is, the page stops loading and
    keeps the overview, trends, providers and codes it had, the replies
    that did arrive included; only when all four succeed does it show
    their bodies. *)
Theorem dashboard_all_or_nothing (st : state) (ov tr tp tc : Api.response) :
  (existsb failed [ov; tr; tp; tc] = true ->
   load st ov tr tp tc =
     {| overview := overview st; trends := trends st;
        topProviders := topProviders st; topCodes := topCodes st;
        loading := false |}) /\
  (existsb failed [ov; tr; tp; tc] = false ->
   exists o t p c,
     ov = Api.Reply true (Some o) /\ tr = Api.Reply true (Some t) /\
     tp = Api.Reply true (Some p) /\ tc = Api.Reply true (Some c) /\
     load st ov tr tp tc =
       {| overview := o; trends := t; topProviders := p; topCodes := c;
          loading := false |}).
Proof.
  split.
  - intros H. simpl in H. rewrite orb_false_r, !orb_true_iff in H.
    unfold load.
    destruct (all4_thrown (Requests.fetchOverview_result ov)
                (Requests.fetchTrends_result tr)
                (Requests.fetchTopProviders_result tp)
                (Requests.fetchTopCodes_result tc)) as [e ->]; [|reflexivity].
    destruct H as [H | [H | [H | H]]];
      [left | right; left | right; right; left | right; right; right];
      apply failed_throws, H.
  - intros H. simpl in H. rewrite orb_false_r, !orb_false_iff in H.
    destruct H as (H1 & H2 & H3 & H4).
    destruct ov as [|[] [o|]]; try discriminate.
    destruct tr as [|[] [t|]]; try discriminate.
    destruct tp as [|[] [p|]]; try discriminate.
    destruct tc as [|[] [c|]]; try discriminate.
    exists o, t, p, c. repeat split.
Qed.

Lemma dashboard_all_or_nothing_witness :
  load initial (Api.Reply true (Some (Obj []))) (Api.Reply true (Some (Arr [])))
       (Api.Reply false None) (Api.Reply true (Some (Arr []))) =
    {| overview := Null; trends := Arr []; topProviders := Arr [];
       topCodes := Arr []; loading := false |}.
Proof.
  apply (proj1 (dashboard_all_or_nothing initial
                  (Api.Reply true (Some (Obj []))) (Api.Reply true (Some (Arr [])))
                  (Api.Reply false None) (Api.Reply true (Some (Arr []))))).
  reflexivity.
Defined.

End DashboardProps.
